(** * SimpleCarpoolComparison: a shallow embedding and its properties

    The program is the Python class [SimpleCarpoolComparison] with its three
    static methods [is_longer_trip], [dist] and [coordinate_to_float].

    - Python floats are IEEE 754 binary64 numbers: Rocq's primitive [float].
    - Python ints are unbounded: [Z].
    - Python objects of the kinds the methods can be handed are the
      constructors of [value]; a tuple is the list of its items.
    - An exception is a value of [exn]; a call returns a [result]. *)

From Stdlib Require Import ZArith Bool List String Lia Zpower.
From Stdlib Require Import Floats.
Import ListNotations.

#[local] Set Warnings "-inexact-float,-register-all".
Local Open Scope string_scope.

(** ** Python objects, exceptions and results *)

Inductive value : Type :=
| VNone
| VBool (b : bool)
| VInt (n : Z)
| VFloat (f : float)
| VStr (s : string)
| VTuple (items : list value)
| VList (items : list value).

(** What [type(v)] is compared against. *)
Inductive pytype : Type :=
| TNoneType | Tbool | Tint | Tfloat | Tstr | Ttuple | Tlist.

Inductive exn : Type :=
| TypeError (msg : string)
| IndexError (msg : string)
| ValueError (msg : string)
| OverflowError (msg : string).

Inductive result (A : Type) : Type :=
| Return (a : A)
| Raise (e : exn).

Arguments Return {A} a.
Arguments Raise {A} e.

Definition bind {A B : Type} (r : result A) (k : A -> result B) : result B :=
  match r with
  | Return a => k a
  | Raise e => Raise e
  end.

Declare Scope py_scope.
Delimit Scope py_scope with py.

Notation "x <- r ;; k" := (bind r (fun x => k))
  (at level 61, r at next level, right associativity) : py_scope.

(** One arm of an [if ... raise / elif ... raise] cascade: the condition is
    evaluated (it may itself raise); when it holds the arm raises [e],
    otherwise control falls to the next arm [k]. *)
Definition raise_if {A : Type} (c : result bool) (e : exn) (k : result A)
  : result A :=
  bind c (fun b => if b then Raise e else k).

Notation "'when' c 'raise' e ;; k" := (raise_if c e k)
  (at level 61, c at next level, e at next level, right associativity)
  : py_scope.

Local Open Scope py_scope.

Definition type_of (v : value) : pytype :=
  match v with
  | VNone => TNoneType
  | VBool _ => Tbool
  | VInt _ => Tint
  | VFloat _ => Tfloat
  | VStr _ => Tstr
  | VTuple _ => Ttuple
  | VList _ => Tlist
  end.

Definition pytype_eqb (s t : pytype) : bool :=
  match s, t with
  | TNoneType, TNoneType | Tbool, Tbool | Tint, Tint | Tfloat, Tfloat
  | Tstr, Tstr | Ttuple, Ttuple | Tlist, Tlist => true
  | _, _ => false
  end.

(** [type(v) is not t] *)
Definition type_is_not (v : value) (t : pytype) : bool :=
  negb (pytype_eqb (type_of v) t).

(** [len(v)] *)
Definition len (v : value) : result Z :=
  match v with
  | VTuple items | VList items => Return (Z.of_nat (List.length items))
  | VStr s => Return (Z.of_nat (String.length s))
  | _ => Raise (TypeError "object has no len()")
  end.

(** [v[i]] for a literal index [i >= 0] *)
Definition getitem (v : value) (i : nat) : result value :=
  match v with
  | VTuple items =>
      match nth_error items i with
      | Some w => Return w
      | None => Raise (IndexError "tuple index out of range")
      end
  | VList items =>
      match nth_error items i with
      | Some w => Return w
      | None => Raise (IndexError "list index out of range")
      end
  | VStr s =>
      match String.get i s with
      | Some c => Return (VStr (String c EmptyString))
      | None => Raise (IndexError "string index out of range")
      end
  | _ => Raise (TypeError "object is not subscriptable")
  end.

(** ** Numbers *)

(** The conversion of a Python int to a float ([PyLong_AsDouble]): the
    nearest binary64 number, ties to even; an int too large for the format
    raises [OverflowError]. *)
Definition round_int (n : Z) : float :=
  SF2Prim (binary_normalize prec emax n 0 false).

Definition float_of_int (n : Z) : result float :=
  let f := round_int n in
  if is_infinity f
  then Raise (OverflowError "int too large to convert to float")
  else Return f.

(** The float a numeric operand of an arithmetic operator or of a [math]
    function stands for. *)
Definition as_float (v : value) : result float :=
  match v with
  | VFloat f => Return f
  | VInt n => float_of_int n
  | VBool b => Return (if b then 1%float else 0%float)
  | _ => Raise (TypeError "must be real number")
  end.

(** [v + w], [v - w] and [v / w] where one operand at least is a float *)
Definition float_binop (op : float -> float -> float) (v w : value)
  : result float :=
  a <- as_float v ;; b <- as_float w ;; Return (op a b).

(** ** The [math] module

    [math.sin], [math.cos] and [math.atan2] call the C library.  What the C
    library returns at an ordinary argument (finite, not zero) is the
    platform's business: it is the parameter [Libm].  At the special values
    the C standard (Annex F) fixes the results, and CPython's wrappers turn
    a NaN result of a non-NaN argument, and an infinite result of a finite
    argument, into an exception. *)

Record Libm : Type := {
  libm_sin : float -> float;
  libm_cos : float -> float;
  libm_atan2 : float -> float -> float
}.

Definition Py_MATH_PI : float := 0x1.921fb54442d18p+1%float.

Definition degToRad : float :=
  Eval vm_compute in (Py_MATH_PI / 180)%float.

(** [copysign(x, y)]: the magnitude of [x] with the sign of [y] *)
Definition copysign (x y : float) : float :=
  if get_sign y then (- abs x)%float else abs x.

Section Math.

Variable M : Libm.

(** C's [sin]: sin(+-0) is +-0, sin(+-inf) and sin(NaN) are NaN. *)
Definition c_sin (x : float) : float :=
  if is_nan x || is_infinity x then nan
  else if is_zero x then x
  else libm_sin M x.

(** C's [cos]: cos(+-0) is 1, cos(+-inf) and cos(NaN) are NaN. *)
Definition c_cos (x : float) : float :=
  if is_nan x || is_infinity x then nan
  else if is_zero x then 1%float
  else libm_cos M x.

(** CPython's [m_atan2]: the special cases are decided before the C
    library is asked. *)
Definition m_atan2 (y x : float) : float :=
  if is_nan x || is_nan y then nan
  else if is_infinity y then
    if is_infinity x then
      if get_sign x then copysign (0.75 * Py_MATH_PI) y
      else copysign (0.25 * Py_MATH_PI) y
    else copysign (0.5 * Py_MATH_PI) y
  else if is_infinity x || is_zero y then
    if get_sign x then copysign Py_MATH_PI y
    else copysign 0 y
  else libm_atan2 M y x.

(** CPython's [math_1] with [can_overflow = 0], the wrapper of [sin],
    [cos] and [sqrt]. *)
Definition math_1 (func : float -> float) (x : float) : result float :=
  let r := func x in
  if is_nan r && negb (is_nan x)
  then Raise (ValueError "math domain error")
  else if is_infinity r && is_finite x
  then Raise (ValueError "math domain error")
  else Return r.

(** CPython's [math_2], the wrapper of [atan2]. *)
Definition math_2 (func : float -> float -> float) (x y : float)
  : result float :=
  let r := func x y in
  if is_nan r then
    if negb (is_nan x) && negb (is_nan y)
    then Raise (ValueError "math domain error")
    else Return r
  else if is_infinity r then
    if is_finite x && is_finite y
    then Raise (OverflowError "math range error")
    else Return r
  else Return r.

Definition math_sin : float -> result float := math_1 c_sin.
Definition math_cos : float -> result float := math_1 c_cos.
Definition math_sqrt : float -> result float := math_1 sqrt.
Definition math_atan2 : float -> float -> result float := math_2 m_atan2.
Definition math_radians (x : float) : float := (x * degToRad)%float.

(** ** The class [SimpleCarpoolComparison] *)

Definition equatorial_radius_kilometers : float := 6378.1%float.
Definition polar_radius_kilometers : float := 6356.8%float.
Definition volumetric_mean_radius_kilometers : float := 6371.0%float.

Definition dist (v1 v2 : value) : result float :=
  let invalid := "Invalid input to dist! " in
  (* Check input *)
  when Return (type_is_not v1 Ttuple)
    raise TypeError (invalid ++ "Expected tuple in arg[0]") ;;
  when (n <- len v1 ;; Return (negb (n =? 2)%Z))
    raise TypeError (invalid ++ "Incorrect tuple size in arg[0]") ;;
  when (e <- getitem v1 0 ;; Return (type_is_not e Tfloat))
    raise TypeError (invalid ++ "Expected float in arg[0][0]") ;;
  when (e <- getitem v1 1 ;; Return (type_is_not e Tfloat))
    raise TypeError (invalid ++ "Expected float in arg[0][1]") ;;
  when Return (type_is_not v2 Ttuple)
    raise TypeError (invalid ++ "Expected tuple in arg[1]") ;;
  when (n <- len v2 ;; Return (negb (n =? 2)%Z))
    raise TypeError (invalid ++ "Incorrect tuple size in arg[1]") ;;
  when (e <- getitem v2 0 ;; Return (type_is_not e Tfloat))
    raise TypeError (invalid ++ "Expected float in arg[1][0]") ;;
  when (e <- getitem v2 1 ;; Return (type_is_not e Tfloat))
    raise TypeError (invalid ++ "Expected float in arg[1][1]") ;;
  (* radius of the earth *)
  let R := volumetric_mean_radius_kilometers in
  (* the angle from the equator in radians *)
  v1_0 <- getitem v1 0 ;; x <- as_float v1_0 ;;
  let v1a := math_radians x in
  v2_0 <- getitem v2 0 ;; x <- as_float v2_0 ;;
  let v2a := math_radians x in
  (* the change in each direction *)
  v2_0 <- getitem v2 0 ;; v1_0 <- getitem v1 0 ;;
  x <- float_binop sub v2_0 v1_0 ;;
  let lad := math_radians x in
  v2_1 <- getitem v2 1 ;; v1_1 <- getitem v1 1 ;;
  x <- float_binop sub v2_1 v1_1 ;;
  let lod := math_radians x in
  (* half_chord_length_squared *)
  s1 <- math_sin (lad / 2.0) ;;
  s2 <- math_sin (lad / 2.0) ;;
  c1 <- math_cos v1a ;;
  c2 <- math_cos v2a ;;
  s3 <- math_sin (lod / 2.0) ;;
  s4 <- math_sin (lod / 2.0) ;;
  let a := (s1 * s2 + c1 * c2 * s3 * s4)%float in
  (* angular_distance_radians *)
  q1 <- math_sqrt a ;;
  q2 <- math_sqrt (1.0 - a) ;;
  t <- math_atan2 q1 q2 ;;
  let c := (2.0 * t)%float in
  (* distance_kilometers *)
  let d := (R * c)%float in
  Return d.

Definition is_longer_trip (x y : value) : result bool :=
  let invalid := "Invalid input to is_longer_trip! " in
  (* Check input *)
  when Return (type_is_not x Ttuple)
    raise TypeError (invalid ++ "Expected tuple in arg[0]") ;;
  when (n <- len x ;; Return (negb (n =? 2)%Z))
    raise TypeError (invalid ++ "Incorrect tuple size in arg[0]") ;;
  when (x0 <- getitem x 0 ;; Return (type_is_not x0 Ttuple))
    raise TypeError (invalid ++ "Expected tuple in arg[0][0]") ;;
  when (x0 <- getitem x 0 ;; n <- len x0 ;; Return (negb (n =? 2)%Z))
    raise TypeError (invalid ++ "Incorrect tuple size in arg[0][0]") ;;
  when (x0 <- getitem x 0 ;; e <- getitem x0 0 ;;
        Return (type_is_not e Tfloat))
    raise TypeError (invalid ++ "Expected float in arg[0][0][0]") ;;
  when (x0 <- getitem x 0 ;; e <- getitem x0 1 ;;
        Return (type_is_not e Tfloat))
    raise TypeError (invalid ++ "Expected float in arg[0][0][0]") ;;
  when (x1 <- getitem x 1 ;; Return (type_is_not x1 Ttuple))
    raise TypeError (invalid ++ "Expected tuple in arg[0][1]") ;;
  when (x1 <- getitem x 1 ;; n <- len x1 ;; Return (negb (n =? 2)%Z))
    raise TypeError (invalid ++ "Incorrect tuple size in arg[0][1]") ;;
  when (x1 <- getitem x 1 ;; e <- getitem x1 0 ;;
        Return (type_is_not e Tfloat))
    raise TypeError (invalid ++ "Expected float in arg[0][1][0]") ;;
  when (x1 <- getitem x 1 ;; e <- getitem x1 1 ;;
        Return (type_is_not e Tfloat))
    raise TypeError (invalid ++ "Expected float in arg[0][1][1]") ;;
  when Return (type_is_not y Ttuple)
    raise TypeError (invalid ++ "Expected tuple in arg[1]") ;;
  when (n <- len y ;; Return (negb (n =? 2)%Z))
    raise TypeError (invalid ++ "Incorrect tuple size in arg[1]") ;;
  when (y0 <- getitem y 0 ;; Return (type_is_not y0 Ttuple))
    raise TypeError (invalid ++ "Expected tuple in arg[1][0]") ;;
  when (y0 <- getitem y 0 ;; n <- len y0 ;; Return (negb (n =? 2)%Z))
    raise TypeError (invalid ++ "Incorrect tuple size in arg[1][0]") ;;
  when (y0 <- getitem y 0 ;; e <- getitem y0 0 ;;
        Return (type_is_not e Tfloat))
    raise TypeError (invalid ++ "Expected float in arg[1][0][0]") ;;
  when (y0 <- getitem y 0 ;; e <- getitem y0 1 ;;
        Return (type_is_not e Tfloat))
    raise TypeError (invalid ++ "Expected float in arg[1][0][1]") ;;
  when (y1 <- getitem y 1 ;; Return (type_is_not y1 Ttuple))
    raise TypeError (invalid ++ "Expected float in arg[1][1]") ;;
  (* the source measures [y] here, not [y[1]] *)
  when (n <- len y ;; Return (negb (n =? 2)%Z))
    raise TypeError (invalid ++ "Incorrect tuple size in arg[1][1]") ;;
  when (y1 <- getitem y 1 ;; e <- getitem y1 0 ;;
        Return (type_is_not e Tfloat))
    raise TypeError (invalid ++ "Expected float in arg[1][1][0]") ;;
  when (y1 <- getitem y 1 ;; e <- getitem y1 1 ;;
        Return (type_is_not e Tfloat))
    raise TypeError (invalid ++ "Expected float in arg[1][1][1]") ;;
  a <- getitem x 0 ;;
  b <- getitem x 1 ;;
  c <- getitem y 0 ;;
  d <- getitem y 1 ;;
  let xtrip := 0.0%float in
  t <- dist a c ;; let xtrip := (xtrip + t)%float in
  t <- dist c d ;; let xtrip := (xtrip + t)%float in
  t <- dist d b ;; let xtrip := (xtrip + t)%float in
  let ytrip := 0.0%float in
  t <- dist c a ;; let ytrip := (ytrip + t)%float in
  t <- dist a b ;; let ytrip := (ytrip + t)%float in
  t <- dist b d ;; let ytrip := (ytrip + t)%float in
  if (ytrip <? xtrip)%float then Return true else Return false.

End Math.

(** [coordinate_to_float] uses no [math] function. *)
Definition coordinate_to_float (degrees minutes seconds sign : value)
  : result float :=
  let invalid := "Invalid input to coordinate_to_float! " in
  (* Check input *)
  when Return (type_is_not degrees Tint)
    raise TypeError (invalid ++ "Expected int in arg[0]") ;;
  when Return (type_is_not minutes Tint)
    raise TypeError (invalid ++ "Expected int in arg[1]") ;;
  when Return (type_is_not seconds Tint)
    raise TypeError (invalid ++ "Expected int in arg[2]") ;;
  when Return (type_is_not sign Tbool)
    raise TypeError (invalid ++ "Expected bool in arg[3]") ;;
  ret <- float_binop add degrees (VFloat 0.0) ;;
  t <- float_binop div minutes (VFloat 60.0) ;;
  let ret := (ret + t)%float in
  t <- float_binop div seconds (VFloat 3600.0) ;;
  let ret := (ret + t)%float in
  match sign with
  | VBool true => Return ret
  | _ => Return (- ret)%float
  end.

(** The test harness's [within_tolerance]. *)
Definition within_tolerance (value target : float) : bool :=
  let tolerance := 0.001%float in
  let bottom_bound := (target - target * tolerance)%float in
  let top_bound := (target + target * tolerance)%float in
  if (bottom_bound <? value)%float
  then if (value <? top_bound)%float then true else false
  else false.

Definition point (lat lon : float) : value := VTuple [VFloat lat; VFloat lon].
Definition route (src dst : value) : value := VTuple [src; dst].

(** ** A reference C library

    One instance of [Libm], written with the float operations alone: the
    argument of [sin] and [cos] is brought near zero by subtracting a
    multiple of 2 pi and the Taylor polynomial is evaluated by Horner's
    rule; [atan2] halves the angle twice and sums the series of [atan].
    It is accurate enough to replay the test block at the end of the source
    file, and it shows that the assumptions made on a C library below can be
    met. *)

Module SeriesLibm.

Local Open Scope float_scope.

(** The nearest integer of [y], for [|y| < 2^51]. *)
Definition nearest (y : float) : float := (y + 0x1.8p52) - 0x1.8p52.

Definition two_pi : float := Eval vm_compute in 2 * Py_MATH_PI.
Definition half_pi : float := Eval vm_compute in 0.5 * Py_MATH_PI.

Definition reduce (u : float) : float := u - nearest (u / two_pi) * two_pi.

(** [1 - z/(k(k+1)) (1 - z/((k+2)(k+3)) (...))], [n] factors deep *)
Fixpoint alternating (n : nat) (k z : float) : float :=
  match n with
  | O => 1
  | S n' => 1 - z / (k * (k + 1)) * alternating n' (k + 2) z
  end.

(** [1/k - z (1/(k+2) - z (...))], [n] terms deep *)
Fixpoint gregory (n : nat) (k z : float) : float :=
  match n with
  | O => 1 / k
  | S n' => 1 / k - z * gregory n' (k + 2) z
  end.

(** A value kept inside [lo, hi]; a NaN becomes [lo]. *)
Definition clamp (lo hi v : float) : float :=
  if is_nan v then lo
  else if v <? lo then lo
  else if hi <? v then hi
  else v.

Definition sin_nonneg (u : float) : float :=
  let r := reduce u in
  clamp (-1) 1 (r * alternating 18 2 (r * r)).

Definition cos_nonneg (u : float) : float :=
  let r := reduce u in
  clamp (-1) 1 (alternating 18 1 (r * r)).

Definition sin (x : float) : float :=
  if x <? 0 then - sin_nonneg (- x) else sin_nonneg x.

Definition cos (x : float) : float :=
  if x <? 0 then cos_nonneg (- x) else cos_nonneg x.

(** [atan t] for [0 <= t <= 1] *)
Definition atan_unit (t : float) : float :=
  let t1 := t / (1 + sqrt (1 + t * t)) in
  let t2 := t1 / (1 + sqrt (1 + t1 * t1)) in
  4 * (t2 * gregory 14 1 (t2 * t2)).

(** The angle of the point [(x, y)] of the first quadrant *)
Definition atan2_quadrant1 (y x : float) : float :=
  clamp 0 half_pi
    (if y <=? x then atan_unit (y / x) else half_pi - atan_unit (x / y)).

Definition atan2 (y x : float) : float :=
  let t := atan2_quadrant1 (abs y) (abs x) in
  let t := if x <? 0 then Py_MATH_PI - t else t in
  if y <? 0 then - t else t.

Definition libm : Libm :=
  {| libm_sin := sin; libm_cos := cos; libm_atan2 := atan2 |}.

End SeriesLibm.

(** ** What the specification says, in its own words *)

Section Specification.

Variable M : Libm.

Local Open Scope float_scope.

(** Section 4.1, steps 1 to 5. *)
Definition haversine (lat1 lon1 lat2 lon2 : float) : result float :=
  let phi1 := math_radians lat1 in
  let phi2 := math_radians lat2 in
  let dphi := math_radians (lat2 - lat1) in
  let dlambda := math_radians (lon2 - lon1) in
  (sin_dphi <- math_sin M (dphi / 2) ;;
   cos_phi1 <- math_cos M phi1 ;;
   cos_phi2 <- math_cos M phi2 ;;
   sin_dlambda <- math_sin M (dlambda / 2) ;;
   let a := sin_dphi * sin_dphi
            + cos_phi1 * cos_phi2 * sin_dlambda * sin_dlambda in
   root_a <- math_sqrt a ;;
   root_1a <- math_sqrt (1 - a) ;;
   angle <- math_atan2 M root_a root_1a ;;
   let c := 2 * angle in
   Return (6371.0 * c))%py.

(** The same formula over the C functions themselves, with no check on
    their results. *)
Definition haversine_a (lat1 lon1 lat2 lon2 : float) : float :=
  let dphi := math_radians (lat2 - lat1) in
  let dlambda := math_radians (lon2 - lon1) in
  c_sin M (dphi / 2) * c_sin M (dphi / 2)
  + c_cos M (math_radians lat1) * c_cos M (math_radians lat2)
    * c_sin M (dlambda / 2) * c_sin M (dlambda / 2).

Definition haversine_value (lat1 lon1 lat2 lon2 : float) : float :=
  let a := haversine_a lat1 lon1 lat2 lon2 in
  6371.0 * (2 * m_atan2 M (sqrt a) (sqrt (1 - a))).

(** Section 4.2: the length of a three-leg trip. *)
Definition trip (leg1 leg2 leg3 : float) : float := leg1 + leg2 + leg3.

End Specification.

Section Angles.

Local Open Scope float_scope.
Local Open Scope py_scope.

(** The haversine computation from its four angles. *)
Definition haversine_of_angles (M : Libm) (half_dphi phi1 phi2 half_dlambda : float)
  : result float :=
  sin_dphi <- math_sin M half_dphi ;;
  cos_phi1 <- math_cos M phi1 ;;
  cos_phi2 <- math_cos M phi2 ;;
  sin_dlambda <- math_sin M half_dlambda ;;
  let a := sin_dphi * sin_dphi
           + cos_phi1 * cos_phi2 * sin_dlambda * sin_dlambda in
  root_a <- math_sqrt a ;;
  root_1a <- math_sqrt (1 - a) ;;
  angle <- math_atan2 M root_a root_1a ;;
  Return (6371.0 * (2 * angle)).

Definition half_angle (degrees : float) : float := math_radians degrees / 2.

End Angles.

(** Section 4.3: degrees, minutes and seconds as decimal degrees. *)
Definition decimal_degrees (d m s : float) : float :=
  (d + m / 60 + s / 3600)%float.

(** A well-formed point is a tuple of exactly two floats, a well-formed
    route a tuple of exactly two well-formed points. *)
Definition is_point (v : value) : bool :=
  match v with
  | VTuple [VFloat _; VFloat _] => true
  | _ => false
  end.

Definition is_route (v : value) : bool :=
  match v with
  | VTuple [p; q] => is_point p && is_point q
  | _ => false
  end.

(** The two ways a float can be the same distance as another one as far as
    a comparison can tell: the same float, or two zeros. *)
Definition sf_alike (x y : spec_float) : Prop :=
  x = y \/ exists s t, x = S754_zero s /\ y = S754_zero t.

(** ** Assumptions on the C library

    They are stated on the C functions and used one at a time. *)

Definition in_unit_interval (x : float) : bool :=
  ((-1 <=? x) && (x <=? 1))%float.

(** [sin] and [cos] of a finite argument lie in [-1, 1]. *)
Definition sin_in_range (M : Libm) : Prop :=
  forall x : float, is_finite x = true -> in_unit_interval (c_sin M x) = true.

Definition cos_in_range (M : Libm) : Prop :=
  forall x : float, is_finite x = true -> in_unit_interval (c_cos M x) = true.

(** [sin] is an odd function. *)
Definition sin_odd (M : Libm) : Prop :=
  forall x : float, c_sin M (- x) = (- c_sin M x)%float.

(** [cos] is an even function. *)
Definition cos_even (M : Libm) : Prop :=
  forall x : float, c_cos M (- x) = c_cos M x.

(** The angle of a point of the first quadrant lies between 0 and pi/2
    (the float nearest to it). *)
Definition atan2_in_quadrant (M : Libm) : Prop :=
  forall y x : float,
    is_finite y = true -> is_finite x = true ->
    (0 <? y)%float = true -> (0 <=? x)%float = true ->
    ((0 <=? libm_atan2 M y x) && (libm_atan2 M y x <=? 0.5 * Py_MATH_PI))%float
    = true.

(** The integers [PyLong_AsDouble] converts: those that do not round to an
    infinity. *)
Definition int_limit : Z := (2 ^ 1024 - 2 ^ 970)%Z.

(** ** Binary64 numbers as integers

    Every finite binary64 number is an integer multiple of [2^-1074], the
    least positive one: [units] is that integer.  An infinity counts
    [cap = 2^2098] units, more than any finite number.  The operations of
    [SpecFloat] round with a shift register ([shr_record]); [shr_of P K] is
    the register after [P] was shifted right [K] times, and [rne P n] the
    integer nearest to [P / 2^n], ties to even. *)

Abbreviation fexp64 := (fexp prec emax).

Definition shr_of (P K : Z) : shr_record :=
  Build_shr_record (P / 2 ^ K)
    (2 ^ K <=? 2 * (P mod 2 ^ K))%Z
    (negb ((P mod 2 ^ K =? 0) || (2 * (P mod 2 ^ K) =? 2 ^ K)))%Z.

Definition rne (P n : Z) : Z :=
  (let q := P / 2 ^ n in
   let rem := P mod 2 ^ n in
   if 2 * rem <? 2 ^ n then q
   else if 2 ^ n <? 2 * rem then q + 1
   else if Z.even q then q else q + 1)%Z.

(** What [binary_round_aux] makes of the integer [P] at exponent [e],
    counted in units of [2^E0]. *)
Definition rounded (P e E0 : Z) : Z :=
  (let g := fexp64 (Z.log2 P + 1 + e) in
   rne (P * 2 ^ (e - E0)) (g - E0) * 2 ^ (g - E0))%Z.

Definition round_result (s : bool) (R E0 : Z) (r : spec_float) : Prop :=
  match r with
  | S754_zero s' => s' = s /\ R = 0%Z
  | S754_finite s' m e =>
      s' = s /\ (E0 <= e)%Z /\ (Zpos m * 2 ^ (e - E0) = R)%Z
      /\ (R < 2 ^ (1024 - E0))%Z /\ bounded prec emax m e = true
  | S754_infinity s' => s' = s /\ (2 ^ (1024 - E0) <= R)%Z
  | S754_nan => False
  end.

Definition cap : Z := (2 ^ 2098)%Z.

Definition units (x : spec_float) : Z :=
  match x with
  | S754_zero _ => 0%Z
  | S754_finite s m e => cond_Zopp s (Zpos m * 2 ^ (e + 1074))%Z
  | S754_infinity s => cond_Zopp s cap
  | S754_nan => 0%Z
  end.

Definition funits (x : float) : Z := units (Prim2SF x).

(** Rounding on integers: [N] counts units of [2^(-1074-base)], the result
    counts units of [2^-1074]. *)
Definition grid (base N : Z) : Z := Z.max (Z.log2 N - 52) base.

Definition round_up_to (base N : Z) : Z :=
  (rne N (grid base N) * 2 ^ (grid base N - base))%Z.

Definition round_to (base N : Z) : Z :=
  (Z.sgn N * Z.min (round_up_to base (Z.abs N)) cap)%Z.

Definition sign_of (r : spec_float) : bool :=
  match r with
  | S754_zero s | S754_infinity s | S754_finite s _ _ => s
  | S754_nan => false
  end.

Definition fin (x : spec_float) : Prop :=
  match x with
  | S754_zero _ | S754_finite _ _ _ => True
  | _ => False
  end.

(** ** Facts on binary64 numbers

    They are read off the specification of the primitive operations
    ([SpecFloat]) through [Prim2SF]. *)

Section FloatOrder.

Local Open Scope float_scope.

Lemma SFcompare_antisym (x y : spec_float) :
  SFcompare y x = option_map CompOpp (SFcompare x y).
Proof.
  destruct x as [s1|s1| |s1 m1 e1], y as [s2|s2| |s2 m2 e2]; simpl;
    try reflexivity;
    try (destruct s1; reflexivity);
    try (destruct s2; reflexivity);
    try (destruct s1, s2; reflexivity).
  destruct s1, s2; simpl; try reflexivity;
    rewrite (Z.compare_antisym e1 e2);
    destruct (e1 ?= e2)%Z; simpl; try reflexivity;
    rewrite (Pos.compare_cont_antisym m1 m2 Eq); simpl;
    try reflexivity.
Qed.

Lemma SFcompare_refl (x : spec_float) :
  SFcompare x x = None \/ SFcompare x x = Some Eq.
Proof.
  destruct x as [s|s| |s m e]; simpl; auto; right.
  - destruct s; reflexivity.
  - destruct s; rewrite Z.compare_refl, Pos.compare_cont_refl; reflexivity.
Qed.

Lemma ltb_irrefl (x : float) : (x <? x) = false.
Proof.
  rewrite ltb_spec. unfold SFltb.
  destruct (SFcompare_refl (Prim2SF x)) as [-> | ->]; reflexivity.
Qed.

Lemma eqb_not_ltb (x y : float) : (x =? y) = true -> (y <? x) = false.
Proof.
  rewrite eqb_spec, ltb_spec. unfold SFeqb, SFltb.
  rewrite (SFcompare_antisym (Prim2SF x) (Prim2SF y)).
  destruct (SFcompare (Prim2SF x) (Prim2SF y)) as [[]|]; simpl;
    congruence.
Qed.

Lemma ltb_not_ltb (x y : float) : (x <? y) = true -> (y <? x) = false.
Proof.
  rewrite !ltb_spec. unfold SFltb.
  rewrite (SFcompare_antisym (Prim2SF x) (Prim2SF y)).
  destruct (SFcompare (Prim2SF x) (Prim2SF y)) as [[]|]; simpl;
    congruence.
Qed.

End FloatOrder.

Section FloatZero.

Local Open Scope float_scope.

Lemma sf_alike_refl (x : spec_float) : sf_alike x x.
Proof. now left. Qed.

Lemma SFadd_zero_l (x : spec_float) :
  sf_alike (SFadd prec emax (S754_zero false) x) x.
Proof.
  destruct x as [[]| | |]; simpl; try (now left).
  right. now exists false, true.
Qed.

Lemma SFadd_alike (x y b : spec_float) :
  sf_alike x y -> sf_alike (SFadd prec emax x b) (SFadd prec emax y b).
Proof.
  intros [-> | (s & t & -> & ->)]; [now left|].
  destruct b as [u| | |]; simpl; try (now left).
  right. destruct s, t, u; eauto.
Qed.

Lemma SFcompare_alike (x x' y y' : spec_float) :
  sf_alike x x' -> sf_alike y y' -> SFcompare x y = SFcompare x' y'.
Proof.
  intros [-> | (s & t & -> & ->)] [-> | (u & v & -> & ->)];
    try reflexivity.
Qed.

Lemma Prim2SF_zero : Prim2SF 0 = S754_zero false.
Proof. reflexivity. Qed.

(** Starting a sum at [0.0] does not change what a comparison sees. *)
Lemma ltb_sum_from_zero (a b c a' b' c' : float) :
  (0 + a' + b' + c' <? 0 + a + b + c) = (a' + b' + c' <? a + b + c).
Proof.
  rewrite !ltb_spec. unfold SFltb.
  rewrite !add_spec, Prim2SF_zero. unfold SF64add.
  rewrite (SFcompare_alike _ (SFadd prec emax (SFadd prec emax (Prim2SF a') (Prim2SF b')) (Prim2SF c'))
             _ (SFadd prec emax (SFadd prec emax (Prim2SF a) (Prim2SF b)) (Prim2SF c)));
    [reflexivity | | ]; do 2 apply SFadd_alike; apply SFadd_zero_l.
Qed.

End FloatZero.

Section ShiftRight.

Local Open Scope Z_scope.

Lemma digits2_pos_size p : digits2_pos p = Pos.size p.
Proof. induction p; simpl; congruence. Qed.

Lemma Zdigits2_log2 p : Zdigits2 (Zpos p) = Z.log2 (Zpos p) + 1.
Proof.
  unfold Zdigits2. rewrite digits2_pos_size.
  destruct p; simpl; try reflexivity; now rewrite Pos2Z.inj_succ.
Qed.

Lemma pow2_pos k : 0 <= k -> 0 < 2 ^ k.
Proof. intros. apply Z.pow_pos_nonneg; lia. Qed.

Lemma shr_1_nonneg m r s :
  0 <= m ->
  shr_1 (Build_shr_record m r s) = Build_shr_record (m / 2) (Z.odd m) (r || s).
Proof.
  intros Hm. rewrite <- Z.div2_div.
  destruct m as [|[p|p|]|]; try reflexivity. lia.
Qed.

Lemma shr_1_shr_of P K :
  0 <= P -> 0 <= K -> shr_1 (shr_of P K) = shr_of P (K + 1).
Proof.
  intros HP HK. unfold shr_of.
  assert (H2 := pow2_pos K HK).
  rewrite shr_1_nonneg by (apply Z.div_pos; lia).
  rewrite Z.pow_add_r, Z.pow_1_r by lia.
  rewrite (Z.rem_mul_r P (2 ^ K) 2) by lia.
  rewrite Z.div_div by lia.
  rewrite Zodd_mod.
  assert (Hr := Z.mod_pos_bound P (2 ^ K) H2).
  assert (Hb := Z.mod_pos_bound (P / 2 ^ K) 2 ltac:(lia)).
  set (rem := P mod 2 ^ K) in *. set (b := (P / 2 ^ K) mod 2) in *.
  set (T := 2 ^ K) in *.
  assert (Hb' : b = 0 \/ b = 1) by lia.
  clearbody b rem T. clear Hb.
  f_equal.
  - destruct Hb'; subst b;
      destruct (Z.leb_spec (T * 2) (2 * (rem + T * 1))),
        (Z.leb_spec (T * 2) (2 * (rem + T * 0))); simpl; try reflexivity; lia.
  - destruct Hb'; subst b;
      destruct (Z.leb_spec T (2 * rem)), (Z.eqb_spec rem 0),
        (Z.eqb_spec (2 * rem) T), (Z.eqb_spec (rem + T * 0) 0),
        (Z.eqb_spec (rem + T * 1) 0),
        (Z.eqb_spec (2 * (rem + T * 0)) (T * 2)),
        (Z.eqb_spec (2 * (rem + T * 1)) (T * 2));
      simpl; try reflexivity; lia.
Qed.

Lemma iter_shr_of n : forall P K,
  0 <= P -> 0 <= K -> iter_pos shr_1 n (shr_of P K) = shr_of P (K + Zpos n).
Proof.
  induction n as [n IH|n IH|]; intros P K HP HK; cbn [iter_pos].
  - rewrite shr_1_shr_of, !IH by lia. f_equal. lia.
  - rewrite !IH by lia. f_equal. lia.
  - now apply shr_1_shr_of.
Qed.

Lemma shr_of_0 P : shr_of P 0 = Build_shr_record P false false.
Proof.
  unfold shr_of. rewrite Z.pow_0_r, Z.div_1_r, Z.mod_1_r. reflexivity.
Qed.

Lemma rne_of_shr P n :
  0 <= P -> 0 <= n ->
  round_nearest_even (shr_m (shr_of P n)) (loc_of_shr_record (shr_of P n))
  = rne P n.
Proof.
  intros HP Hn. unfold shr_of, rne, loc_of_shr_record, round_nearest_even.
  cbn [shr_m].
  assert (H2 := pow2_pos n Hn).
  assert (Hr := Z.mod_pos_bound P (2 ^ n) H2).
  set (rem := P mod 2 ^ n) in *. set (T := 2 ^ n) in *.
  destruct (Z.leb_spec T (2 * rem)), (Z.eqb_spec rem 0),
    (Z.eqb_spec (2 * rem) T), (Z.ltb_spec (2 * rem) T),
    (Z.ltb_spec T (2 * rem)); simpl; try reflexivity; lia.
Qed.

Lemma rne_bounds P n : 0 <= n -> P / 2 ^ n <= rne P n <= P / 2 ^ n + 1.
Proof.
  intros. unfold rne.
  destruct (_ <? _); [lia|]. destruct (_ <? _); [lia|].
  destruct (Z.even _); lia.
Qed.

Lemma rne_exact k n : 0 <= n -> rne (k * 2 ^ n) n = k.
Proof.
  intros Hn. unfold rne. assert (H2 := pow2_pos n Hn).
  rewrite Z.div_mul, Z.mod_mul by lia.
  destruct (Z.ltb_spec (2 * 0) (2 ^ n)); lia.
Qed.

Lemma rne_mono P P' n : 0 <= n -> P <= P' -> rne P n <= rne P' n.
Proof.
  intros Hn HP. assert (H2 := pow2_pos n Hn).
  assert (Hq : P / 2 ^ n <= P' / 2 ^ n) by (apply Z.div_le_mono; lia).
  destruct (Z.eq_dec (P / 2 ^ n) (P' / 2 ^ n)) as [E|NE].
  - unfold rne. rewrite <- E.
    assert (Hr : P mod 2 ^ n <= P' mod 2 ^ n).
    { rewrite !Z.mod_eq by lia. rewrite <- E. lia. }
    set (q := P / 2 ^ n) in *.
    destruct (Z.ltb_spec (2 * (P mod 2 ^ n)) (2 ^ n)),
      (Z.ltb_spec (2 * (P' mod 2 ^ n)) (2 ^ n)),
      (Z.ltb_spec (2 ^ n) (2 * (P mod 2 ^ n))),
      (Z.ltb_spec (2 ^ n) (2 * (P' mod 2 ^ n))),
      (Z.even q); lia.
  - pose proof (rne_bounds P n Hn). pose proof (rne_bounds P' n Hn). lia.
Qed.

Lemma rne_scale P n j :
  0 <= n -> 0 <= j -> rne (P * 2 ^ j) (n + j) = rne P n.
Proof.
  intros Hn Hj. unfold rne.
  assert (H2 := pow2_pos n Hn). assert (H3 := pow2_pos j Hj).
  rewrite Z.pow_add_r by lia.
  rewrite Z.div_mul_cancel_r by lia.
  rewrite Z.mul_mod_distr_r by lia.
  set (rem := P mod 2 ^ n). set (T := 2 ^ n) in *. set (J := 2 ^ j) in *.
  destruct (Z.ltb_spec (2 * rem) T), (Z.ltb_spec (2 * (rem * J)) (T * J)),
    (Z.ltb_spec T (2 * rem)), (Z.ltb_spec (T * J) (2 * (rem * J)));
    try reflexivity; nia.
Qed.

End ShiftRight.

Section RoundAux.

Local Open Scope Z_scope.

Lemma fexp64_eq z : fexp64 z = Z.max (z - 53) (-1074).
Proof. reflexivity. Qed.

Lemma pow2_le a b : 0 <= a <= b -> 2 ^ a <= 2 ^ b.
Proof. intros. apply Z.pow_le_mono_r; lia. Qed.

Lemma pow2_lt a b : 0 <= a < b -> 2 ^ a < 2 ^ b.
Proof. intros. apply Z.pow_lt_mono_r; lia. Qed.

Lemma pow2_split a b : 0 <= a <= b -> 2 ^ b = 2 ^ (b - a) * 2 ^ a.
Proof. intros. rewrite <- Z.pow_add_r by lia. f_equal. lia. Qed.

Lemma log2_pos_bounds p :
  2 ^ Z.log2 (Zpos p) <= Zpos p < 2 ^ (Z.log2 (Zpos p) + 1).
Proof. apply (Z.log2_spec (Zpos p)). lia. Qed.

Lemma shr_fexp_noshift m e :
  fexp64 (Zdigits2 m + e) <= e ->
  shr_fexp prec emax m e loc_Exact = (Build_shr_record m false false, e).
Proof.
  intros H. unfold shr_fexp, shr, shr_record_of_loc.
  destruct (fexp64 (Zdigits2 m + e) - e) eqn:E; try reflexivity. lia.
Qed.

Lemma shr_fexp_shift p e :
  e < fexp64 (Zdigits2 (Zpos p) + e) ->
  shr_fexp prec emax (Zpos p) e loc_Exact
  = (shr_of (Zpos p) (fexp64 (Zdigits2 (Zpos p) + e) - e),
     fexp64 (Zdigits2 (Zpos p) + e)).
Proof.
  intros H. unfold shr_fexp, shr, shr_record_of_loc.
  destruct (fexp64 (Zdigits2 (Zpos p) + e) - e) as [|n|n] eqn:E; try lia.
  rewrite <- shr_of_0, iter_shr_of by lia. rewrite <- E. f_equal. lia.
Qed.

Lemma bounded_intro m e :
  fexp64 (Z.log2 (Zpos m) + 1 + e) = e -> e <= 971 ->
  bounded prec emax m e = true.
Proof.
  intros H1 H2. unfold bounded, canonical_mantissa.
  change (Zpos (digits2_pos m)) with (Zdigits2 (Zpos m)).
  rewrite Zdigits2_log2, H1, Z.eqb_refl. simpl.
  apply Z.leb_le. exact H2.
Qed.

Lemma binary_round_aux_spec s p e E0 :
  E0 <= e -> E0 <= -1074 ->
  e <= fexp64 (Z.log2 (Zpos p) + 1 + e) ->
  round_result s (rounded (Zpos p) e E0) E0
    (binary_round_aux prec emax s (Zpos p) e loc_Exact).
Proof.
  intros HE0 HE1 Hlow.
  unfold rounded, binary_round_aux.
  pose proof (log2_pos_bounds p) as Hp.
  pose proof (Z.log2_nonneg (Zpos p)) as Hl.
  set (l := Z.log2 (Zpos p)) in *.
  set (g := fexp64 (l + 1 + e)) in *.
  assert (Hg : g = Z.max (l + 1 + e - 53) (-1074)) by apply fexp64_eq.
  destruct (Z_lt_le_dec e g) as [Hlt|Hge].
  - (* bits are shifted out *)
    rewrite shr_fexp_shift by (rewrite Zdigits2_log2; fold l g; lia).
    rewrite Zdigits2_log2. fold l g.
    rewrite rne_of_shr by lia.
    replace (rne (Zpos p * 2 ^ (e - E0)) (g - E0)) with (rne (Zpos p) (g - e))
      by (rewrite <- (rne_scale (Zpos p) (g - e) (e - E0)) by lia;
          f_equal; lia).
    pose proof (rne_bounds (Zpos p) (g - e) ltac:(lia)) as Hb.
    remember (rne (Zpos p) (g - e)) as r1 eqn:Er1. clear Er1.
    assert (Hm1 : 0 <= r1).
    { assert (0 <= Zpos p / 2 ^ (g - e))
        by (apply Z.div_pos; [lia | apply pow2_pos; lia]). lia. }
    assert (HX := pow2_pos (g - E0) ltac:(lia)).
    destruct r1 as [|m1|m1]; [| |lia].
    + (* everything is lost *)
      rewrite shr_fexp_noshift by (cbn [Zdigits2]; rewrite fexp64_eq; lia).
      cbn. split; [reflexivity | lia].
    + assert (Hq : Zpos p / 2 ^ (g - e) < 2 ^ 53 /\
                   (g = l + 1 + e - 53 -> 2 ^ 52 <= Zpos p / 2 ^ (g - e)) /\
                   (g <> l + 1 + e - 53 -> Zpos p / 2 ^ (g - e) < 2 ^ 52)).
      { assert (H2 := pow2_pos (g - e) ltac:(lia)).
        repeat split.
        - apply Z.div_lt_upper_bound; [lia|].
          rewrite <- Z.pow_add_r by lia.
          eapply Z.lt_le_trans; [apply Hp | apply pow2_le; lia].
        - intros Hn. apply Z.div_le_lower_bound; [lia|].
          rewrite <- Z.pow_add_r by lia.
          eapply Z.le_trans; [apply pow2_le | apply Hp]. lia.
        - intros Hn. apply Z.div_lt_upper_bound; [lia|].
          rewrite <- Z.pow_add_r by lia.
          eapply Z.lt_le_trans; [apply Hp | apply pow2_le; lia]. }
      destruct Hq as (Hq1 & Hq2 & Hq3).
      pose proof (log2_pos_bounds m1) as Hm.
      pose proof (Z.log2_nonneg (Zpos m1)) as Hl1.
      destruct (Z.eq_dec (Zpos m1) (2 ^ 53)) as [Ecarry|Ncarry].
      * (* the carry reaches a 54th digit *)
        assert (Hd : Z.log2 (Zpos m1) = 53)
          by (rewrite Ecarry; apply Z.log2_pow2; lia).
        assert (Hnorm : g = l + 1 + e - 53).
        { destruct (Z.eq_dec g (l + 1 + e - 53)); [assumption|].
          specialize (Hq3 n). change (2 ^ 53) with (2 * 2 ^ 52) in Ecarry.
          lia. }
        rewrite shr_fexp_shift
          by (rewrite Zdigits2_log2, Hd, fexp64_eq; lia).
        rewrite Zdigits2_log2, Hd.
        replace (fexp64 (53 + 1 + g)) with (g + 1) by (rewrite fexp64_eq; lia).
        replace (g + 1 - g) with 1 by lia.
        rewrite Ecarry. cbn [shr_of shr_m fst snd].
        change (2 ^ 53 / 2 ^ 1) with (Zpos (2 ^ 52)).
        cbv iota beta.
        destruct (Z.leb_spec (g + 1) (emax - prec)) as [Hle|Hgt];
          change (emax - prec) with 971 in *.
        -- split; [reflexivity|]. split; [lia|]. split.
           { change (Zpos (2 ^ 52)) with (2 ^ 52).
             change (2 ^ 53) with (2 ^ 52 * 2 ^ 1).
             rewrite <- Z.mul_assoc, <- !Z.pow_add_r by lia.
             do 2 f_equal. lia. }
           split.
           { rewrite <- Z.pow_add_r by lia. apply pow2_lt. lia. }
           apply bounded_intro; [|lia].
           change (Z.log2 (Zpos (2 ^ 52))) with 52.
           rewrite fexp64_eq. lia.
        -- split; [reflexivity|].
           rewrite <- Z.pow_add_r by lia. apply pow2_le. lia.
      * assert (Hm53 : Zpos m1 < 2 ^ 53).
        { destruct (Z.eq_dec g (l + 1 + e - 53)) as [Hn|Hn].
          - lia.
          - specialize (Hq3 Hn). change (2 ^ 53) with (2 * 2 ^ 52). lia. }
        assert (Hd : Z.log2 (Zpos m1) < 53).
        { apply Z.log2_lt_pow2; lia. }
        assert (Hcanon : fexp64 (Z.log2 (Zpos m1) + 1 + g) = g).
        { rewrite fexp64_eq.
          destruct (Z.eq_dec g (l + 1 + e - 53)) as [Hn|Hn].
          - assert (52 <= Z.log2 (Zpos m1))
              by (apply Z.log2_le_pow2; lia). lia.
          - lia. }
        rewrite shr_fexp_noshift by (rewrite Zdigits2_log2; lia).
        cbn [shr_m]. cbv iota beta.
        destruct (Z.leb_spec g (emax - prec)) as [Hle|Hgt];
          change (emax - prec) with 971 in *.
        -- split; [reflexivity|]. split; [lia|]. split; [reflexivity|].
           split.
           { eapply Z.lt_le_trans with (2 ^ 53 * 2 ^ (g - E0)); [nia|].
             rewrite <- Z.pow_add_r by lia. apply pow2_le. lia. }
           apply bounded_intro; assumption.
        -- split; [reflexivity|].
           assert (Hn : g = l + 1 + e - 53) by lia.
           specialize (Hq2 Hn).
           eapply Z.le_trans with (2 ^ 52 * 2 ^ (g - E0)); [|nia].
           rewrite <- Z.pow_add_r by lia. apply pow2_le. lia.
  - (* nothing is shifted out *)
    rewrite shr_fexp_noshift by (rewrite Zdigits2_log2; fold l g; lia).
    cbn [shr_m loc_of_shr_record round_nearest_even].
    rewrite shr_fexp_noshift by (rewrite Zdigits2_log2; fold l g; lia).
    cbn [shr_m]. 
    assert (E : g = e) by lia.
    assert (Hval : rne (Zpos p * 2 ^ (e - E0)) (g - E0) * 2 ^ (g - E0)
                   = Zpos p * 2 ^ (e - E0)).
    { rewrite E, rne_exact by lia. reflexivity. }
    rewrite Hval.
    assert (HX := pow2_pos (e - E0) ltac:(lia)).
    destruct (Z.leb_spec e (emax - prec)) as [Hle|Hgt];
      change (emax - prec) with 971 in *.
    + assert (Hl53 : l < 53) by lia.
      split; [reflexivity|]. split; [lia|]. split; [reflexivity|]. split.
      { eapply Z.lt_le_trans with (2 ^ 53 * 2 ^ (e - E0)).
        - assert (Zpos p < 2 ^ 53)
            by (eapply Z.lt_le_trans; [apply Hp | apply pow2_le; lia]). nia.
        - rewrite <- Z.pow_add_r by lia. apply pow2_le. lia. }
      apply bounded_intro; [fold l g|]; assumption.
    + split; [reflexivity|].
      assert (Hl52 : l = 52) by lia.
      eapply Z.le_trans with (2 ^ 52 * 2 ^ (e - E0)).
      * rewrite <- Z.pow_add_r by lia. apply pow2_le. lia.
      * rewrite Hl52 in Hp. nia.
Qed.

End RoundAux.

Section Units.

Local Open Scope Z_scope.

Lemma cap_pos : 0 < cap.
Proof. apply pow2_pos. lia. Qed.

Lemma bounded_inv m e :
  bounded prec emax m e = true ->
  -1074 <= e <= 971 /\ Zpos m < 2 ^ 53 /\ (-1074 < e -> 2 ^ 52 <= Zpos m)
  /\ fexp64 (Z.log2 (Zpos m) + 1 + e) = e.
Proof.
  unfold bounded, canonical_mantissa. intros H.
  apply andb_prop in H as [H1 H2].
  apply Z.eqb_eq in H1. apply Z.leb_le in H2.
  change (Zpos (digits2_pos m)) with (Zdigits2 (Zpos m)) in H1.
  rewrite Zdigits2_log2 in H1. change (emax - prec) with 971 in H2.
  pose proof (log2_pos_bounds m) as Hm.
  pose proof (Z.log2_nonneg (Zpos m)) as Hl.
  pose proof H1 as H1'. rewrite fexp64_eq in H1'.
  repeat split; try lia; try assumption.
  - eapply Z.lt_le_trans; [apply Hm | apply pow2_le; lia].
  - intros He. eapply Z.le_trans; [apply pow2_le | apply Hm]. lia.
Qed.

Lemma finite_units_bounds m e :
  bounded prec emax m e = true ->
  0 < Zpos m * 2 ^ (e + 1074) < cap.
Proof.
  intros H. apply bounded_inv in H as (He & Hm & _ & _).
  assert (HX := pow2_pos (e + 1074) ltac:(lia)).
  split; [lia|]. unfold cap.
  eapply Z.lt_le_trans with (2 ^ 53 * 2 ^ (e + 1074)); [nia|].
  rewrite <- Z.pow_add_r by lia. apply pow2_le. lia.
Qed.

Lemma magnitude_compare m1 e1 m2 e2 :
  bounded prec emax m1 e1 = true -> bounded prec emax m2 e2 = true ->
  match e1 ?= e2 with
  | Lt => Lt
  | Gt => Gt
  | Eq => Pos.compare_cont Eq m1 m2
  end = (Zpos m1 * 2 ^ (e1 + 1074) ?= Zpos m2 * 2 ^ (e2 + 1074)).
Proof.
  intros H1 H2.
  apply bounded_inv in H1 as (He1 & Hm1 & Hn1 & _).
  apply bounded_inv in H2 as (He2 & Hm2 & Hn2 & _).
  assert (HX1 := pow2_pos (e1 + 1074) ltac:(lia)).
  assert (HX2 := pow2_pos (e2 + 1074) ltac:(lia)).
  destruct (Z.compare_spec e1 e2) as [E|L|G].
  - subst e2. change (Pos.compare_cont Eq m1 m2) with (Zpos m1 ?= Zpos m2).
    apply Zmult_compare_compat_r. lia.
  - symmetry. apply Z.compare_lt_iff.
    specialize (Hn2 ltac:(lia)).
    eapply Z.lt_le_trans with (2 ^ 53 * 2 ^ (e1 + 1074)); [nia|].
    eapply Z.le_trans with (2 ^ 52 * 2 ^ (e2 + 1074)); [|nia].
    rewrite <- !Z.pow_add_r by lia. apply pow2_le. lia.
  - symmetry. apply Z.compare_gt_iff.
    specialize (Hn1 ltac:(lia)).
    eapply Z.lt_le_trans with (2 ^ 53 * 2 ^ (e2 + 1074)); [nia|].
    eapply Z.le_trans with (2 ^ 52 * 2 ^ (e1 + 1074)); [|nia].
    rewrite <- !Z.pow_add_r by lia. apply pow2_le. lia.
Qed.

Lemma SFcompare_units x y :
  valid_binary x = true -> valid_binary y = true ->
  x <> S754_nan -> y <> S754_nan ->
  SFcompare x y = Some (units x ?= units y).
Proof.
  intros Vx Vy Nx Ny. pose proof cap_pos as Hc.
  destruct x as [s1|s1| |s1 m1 e1]; [| |congruence|];
    (destruct y as [s2|s2| |s2 m2 e2]; [| |congruence|]);
    cbn [valid_binary] in Vx, Vy;
    try (pose proof (finite_units_bounds _ _ Vx) as B1);
    try (pose proof (finite_units_bounds _ _ Vy) as B2);
    cbn [SFcompare units]; f_equal;
    try (destruct s1); try (destruct s2); cbn [cond_Zopp];
    try (symmetry;
         first [apply Z.compare_eq_iff; lia | apply Z.compare_lt_iff; lia
               | apply Z.compare_gt_iff; lia]).
  - rewrite Z.compare_opp, <- (magnitude_compare m2 e2 m1 e1) by assumption.
    rewrite (Z.compare_antisym e1 e2).
    destruct (e1 ?= e2); cbn [CompOpp]; try reflexivity.
    now rewrite (Pos.compare_cont_antisym m1 m2 Eq).
  - now apply magnitude_compare.
Qed.

(** Prim level *)
Local Open Scope float_scope.

Lemma SFcompare_self x : x <> S754_nan -> SFcompare x x = Some Eq.
Proof.
  destruct x as [s|s| |s m e]; cbn; intros H; try congruence.
  - now destruct s.
  - destruct s; now rewrite Z.compare_refl, Pos.compare_cont_refl.
Qed.

Lemma is_nan_spec x :
  is_nan x = match Prim2SF x with S754_nan => true | _ => false end.
Proof.
  unfold is_nan. rewrite eqb_spec. unfold SFeqb.
  destruct (Prim2SF x) eqn:E; try reflexivity;
    rewrite SFcompare_self by discriminate; reflexivity.
Qed.

Lemma is_infinity_spec x :
  is_infinity x = match Prim2SF x with S754_infinity _ => true | _ => false end.
Proof.
  unfold is_infinity. rewrite eqb_spec, abs_spec.
  change (Prim2SF infinity) with (S754_infinity false).
  destruct (Prim2SF x) as [s|s| |s m e]; reflexivity.
Qed.

Lemma is_zero_spec x :
  is_zero x = match Prim2SF x with S754_zero _ => true | _ => false end.
Proof.
  unfold is_zero. rewrite eqb_spec.
  change (Prim2SF zero) with (S754_zero false).
  destruct (Prim2SF x) as [s|s| |s m e]; try reflexivity; now destruct s.
Qed.

Lemma is_finite_spec x :
  is_finite x = match Prim2SF x with
                | S754_zero _ | S754_finite _ _ _ => true
                | _ => false
                end.
Proof.
  unfold is_finite. rewrite is_nan_spec, is_infinity_spec.
  now destruct (Prim2SF x).
Qed.

Lemma get_sign_spec x :
  get_sign x = match Prim2SF x with
               | S754_zero s | S754_infinity s | S754_finite s _ _ => s
               | S754_nan => false
               end.
Proof.
  unfold get_sign. rewrite is_zero_spec.
  destruct (Prim2SF x) as [s|s| |s m e] eqn:E.
  - rewrite ltb_spec, div_spec, E.
    change (Prim2SF zero) with (S754_zero false).
    change (Prim2SF one) with (S754_finite false 4503599627370496 (-52)).
    now destruct s.
  - rewrite ltb_spec, E. now destruct s.
  - rewrite ltb_spec, E. reflexivity.
  - rewrite ltb_spec, E. now destruct s.
Qed.

Lemma not_nan_SF x : is_nan x = false -> Prim2SF x <> S754_nan.
Proof. rewrite is_nan_spec. now destruct (Prim2SF x). Qed.

Lemma compare_units x y :
  is_nan x = false -> is_nan y = false ->
  SFcompare (Prim2SF x) (Prim2SF y) = Some (funits x ?= funits y)%Z.
Proof.
  intros Hx Hy. apply SFcompare_units; auto using Prim2SF_valid, not_nan_SF.
Qed.

Lemma leb_units x y :
  is_nan x = false -> is_nan y = false ->
  (x <=? y) = (funits x <=? funits y)%Z.
Proof.
  intros Hx Hy. rewrite leb_spec. unfold SFleb.
  rewrite compare_units by assumption. unfold Z.leb.
  now destruct (funits x ?= funits y)%Z.
Qed.

Lemma ltb_units x y :
  is_nan x = false -> is_nan y = false ->
  (x <? y) = (funits x <? funits y)%Z.
Proof.
  intros Hx Hy. rewrite ltb_spec. unfold SFltb.
  rewrite compare_units by assumption. unfold Z.ltb.
  now destruct (funits x ?= funits y)%Z.
Qed.

Lemma leb_true_not_nan x y :
  (x <=? y) = true -> is_nan x = false /\ is_nan y = false.
Proof.
  rewrite leb_spec, !is_nan_spec. unfold SFleb.
  destruct (Prim2SF x), (Prim2SF y); cbn; auto; discriminate.
Qed.

Lemma ltb_true_not_nan x y :
  (x <? y) = true -> is_nan x = false /\ is_nan y = false.
Proof.
  rewrite ltb_spec, !is_nan_spec. unfold SFltb.
  destruct (Prim2SF x), (Prim2SF y); cbn; auto; discriminate.
Qed.

End Units.

Section RoundTo.

Local Open Scope Z_scope.

Lemma round_result_units s p e E0 r :
  E0 <= e -> E0 <= -1074 ->
  round_result s (rounded (Zpos p) e E0) E0 r ->
  r <> S754_nan /\ valid_binary r = true /\ sign_of r = s
  /\ units r
     = cond_Zopp s (Z.min (round_up_to (-1074 - E0) (Zpos p * 2 ^ (e - E0))) cap).
Proof.
  intros HE0 HE1.
  assert (HR : rounded (Zpos p) e E0
               = round_up_to (-1074 - E0) (Zpos p * 2 ^ (e - E0))
                 * 2 ^ (-1074 - E0)).
  { unfold rounded, round_up_to, grid.
    rewrite Z.log2_mul_pow2 by lia. rewrite fexp64_eq.
    replace (Z.max (e - E0 + Z.log2 (Zpos p) - 52) (-1074 - E0))
      with (Z.max (Z.log2 (Zpos p) + 1 + e - 53) (-1074) - E0) by lia.
    set (g := Z.max (Z.log2 (Zpos p) + 1 + e - 53) (-1074)).
    rewrite <- Z.mul_assoc, <- Z.pow_add_r by lia.
    do 2 f_equal. lia. }
  rewrite HR. clear HR.
  set (U := round_up_to (-1074 - E0) (Zpos p * 2 ^ (e - E0))).
  assert (HB := pow2_pos (-1074 - E0) ltac:(lia)).
  assert (Hcap : 2 ^ (1024 - E0) = cap * 2 ^ (-1074 - E0)).
  { unfold cap. rewrite <- Z.pow_add_r by lia. f_equal. lia. }
  destruct r as [s'|s'| |s' m' e'];
    cbn [round_result units sign_of valid_binary]; rewrite ?Hcap.
  - intros [-> H0]. repeat split; try discriminate.
    assert (HU : U = 0) by nia. rewrite HU. pose proof cap_pos.
    rewrite Z.min_l by lia. now destruct s.
  - intros [-> H0]. repeat split; try discriminate.
    rewrite Z.min_r by nia. reflexivity.
  - intros [].
  - intros (-> & He & Hv & Hlt & Hbd). repeat split; try discriminate; auto.
    assert (HU : Zpos m' * 2 ^ (e' + 1074) = U).
    { apply bounded_inv in Hbd as (Hb1 & _).
      replace (e' - E0) with (e' + 1074 + (-1074 - E0)) in Hv by lia.
      rewrite Z.pow_add_r, Z.mul_assoc in Hv by lia. nia. }
    rewrite HU, Z.min_l by nia. reflexivity.
Qed.

(** The sign and the kind of what [binary_round_aux] returns, whatever the
    location. *)
Lemma iter_shr_1_nonneg n : forall mrs,
  0 <= shr_m mrs -> 0 <= shr_m (iter_pos shr_1 n mrs).
Proof.
  assert (H1 : forall mrs, 0 <= shr_m mrs -> 0 <= shr_m (shr_1 mrs)).
  { intros [m r s]. cbn [shr_m]. intros Hm.
    rewrite shr_1_nonneg by assumption. cbn [shr_m].
    apply Z.div_pos; lia. }
  induction n as [n IH|n IH|]; intros mrs Hm; cbn [iter_pos]; auto.
Qed.

Lemma shr_fexp_nonneg m e l :
  0 <= m -> 0 <= shr_m (fst (shr_fexp prec emax m e l)).
Proof.
  intros Hm. unfold shr_fexp, shr.
  assert (H0 : 0 <= shr_m (shr_record_of_loc m l))
    by (destruct l as [|[]]; exact Hm).
  destruct (fexp64 (Zdigits2 m + e) - e); cbn [fst]; auto.
  now apply iter_shr_1_nonneg.
Qed.

Lemma binary_round_aux_sign s m e l :
  0 <= m ->
  binary_round_aux prec emax s m e l <> S754_nan
  /\ sign_of (binary_round_aux prec emax s m e l) = s.
Proof.
  intros Hm. unfold binary_round_aux.
  pose proof (shr_fexp_nonneg m e l Hm) as H1.
  destruct (shr_fexp prec emax m e l) as [mrs' e'] eqn:E1. cbn [fst] in H1.
  assert (H2 : 0 <= round_nearest_even (shr_m mrs') (loc_of_shr_record mrs')).
  { unfold round_nearest_even.
    destruct (loc_of_shr_record mrs') as [|[]]; try lia.
    destruct (Z.even (shr_m mrs')); lia. }
  pose proof (shr_fexp_nonneg _ e' loc_Exact H2) as H3.
  destruct (shr_fexp prec emax _ e' loc_Exact) as [mrs'' e''].
  cbn [fst] in H3.
  destruct (shr_m mrs'') as [|q|q]; [| |lia].
  - split; [discriminate | reflexivity].
  - destruct (e'' <=? emax - prec); split; try discriminate; reflexivity.
Qed.

(** Monotonicity *)
Lemma grid_ge base N : base <= grid base N.
Proof. unfold grid. lia. Qed.

Lemma round_up_to_pow2 base N L :
  0 <= base -> grid base N <= L ->
  rne (2 ^ L) (grid base N) * 2 ^ (grid base N - base) = 2 ^ (L - base).
Proof.
  intros Hb HL. pose proof (grid_ge base N).
  rewrite (pow2_split (grid base N) L) by lia.
  rewrite rne_exact by lia.
  rewrite <- Z.pow_add_r by lia. f_equal. lia.
Qed.

Lemma round_up_to_mono base N N' :
  0 <= base -> 0 <= N <= N' ->
  round_up_to base N <= round_up_to base N'.
Proof.
  intros Hb HN. unfold round_up_to.
  pose proof (grid_ge base N) as HG. pose proof (grid_ge base N') as HG'.
  assert (Hl : Z.log2 N <= Z.log2 N') by (apply Z.log2_le_mono; lia).
  assert (HGG : grid base N <= grid base N') by (unfold grid; lia).
  destruct (Z.eq_dec (grid base N) (grid base N')) as [E|NE].
  - rewrite <- E. apply Z.mul_le_mono_nonneg_r.
    + apply Z.lt_le_incl, pow2_pos. lia.
    + apply rne_mono; lia.
  - assert (Hlt : grid base N < grid base N') by lia.
    assert (HG'e : grid base N' = Z.log2 N' - 52) by (unfold grid in *; lia).
    assert (Hll : Z.log2 N < Z.log2 N') by (unfold grid in *; lia).
    assert (HN' : 0 < N').
    { destruct (Z.eq_dec N' 0) as [->|]; [|lia]. cbn in Hll.
      pose proof (Z.log2_nonneg N). lia. }
    set (L := Z.log2 N') in *.
    assert (HB : 2 ^ L <= N') by (apply Z.log2_spec; lia).
    assert (HNB : N <= 2 ^ L).
    { destruct (Z.eq_dec N 0) as [->|]; [apply Z.lt_le_incl, pow2_pos; lia|].
      apply Z.lt_le_incl.
      eapply Z.lt_le_trans with (2 ^ (Z.succ (Z.log2 N)));
        [apply Z.log2_spec; lia | apply pow2_le].
      pose proof (Z.log2_nonneg N). lia. }
    eapply Z.le_trans with (2 ^ (L - base)).
    + rewrite <- (round_up_to_pow2 base N L) by lia.
      apply Z.mul_le_mono_nonneg_r.
      * apply Z.lt_le_incl, pow2_pos. lia.
      * apply rne_mono; lia.
    + rewrite <- (round_up_to_pow2 base N' L) by lia.
      apply Z.mul_le_mono_nonneg_r.
      * apply Z.lt_le_incl, pow2_pos. lia.
      * apply rne_mono; lia.
Qed.

Lemma round_up_to_0 base : 0 <= base -> round_up_to base 0 = 0.
Proof.
  intros Hb. unfold round_up_to, rne.
  pose proof (grid_ge base 0) as HG.
  assert (H2 := pow2_pos (grid base 0) ltac:(lia)).
  rewrite Z.div_0_l, Z.mod_0_l by lia.
  destruct (Z.ltb_spec (2 * 0) (2 ^ grid base 0)); lia.
Qed.

Lemma round_up_to_nonneg base N :
  0 <= base -> 0 <= N -> 0 <= round_up_to base N.
Proof.
  intros Hb HN. rewrite <- (round_up_to_0 base Hb).
  apply round_up_to_mono; lia.
Qed.

Lemma round_to_mono base N N' :
  0 <= base -> N <= N' -> round_to base N <= round_to base N'.
Proof.
  intros Hb HN. unfold round_to. pose proof cap_pos as Hc.
  pose proof (round_up_to_nonneg base (Z.abs N) Hb (Z.abs_nonneg N)).
  pose proof (round_up_to_nonneg base (Z.abs N') Hb (Z.abs_nonneg N')).
  destruct (Z.sgn_spec N) as [[HN0 ->]|[[HN0 ->]|[HN0 ->]]];
    destruct (Z.sgn_spec N') as [[HN0' ->]|[[HN0' ->]|[HN0' ->]]];
    try lia.
  - pose proof (round_up_to_mono base (Z.abs N) (Z.abs N') Hb ltac:(lia)).
    lia.
  - pose proof (round_up_to_mono base (Z.abs N') (Z.abs N) Hb ltac:(lia)).
    lia.
Qed.

End RoundTo.

Section Arithmetic.

Local Open Scope Z_scope.

Lemma round_to_signed base s V :
  0 < V ->
  round_to base (cond_Zopp s V) = cond_Zopp s (Z.min (round_up_to base V) cap).
Proof.
  intros HV. unfold round_to.
  destruct s; cbn [cond_Zopp].
  - rewrite Z.sgn_neg, Z.abs_opp, Z.abs_eq by lia. lia.
  - rewrite Z.sgn_pos, Z.abs_eq by lia. lia.
Qed.

Lemma round_to_0 base : round_to base 0 = 0.
Proof. reflexivity. Qed.

Lemma round_up_to_exact m e :
  bounded prec emax m e = true ->
  round_up_to 0 (Zpos m * 2 ^ (e + 1074)) = Zpos m * 2 ^ (e + 1074).
Proof.
  intros H. apply bounded_inv in H as (He & Hm & Hn & Hc).
  unfold round_up_to, grid. rewrite Z.log2_mul_pow2 by lia.
  rewrite fexp64_eq in Hc.
  replace (Z.max (e + 1074 + Z.log2 (Zpos m) - 52) 0) with (e + 1074) by lia.
  rewrite rne_exact by lia. f_equal. f_equal. lia.
Qed.

Lemma round_to_exact x :
  valid_binary x = true -> fin x -> round_to 0 (units x) = units x.
Proof.
  destruct x as [s|s| |s m e]; cbn [fin units valid_binary]; try tauto.
  intros Hb _. pose proof (finite_units_bounds m e Hb) as HB.
  rewrite round_to_signed by lia.
  rewrite round_up_to_exact by assumption. f_equal. lia.
Qed.

Lemma round_up_to_pos V : 0 < V -> 0 < round_up_to 0 V.
Proof.
  intros HV. unfold round_up_to.
  pose proof (grid_ge 0 V) as HG.
  assert (HL : grid 0 V <= Z.log2 V)
    by (unfold grid; pose proof (Z.log2_nonneg V); lia).
  assert (H2 := pow2_pos (grid 0 V) ltac:(lia)).
  assert (H3 := pow2_pos (grid 0 V - 0) ltac:(lia)).
  pose proof (rne_bounds V (grid 0 V) ltac:(lia)) as Hr.
  assert (1 <= V / 2 ^ grid 0 V).
  { apply Z.div_le_lower_bound; [lia|]. rewrite Z.mul_1_r.
    eapply Z.le_trans; [apply pow2_le | apply Z.log2_spec; lia]. lia. }
  nia.
Qed.

Lemma round_to_0_eq N : round_to 0 N = 0 -> N = 0.
Proof.
  unfold round_to. intros H. pose proof cap_pos.
  destruct (Z.eq_dec N 0) as [|NE]; [assumption|exfalso].
  pose proof (round_up_to_pos (Z.abs N) ltac:(lia)).
  destruct (Z.sgn_spec N) as [[? E]|[[? E]|[? E]]]; rewrite E in H; lia.
Qed.

(** Multiplication *)
Lemma cond_Zopp_mul s1 s2 a b :
  cond_Zopp s1 a * cond_Zopp s2 b = cond_Zopp (xorb s1 s2) (a * b).
Proof. destruct s1, s2; cbn; lia. Qed.

Lemma SFmul_units x y :
  valid_binary x = true -> valid_binary y = true -> fin x -> fin y ->
  SFmul prec emax x y <> S754_nan
  /\ valid_binary (SFmul prec emax x y) = true
  /\ sign_of (SFmul prec emax x y) = xorb (sign_of x) (sign_of y)
  /\ units (SFmul prec emax x y) = round_to 1074 (units x * units y).
Proof.
  destruct x as [sx|sx| |sx mx ex]; cbn [fin]; try tauto;
    (destruct y as [sy|sy| |sy my ey]; cbn [fin]; try tauto);
    intros Vx Vy _ _; cbn [SFmul units sign_of valid_binary];
    rewrite ?Z.mul_0_l, ?Z.mul_0_r, ?round_to_0;
    try (repeat split; try discriminate; reflexivity).
  cbn [valid_binary] in Vx, Vy.
  pose proof (bounded_inv _ _ Vx) as (Hex & Hmx & Hnx & _).
  pose proof (bounded_inv _ _ Vy) as (Hey & Hmy & Hny & _).
  pose proof (Z.log2_nonneg (Zpos mx)). pose proof (Z.log2_nonneg (Zpos my)).
  pose proof (Z.log2_mul_below (Zpos mx) (Zpos my) ltac:(lia) ltac:(lia)) as Hl.
  assert (Hlx : -1074 < ex -> 52 <= Z.log2 (Zpos mx))
    by (intros; apply Z.log2_le_pow2; auto; lia).
  assert (Hly : -1074 < ey -> 52 <= Z.log2 (Zpos my))
    by (intros; apply Z.log2_le_pow2; auto; lia).
  pose proof (binary_round_aux_spec (xorb sx sy) (mx * my) (ex + ey) (-2148)
                ltac:(lia) ltac:(lia)) as HA.
  specialize (HA ltac:(rewrite Pos2Z.inj_mul, fexp64_eq; lia)).
  apply round_result_units in HA as (Hn & Hv & Hs & Hu); try lia.
  repeat split; auto.
  rewrite Hu, cond_Zopp_mul, Pos2Z.inj_mul.
  assert (HX := pow2_pos (ex + 1074) ltac:(lia)).
  assert (HY := pow2_pos (ey + 1074) ltac:(lia)).
  rewrite round_to_signed by nia.
  do 3 f_equal.
  replace (ex + ey - -2148) with ((ex + 1074) + (ey + 1074)) by lia.
  rewrite Z.pow_add_r by lia. ring.
Qed.

(** Addition *)
Lemma shl_align_fst m e e' :
  e' <= e ->
  Zpos (fst (shl_align m e e')) = Zpos m * 2 ^ (e - e')
  /\ snd (shl_align m e e') = e'.
Proof.
  intros H. unfold shl_align.
  destruct (e' - e) as [|d|d] eqn:E; cbn [fst snd]; try lia.
  - replace (e - e') with 0 by lia. split; lia.
  - fold (shift_pos d m). rewrite shift_pos_correct, Zpower_pos_nat.
    rewrite Zpower_nat_Z, positive_nat_Z.
    replace (e - e') with (Zpos d) by lia. split; lia.
Qed.

Lemma binary_round_units s m e :
  -1074 <= e ->
  binary_round prec emax s m e <> S754_nan
  /\ valid_binary (binary_round prec emax s m e) = true
  /\ sign_of (binary_round prec emax s m e) = s
  /\ units (binary_round prec emax s m e)
     = cond_Zopp s (Z.min (round_up_to 0 (Zpos m * 2 ^ (e + 1074))) cap).
Proof.
  intros He. unfold binary_round.
  change (Zpos (digits2_pos m)) with (Zdigits2 (Zpos m)).
  rewrite Zdigits2_log2.
  set (g := fexp64 (Z.log2 (Zpos m) + 1 + e)).
  assert (Hg : g = Z.max (Z.log2 (Zpos m) + 1 + e - 53) (-1074))
    by apply fexp64_eq.
  pose proof (Z.log2_nonneg (Zpos m)) as Hl.
  destruct (Z_lt_le_dec g e) as [Hlt|Hge].
  - destruct (shl_align_fst m e g ltac:(lia)) as [H1 H2].
    destruct (shl_align m e g) as [mz ez]. cbn [fst snd] in H1, H2. subst ez.
    assert (Hlz : Z.log2 (Zpos mz) = Z.log2 (Zpos m) + (e - g))
      by (rewrite H1, Z.log2_mul_pow2; lia).
    pose proof (binary_round_aux_spec s mz g (-1074) ltac:(lia) ltac:(lia))
      as HA.
    specialize (HA ltac:(rewrite fexp64_eq; lia)).
    apply round_result_units in HA as (Hn & Hv & Hs & Hu); try lia.
    split; [exact Hn | split; [exact Hv | split; [exact Hs |]]].
    rewrite Hu. do 3 f_equal.
    rewrite H1, <- Z.mul_assoc, <- Z.pow_add_r by lia. do 2 f_equal. lia.
  - assert (Hsa : shl_align m e g = (m, e)).
    { unfold shl_align. destruct (g - e) eqn:E; try reflexivity. lia. }
    rewrite Hsa.
    pose proof (binary_round_aux_spec s m e (-1074) ltac:(lia) ltac:(lia))
      as HA.
    specialize (HA ltac:(fold g; lia)).
    apply round_result_units in HA as (Hn & Hv & Hs & Hu); try lia.
    split; [exact Hn | split; [exact Hv | split; [exact Hs |]]].
    rewrite Hu. replace (e - -1074) with (e + 1074) by lia. reflexivity.
Qed.

Lemma binary_normalize_units z e :
  -1074 <= e ->
  binary_normalize prec emax z e false <> S754_nan
  /\ valid_binary (binary_normalize prec emax z e false) = true
  /\ sign_of (binary_normalize prec emax z e false) = (z <? 0)
  /\ units (binary_normalize prec emax z e false)
     = round_to 0 (z * 2 ^ (e + 1074)).
Proof.
  intros He. assert (HX := pow2_pos (e + 1074) ltac:(lia)).
  destruct z as [|m|m]; cbn [binary_normalize].
  - repeat split; discriminate.
  - destruct (binary_round_units false m e He) as (Hn & Hv & Hs & Hu).
    repeat split; auto. rewrite Hu.
    change (Zpos m * 2 ^ (e + 1074))
      with (cond_Zopp false (Zpos m * 2 ^ (e + 1074))) at 2.
    now rewrite round_to_signed by lia.
  - destruct (binary_round_units true m e He) as (Hn & Hv & Hs & Hu).
    repeat split; auto. rewrite Hu.
    replace (Zneg m * 2 ^ (e + 1074))
      with (cond_Zopp true (Zpos m * 2 ^ (e + 1074)))
      by (cbn [cond_Zopp]; rewrite <- Pos2Z.opp_pos; ring).
    now rewrite round_to_signed by lia.
Qed.

Lemma SFadd_units x y :
  valid_binary x = true -> valid_binary y = true -> fin x -> fin y ->
  SFadd prec emax x y <> S754_nan
  /\ valid_binary (SFadd prec emax x y) = true
  /\ units (SFadd prec emax x y) = round_to 0 (units x + units y)
  /\ (units x <> 0 \/ units y <> 0 ->
      sign_of (SFadd prec emax x y) = (units x + units y <? 0)).
Proof.
  destruct x as [sx|sx| |sx mx ex] eqn:Ex; cbn [fin]; try tauto;
    (destruct y as [sy|sy| |sy my ey] eqn:Ey; cbn [fin]; try tauto);
    intros Vx Vy _ _.
  - cbn [units]. rewrite round_to_0.
    destruct sx, sy; cbn; repeat split; try discriminate; lia.
  - cbn [SFadd]. rewrite Z.add_0_l.
    rewrite (round_to_exact (S754_finite sy my ey)) by (cbn; auto).
    repeat split; try discriminate; auto.
    intros _. cbn [units sign_of valid_binary] in *.
    pose proof (finite_units_bounds _ _ Vy).
    destruct sy; cbn [cond_Zopp]; symmetry;
      [apply Z.ltb_lt | apply Z.ltb_ge]; lia.
  - cbn [SFadd]. rewrite Z.add_0_r.
    rewrite (round_to_exact (S754_finite sx mx ex)) by (cbn; auto).
    repeat split; try discriminate; auto.
    intros _. cbn [units sign_of valid_binary] in *.
    pose proof (finite_units_bounds _ _ Vx).
    destruct sx; cbn [cond_Zopp]; symmetry;
      [apply Z.ltb_lt | apply Z.ltb_ge]; lia.
  - cbn [SFadd]. cbn [valid_binary] in Vx, Vy.
    pose proof (bounded_inv _ _ Vx) as (Hex & _).
    pose proof (bounded_inv _ _ Vy) as (Hey & _).
    set (ez := Z.min ex ey).
    destruct (shl_align_fst mx ex ez ltac:(lia)) as [H1 _].
    destruct (shl_align_fst my ey ez ltac:(lia)) as [H2 _].
    rewrite H1, H2.
    set (z := cond_Zopp sx (Zpos mx * 2 ^ (ex - ez))
              + cond_Zopp sy (Zpos my * 2 ^ (ey - ez))).
    destruct (binary_normalize_units z ez ltac:(lia)) as (Hn & Hv & Hs & Hu).
    assert (HX := pow2_pos (ez + 1074) ltac:(lia)).
    assert (Hz : z * 2 ^ (ez + 1074)
                 = units (S754_finite sx mx ex) + units (S754_finite sy my ey)).
    { unfold z. cbn [units].
      rewrite (pow2_split (ez + 1074) (ex + 1074)) by lia.
      rewrite (pow2_split (ez + 1074) (ey + 1074)) by lia.
      replace (ex + 1074 - (ez + 1074)) with (ex - ez) by lia.
      replace (ey + 1074 - (ez + 1074)) with (ey - ez) by lia.
      destruct sx, sy; cbn [cond_Zopp]; ring. }
    repeat split; auto.
    + now rewrite Hu, Hz.
    + intros _. rewrite Hs, <- Hz.
      destruct (Z.ltb_spec z 0), (Z.ltb_spec (z * 2 ^ (ez + 1074)) 0);
        try reflexivity; nia.
Qed.

Lemma SFsub_add_opp x y :
  SFsub prec emax x y = SFadd prec emax x (SFopp y).
Proof.
  destruct x as [sx|sx| |sx mx ex], y as [sy|sy| |sy my ey];
    cbn [SFsub SFadd SFopp]; try reflexivity;
    destruct sx, sy; reflexivity.
Qed.

Lemma units_opp x : units (SFopp x) = - units x.
Proof.
  destruct x as [s|s| |s m e]; cbn [SFopp units]; try reflexivity;
    destruct s; cbn; lia.
Qed.

Lemma units_abs x : units (SFabs x) = Z.abs (units x).
Proof.
  pose proof cap_pos.
  destruct x as [s|s| |s m e]; cbn [SFabs units]; try reflexivity.
  - destruct s; cbn [cond_Zopp]; lia.
  - destruct s; cbn [cond_Zopp]; lia.
Qed.

End Arithmetic.

Section Primitive.

Local Open Scope Z_scope.

Lemma round_up_to_exact_at base m e :
  0 <= base -> bounded prec emax m e = true ->
  round_up_to base (Zpos m * 2 ^ (e + 1074) * 2 ^ base)
  = Zpos m * 2 ^ (e + 1074).
Proof.
  intros Hb H. apply bounded_inv in H as (He & Hm & Hn & Hc).
  unfold round_up_to, grid.
  rewrite <- Z.mul_assoc, <- Z.pow_add_r by lia.
  rewrite Z.log2_mul_pow2 by lia.
  rewrite fexp64_eq in Hc.
  replace (Z.max (e + 1074 + base + Z.log2 (Zpos m) - 52) base)
    with (e + 1074 + base) by lia.
  rewrite rne_exact by lia. f_equal. f_equal. lia.
Qed.

Local Open Scope float_scope.

Lemma fin_of_is_finite x : is_finite x = true -> fin (Prim2SF x).
Proof. rewrite is_finite_spec. now destruct (Prim2SF x). Qed.

Lemma is_finite_not_nan x : is_finite x = true -> is_nan x = false.
Proof. rewrite is_finite_spec, is_nan_spec. now destruct (Prim2SF x). Qed.

Lemma SF_not_nan x : Prim2SF x <> S754_nan -> is_nan x = false.
Proof. rewrite is_nan_spec. now destruct (Prim2SF x). Qed.

Lemma is_finite_units x :
  is_nan x = false -> is_finite x = (Z.abs (funits x) <? cap)%Z.
Proof.
  rewrite is_nan_spec, is_finite_spec. unfold funits.
  pose proof (Prim2SF_valid x) as V. pose proof cap_pos.
  destruct (Prim2SF x) as [s|s| |s m e]; cbn [units]; intros Hn;
    try discriminate; symmetry.
  - apply Z.ltb_lt. cbn. lia.
  - apply Z.ltb_ge. destruct s; cbn [cond_Zopp]; lia.
  - cbn [valid_binary] in V. pose proof (finite_units_bounds _ _ V).
    apply Z.ltb_lt. destruct s; cbn [cond_Zopp]; lia.
Qed.

Lemma funits_zero x : is_nan x = false -> funits x = 0%Z -> is_zero x = true.
Proof.
  rewrite is_nan_spec, is_zero_spec. unfold funits.
  pose proof (Prim2SF_valid x) as V. pose proof cap_pos.
  destruct (Prim2SF x) as [s|s| |s m e]; cbn [units]; intros Hn;
    try discriminate; try reflexivity.
  - destruct s; cbn [cond_Zopp]; lia.
  - cbn [valid_binary] in V. pose proof (finite_units_bounds _ _ V).
    destruct s; cbn [cond_Zopp]; lia.
Qed.

Lemma is_zero_funits x : is_zero x = true -> funits x = 0%Z.
Proof.
  rewrite is_zero_spec. unfold funits. now destruct (Prim2SF x).
Qed.

Lemma funits_opp x : funits (- x) = (- funits x)%Z.
Proof. unfold funits. rewrite opp_spec. apply units_opp. Qed.

Lemma funits_abs x : funits (abs x) = Z.abs (funits x).
Proof. unfold funits. rewrite abs_spec. apply units_abs. Qed.

Lemma is_nan_opp x : is_nan (- x) = is_nan x.
Proof. rewrite !is_nan_spec, opp_spec. now destruct (Prim2SF x). Qed.

Lemma is_infinity_opp x : is_infinity (- x) = is_infinity x.
Proof. rewrite !is_infinity_spec, opp_spec. now destruct (Prim2SF x). Qed.

Lemma is_zero_opp x : is_zero (- x) = is_zero x.
Proof. rewrite !is_zero_spec, opp_spec. now destruct (Prim2SF x). Qed.

Lemma is_finite_opp x : is_finite (- x) = is_finite x.
Proof. unfold is_finite. now rewrite is_nan_opp, is_infinity_opp. Qed.

Lemma get_sign_sign_of x : get_sign x = sign_of (Prim2SF x).
Proof. rewrite get_sign_spec. now destruct (Prim2SF x). Qed.

Lemma mul_units x y :
  is_finite x = true -> is_finite y = true ->
  is_nan (x * y) = false
  /\ get_sign (x * y) = xorb (get_sign x) (get_sign y)
  /\ funits (x * y) = round_to 1074 (funits x * funits y).
Proof.
  intros Hx Hy. unfold funits. rewrite !get_sign_sign_of, mul_spec.
  destruct (SFmul_units (Prim2SF x) (Prim2SF y))
    as (Hn & _ & Hs & Hu); auto using Prim2SF_valid, fin_of_is_finite.
  repeat split; auto. apply SF_not_nan. now rewrite mul_spec.
Qed.

Lemma add_units x y :
  is_finite x = true -> is_finite y = true ->
  is_nan (x + y) = false
  /\ funits (x + y) = round_to 0 (funits x + funits y)
  /\ (funits x <> 0%Z \/ funits y <> 0%Z ->
      get_sign (x + y) = (funits x + funits y <? 0)%Z).
Proof.
  intros Hx Hy. unfold funits. rewrite !get_sign_sign_of, add_spec.
  destruct (SFadd_units (Prim2SF x) (Prim2SF y))
    as (Hn & _ & Hu & Hs); auto using Prim2SF_valid, fin_of_is_finite.
  repeat split; auto. apply SF_not_nan. now rewrite add_spec.
Qed.

Lemma sub_add_opp x y : x - y = x + (- y).
Proof.
  apply Prim2SF_inj. rewrite sub_spec, add_spec, opp_spec.
  apply SFsub_add_opp.
Qed.

Lemma sub_units x y :
  is_finite x = true -> is_finite y = true ->
  is_nan (x - y) = false
  /\ funits (x - y) = round_to 0 (funits x - funits y)
  /\ (funits x <> 0%Z \/ funits y <> 0%Z ->
      get_sign (x - y) = (funits x - funits y <? 0)%Z).
Proof.
  intros Hx Hy. rewrite sub_add_opp.
  destruct (add_units x (- y)) as (Hn & Hu & Hs);
    [assumption | now rewrite is_finite_opp |].
  rewrite funits_opp in *. repeat split; auto.
  intros H. apply Hs. lia.
Qed.

(** The order on products *)
Lemma nonneg_units x : (0 <=? x) = true -> (0 <= funits x)%Z.
Proof.
  intros H. destruct (leb_true_not_nan _ _ H) as [H0 Hx].
  rewrite leb_units in H by assumption. apply Z.leb_le in H. exact H.
Qed.

Lemma le_units x y : (x <=? y) = true -> (funits x <= funits y)%Z.
Proof.
  intros H. destruct (leb_true_not_nan _ _ H) as [H0 Hx].
  rewrite leb_units in H by assumption. now apply Z.leb_le in H.
Qed.

Lemma lt_units x y : (x <? y) = true -> (funits x < funits y)%Z.
Proof.
  intros H. destruct (ltb_true_not_nan _ _ H) as [H0 Hx].
  rewrite ltb_units in H by assumption. now apply Z.ltb_lt in H.
Qed.

Lemma finite_between x lo hi :
  (lo <=? x) = true -> (x <=? hi) = true ->
  is_finite lo = true -> is_finite hi = true -> is_finite x = true.
Proof.
  intros H1 H2 Hlo Hhi.
  destruct (leb_true_not_nan _ _ H1) as [Nlo Nx].
  destruct (leb_true_not_nan _ _ H2) as [_ Nhi].
  apply le_units in H1, H2.
  rewrite is_finite_units in * by assumption.
  apply Z.ltb_lt in Hlo, Hhi. apply Z.ltb_lt. lia.
Qed.

Lemma mul_le_mono a a' b b' :
  (0 <=? a) = true -> (a <=? a') = true ->
  (0 <=? b) = true -> (b <=? b') = true ->
  is_finite a' = true -> is_finite b' = true ->
  (a * b <=? a' * b') = true.
Proof.
  intros Ha Haa Hb Hbb Fa Fb.
  assert (F0 : is_finite 0 = true) by reflexivity.
  assert (Fa0 : is_finite a = true) by (eapply finite_between; eauto).
  assert (Fb0 : is_finite b = true) by (eapply finite_between; eauto).
  destruct (mul_units a b Fa0 Fb0) as (N1 & _ & U1).
  destruct (mul_units a' b' Fa Fb) as (N2 & _ & U2).
  rewrite leb_units by assumption. apply Z.leb_le.
  rewrite U1, U2. apply round_to_mono; [lia|].
  apply nonneg_units in Ha, Hb. apply le_units in Haa, Hbb. nia.
Qed.

Lemma funits_one : funits 1 = (2 ^ 1074)%Z.
Proof.
  unfold funits. change (Prim2SF 1) with (S754_finite false 4503599627370496 (-52)).
  cbn [units cond_Zopp]. change 4503599627370496%Z with (2 ^ 52)%Z.
  rewrite <- Z.pow_add_r by lia. reflexivity.
Qed.

Lemma funits_minus_one : funits (-1) = (- 2 ^ 1074)%Z.
Proof. change (-1) with (opp 1). now rewrite funits_opp, funits_one. Qed.

Lemma in_unit_interval_units x :
  in_unit_interval x = true ->
  is_nan x = false /\ (Z.abs (funits x) <= 2 ^ 1074)%Z.
Proof.
  unfold in_unit_interval. intros H. apply andb_prop in H as [H1 H2].
  destruct (leb_true_not_nan _ _ H1) as [_ Nx].
  apply le_units in H1, H2. rewrite funits_minus_one in H1.
  rewrite funits_one in *. split; [assumption | lia].
Qed.

Lemma units_in_unit_interval x :
  is_nan x = false -> (Z.abs (funits x) <= 2 ^ 1074)%Z ->
  in_unit_interval x = true.
Proof.
  intros Nx H. unfold in_unit_interval.
  rewrite !leb_units by (assumption || reflexivity).
  rewrite funits_minus_one, funits_one.
  apply andb_true_intro. split; apply Z.leb_le; lia.
Qed.

Lemma in_unit_interval_finite x :
  in_unit_interval x = true -> is_finite x = true.
Proof.
  intros H. destruct (in_unit_interval_units x H) as [Nx Hx].
  rewrite is_finite_units by assumption. apply Z.ltb_lt.
  eapply Z.le_lt_trans; [exact Hx|]. unfold cap. apply pow2_lt. lia.
Qed.

Lemma round_to_odd base N : round_to base (- N) = (- round_to base N)%Z.
Proof.
  unfold round_to. rewrite Z.sgn_opp, Z.abs_opp. lia.
Qed.

Lemma round_to_abs base N :
  (0 <= base)%Z -> Z.abs (round_to base N) = round_to base (Z.abs N).
Proof.
  intros Hb. unfold round_to. pose proof cap_pos.
  pose proof (round_up_to_nonneg base (Z.abs N) Hb (Z.abs_nonneg N)).
  rewrite Z.abs_idemp.
  set (M := Z.min (round_up_to base (Z.abs N)) cap) in *.
  assert (HM : (0 <= M)%Z) by (unfold M; lia).
  destruct (Z.sgn_spec N) as [[? E]|[[? E]|[? E]]];
    destruct (Z.sgn_spec (Z.abs N)) as [[? E']|[[? E']|[? E']]];
    rewrite E, E'; lia.
Qed.

Lemma round_to_units_exact base x :
  (0 <= base)%Z -> is_finite x = true ->
  round_to base (funits x * 2 ^ base) = funits x.
Proof.
  intros Hb Hx. unfold funits. pose proof (Prim2SF_valid x) as V.
  apply fin_of_is_finite in Hx.
  destruct (Prim2SF x) as [s|s| |s m e]; cbn [fin units] in *; try tauto.
  cbn [valid_binary] in V. pose proof (finite_units_bounds _ _ V) as HB.
  assert (HX := pow2_pos base Hb).
  replace (cond_Zopp s (Zpos m * 2 ^ (e + 1074)) * 2 ^ base)%Z
    with (cond_Zopp s (Zpos m * 2 ^ (e + 1074) * 2 ^ base))
    by (destruct s; cbn [cond_Zopp]; ring).
  rewrite round_to_signed by nia.
  rewrite round_up_to_exact_at by assumption. f_equal. lia.
Qed.

(** A factor within [-1, 1] does not enlarge a float. *)
Lemma mul_unit_factor x k :
  is_finite x = true -> in_unit_interval k = true ->
  is_nan (x * k) = false
  /\ (Z.abs (funits (x * k)) <= Z.abs (funits x))%Z.
Proof.
  intros Hx Hk. pose proof (in_unit_interval_finite k Hk) as Fk.
  destruct (in_unit_interval_units k Hk) as [Nk Uk].
  destruct (mul_units x k Hx Fk) as (N & _ & U).
  split; [assumption|]. rewrite U, round_to_abs by lia.
  assert (Fa : is_finite (abs x) = true).
  { rewrite is_finite_units in *
      by (rewrite ?is_nan_spec, ?abs_spec in *;
          rewrite ?is_finite_spec in Hx;
          destruct (Prim2SF x); cbn in *; congruence).
    now rewrite funits_abs, Z.abs_idemp. }
  rewrite Z.abs_mul, <- (funits_abs x).
  assert (0 <= funits (abs x))%Z by (rewrite funits_abs; lia).
  apply Z.le_trans with (round_to 1074 (funits (abs x) * 2 ^ 1074)).
  - apply round_to_mono; [lia|]. apply Z.mul_le_mono_nonneg_l; lia.
  - rewrite round_to_units_exact by (lia || assumption). lia.
Qed.

Lemma mul_finite_unit_factor x k :
  is_finite x = true -> in_unit_interval k = true ->
  is_finite (x * k) = true.
Proof.
  intros Hx Hk. destruct (mul_unit_factor x k Hx Hk) as [N U].
  pose proof (is_finite_not_nan x Hx) as Nx.
  rewrite is_finite_units in * by assumption.
  apply Z.ltb_lt in Hx. apply Z.ltb_lt. lia.
Qed.

Lemma mul_in_unit_interval x y :
  in_unit_interval x = true -> in_unit_interval y = true ->
  in_unit_interval (x * y) = true.
Proof.
  intros Hx Hy. pose proof (in_unit_interval_finite x Hx) as Fx.
  destruct (mul_unit_factor x y Fx Hy) as [N U].
  destruct (in_unit_interval_units x Hx) as [_ Ux].
  apply units_in_unit_interval; [assumption | lia].
Qed.

End Primitive.

Section Symmetry.

Local Open Scope float_scope.

Lemma binary_round_aux_opp s m e l :
  binary_round_aux prec emax (negb s) m e l
  = SFopp (binary_round_aux prec emax s m e l).
Proof.
  unfold binary_round_aux.
  destruct (shr_fexp prec emax m e l) as [mrs' e'].
  destruct (shr_fexp prec emax _ e' loc_Exact) as [mrs'' e''].
  destruct (shr_m mrs''); try reflexivity.
  now destruct (e'' <=? emax - prec)%Z.
Qed.

Lemma binary_normalize_opp z e :
  z <> 0%Z ->
  binary_normalize prec emax (- z) e false
  = SFopp (binary_normalize prec emax z e false).
Proof.
  intros Hz. destruct z as [|p|p]; [congruence| |]; cbn [Z.opp binary_normalize];
    unfold binary_round;
    destruct (shl_align p e _) as [mz ez].
  - apply (binary_round_aux_opp false).
  - rewrite <- (binary_round_aux_opp true). reflexivity.
Qed.

Lemma SFsub_antisym x y :
  SFsub prec emax y x = SFopp (SFsub prec emax x y)
  \/ (SFsub prec emax x y = S754_zero false
      /\ SFsub prec emax y x = S754_zero false).
Proof.
  destruct x as [sx|sx| |sx mx ex], y as [sy|sy| |sy my ey];
    cbn [SFsub SFopp]; try (left; reflexivity);
    try (destruct sx, sy; cbn; auto; fail).
  rewrite (Z.min_comm ey ex).
  set (a := cond_Zopp sx (Zpos (fst (shl_align mx ex (Z.min ex ey))))).
  set (b := cond_Zopp sy (Zpos (fst (shl_align my ey (Z.min ex ey))))).
  destruct (Z.eq_dec (a - b) 0) as [E|NE].
  - right. replace (b - a)%Z with 0%Z by lia. rewrite E. now split.
  - left. replace (b - a)%Z with (- (a - b))%Z by lia.
    now apply binary_normalize_opp.
Qed.

Lemma sub_antisym x y :
  y - x = - (x - y) \/ (x - y = 0 /\ y - x = 0).
Proof.
  destruct (SFsub_antisym (Prim2SF x) (Prim2SF y)) as [H|[H1 H2]].
  - left. apply Prim2SF_inj. now rewrite opp_spec, !sub_spec.
  - right. split; apply Prim2SF_inj; now rewrite sub_spec.
Qed.

Lemma SFmul_opp_l x y :
  SFmul prec emax (SFopp x) y = SFopp (SFmul prec emax x y).
Proof.
  destruct x as [sx|sx| |sx mx ex], y as [sy|sy| |sy my ey];
    cbn [SFmul SFopp]; try reflexivity;
    try (now destruct sx, sy).
  replace (xorb (negb sx) sy) with (negb (xorb sx sy)) by now destruct sx, sy.
  apply binary_round_aux_opp.
Qed.

Lemma SFmul_comm x y : SFmul prec emax x y = SFmul prec emax y x.
Proof.
  destruct x as [sx|sx| |sx mx ex], y as [sy|sy| |sy my ey];
    cbn [SFmul]; try reflexivity; try (now rewrite xorb_comm).
  now rewrite xorb_comm, Pos.mul_comm, Z.add_comm.
Qed.

Lemma SFdiv_opp_l x y :
  SFdiv prec emax (SFopp x) y = SFopp (SFdiv prec emax x y).
Proof.
  destruct x as [sx|sx| |sx mx ex], y as [sy|sy| |sy my ey];
    cbn [SFdiv SFopp]; try reflexivity;
    try (now destruct sx, sy).
  destruct (SFdiv_core_binary prec emax (Zpos mx) ex (Zpos my) ey)
    as [[mz ez] lz].
  replace (xorb (negb sx) sy) with (negb (xorb sx sy)) by now destruct sx, sy.
  apply binary_round_aux_opp.
Qed.

Lemma mul_opp_l x y : (- x) * y = - (x * y).
Proof.
  apply Prim2SF_inj. rewrite opp_spec, !mul_spec, opp_spec.
  apply SFmul_opp_l.
Qed.

Lemma mul_comm x y : x * y = y * x.
Proof. apply Prim2SF_inj. rewrite !mul_spec. apply SFmul_comm. Qed.

Lemma mul_opp_r x y : x * (- y) = - (x * y).
Proof. now rewrite (mul_comm x), mul_opp_l, (mul_comm y). Qed.

Lemma opp_involutive x : - (- x) = x.
Proof.
  apply Prim2SF_inj. rewrite !opp_spec. now destruct (Prim2SF x) as [[]|[]| |[]].
Qed.

Lemma div_opp_l x y : (- x) / y = - (x / y).
Proof.
  apply Prim2SF_inj. rewrite opp_spec, !div_spec, opp_spec.
  apply SFdiv_opp_l.
Qed.

Lemma mul_opp_opp x y : (- x) * (- y) = x * y.
Proof. now rewrite mul_opp_l, mul_opp_r, opp_involutive. Qed.

Lemma sub_diag x : is_finite x = true -> x - x = 0.
Proof.
  intros H. apply Prim2SF_inj. rewrite sub_spec.
  apply fin_of_is_finite in H.
  change (Prim2SF 0) with (S754_zero false).
  destruct (Prim2SF x) as [s|s| |s m e]; cbn [fin] in H; try tauto.
  - now destruct s.
  - unfold SF64sub. cbn [SFsub]. now rewrite Z.sub_diag.
Qed.

End Symmetry.

Section SquareRoot.

Local Open Scope float_scope.

Lemma nonneg_of_sign x :
  is_nan x = false -> get_sign x = false -> (0 <=? x) = true.
Proof.
  intros Hn Hs. rewrite leb_units by (assumption || reflexivity).
  apply Z.leb_le. change (funits 0) with 0%Z.
  rewrite get_sign_sign_of in Hs. unfold funits.
  pose proof cap_pos.
  destruct (Prim2SF x) as [s|s| |s m e]; cbn [units sign_of] in *;
    subst; cbn [cond_Zopp]; lia.
Qed.

Lemma SFsqrt_sign x :
  SFsqrt prec emax x <> S754_nan ->
  sign_of (SFsqrt prec emax x) = sign_of x
  /\ (sign_of x = true -> exists s, x = S754_zero s).
Proof.
  destruct x as [s|[]| |[] m e]; cbn [SFsqrt sign_of]; try congruence;
    try (split; [reflexivity | discriminate]).
  - intros _. split; [reflexivity | eauto].
  - intros _. split; [|discriminate].
    destruct (SFsqrt_core_binary prec emax (Zpos m) e) as [[mz ez] lz] eqn:E.
    apply binary_round_aux_sign.
    unfold SFsqrt_core_binary in E.
    match type of E with
    | (let (q, r) := Z.sqrtrem ?n in _) = _ =>
        pose proof (Z.sqrtrem_sqrt n) as Hq;
        pose proof (Z.sqrt_nonneg n) as Hq0;
        destruct (Z.sqrtrem n) as [q r]
    end.
    cbn [fst] in Hq. injection E as <- _ _. lia.
Qed.

Lemma sqrt_sign a :
  is_nan (sqrt a) = false ->
  get_sign (sqrt a) = get_sign a
  /\ (get_sign a = true -> is_zero a = true).
Proof.
  intros Hn. rewrite !get_sign_sign_of, is_zero_spec, sqrt_spec.
  apply not_nan_SF in Hn. rewrite sqrt_spec in Hn.
  destruct (SFsqrt_sign (Prim2SF a) Hn) as [H1 H2].
  split; [assumption|]. intros H. destruct (H2 H) as [s ->]. reflexivity.
Qed.

Lemma sqrt_nonneg a : is_nan (sqrt a) = false -> (0 <=? sqrt a) = true.
Proof.
  intros Hn. destruct (sqrt_sign a Hn) as [H1 H2].
  destruct (get_sign a) eqn:Hs.
  - specialize (H2 eq_refl).
    rewrite leb_units by (assumption || reflexivity).
    apply Z.leb_le. change (funits 0) with 0%Z.
    unfold funits. rewrite sqrt_spec. rewrite is_zero_spec in H2.
    destruct (Prim2SF a); try discriminate; cbn; lia.
  - now apply nonneg_of_sign.
Qed.

End SquareRoot.

Section ArcTangent.

Variable M : Libm.

Local Open Scope float_scope.

Lemma copysign_positive c y : get_sign y = false -> copysign c y = abs c.
Proof. unfold copysign. now intros ->. Qed.

Lemma copysign_negative c y : get_sign y = true -> copysign c y = - abs c.
Proof. unfold copysign. now intros ->. Qed.

Lemma pos_of_nonneg y :
  (0 <=? y) = true -> is_zero y = false -> (0 <? y) = true.
Proof.
  intros H Hz. destruct (leb_true_not_nan _ _ H) as [_ Hn].
  rewrite ltb_units by (assumption || reflexivity).
  apply le_units in H. change (funits 0) with 0%Z in *.
  apply Z.ltb_lt.
  destruct (Z.eq_dec (funits y) 0) as [E|NE]; [|lia].
  rewrite (funits_zero y Hn E) in Hz. discriminate.
Qed.

(** [atan2] of a non-negative ordinate and of an abscissa whose sign bit is
    clear lies between 0 and pi/2. *)
Lemma m_atan2_quadrant y x :
  atan2_in_quadrant M ->
  (0 <=? y) = true -> is_nan x = false -> get_sign x = false ->
  (0 <=? m_atan2 M y x) = true
  /\ (m_atan2 M y x <=? 0.5 * Py_MATH_PI) = true.
Proof.
  intros HM Hy Hx Hs. destruct (leb_true_not_nan _ _ Hy) as [_ Hny].
  unfold m_atan2. rewrite Hx, Hny, Hs. cbn [orb].
  destruct (is_infinity y) eqn:Iy.
  - assert (Sy : get_sign y = false).
    { rewrite get_sign_sign_of. apply le_units in Hy.
      change (funits 0) with 0%Z in Hy. unfold funits in Hy.
      rewrite is_infinity_spec in Iy. pose proof cap_pos.
      destruct (Prim2SF y) as [s|s| |s m e]; try discriminate.
      destruct s; cbn in *; [lia | reflexivity]. }
    rewrite !(copysign_positive _ y Sy).
    destruct (is_infinity x); split; reflexivity.
  - destruct (is_infinity x) eqn:Ix; cbn [orb].
    + destruct (get_sign y) eqn:Sy;
        [rewrite copysign_negative | rewrite copysign_positive];
        try assumption; split; reflexivity.
    + destruct (is_zero y) eqn:Zy.
      * destruct (get_sign y) eqn:Sy;
          [rewrite copysign_negative | rewrite copysign_positive];
          try assumption; split; reflexivity.
      * assert (Fy : is_finite y = true)
          by (unfold is_finite; now rewrite Hny, Iy).
        assert (Fx : is_finite x = true)
          by (unfold is_finite; now rewrite Hx, Ix).
        pose proof (HM y x Fy Fx (pos_of_nonneg y Hy Zy)
                      (nonneg_of_sign x Hx Hs)) as H.
        apply andb_prop in H. exact H.
Qed.

End ArcTangent.

Section NotANumber.

Local Open Scope float_scope.

Lemma SFdiv_core_nonneg m1 e1 m2 e2 :
  (0 <= fst (fst (SFdiv_core_binary prec emax (Zpos m1) e1 (Zpos m2) e2)))%Z.
Proof.
  unfold SFdiv_core_binary.
  match goal with
  | |- context [Z.div_eucl ?a ?b] =>
      assert (Ha : (0 <= a)%Z);
        [| pose proof (Z.div_eucl_eq a b ltac:(lia)) as E;
           pose proof (Z.mod_pos_bound a b ltac:(lia)) as B;
           unfold Z.modulo in B;
           destruct (Z.div_eucl a b) as [q r]; cbn [fst]; nia ]
  end.
  match goal with
  | |- context [match ?s with Z0 => _ | Zpos _ => _ | Zneg _ => _ end] =>
      destruct s eqn:Es; try lia
  end.
  apply Z.shiftl_nonneg. lia.
Qed.

(** A product or a quotient by a finite number other than zero is a NaN
    only if the other operand is one. *)
Lemma mul_not_nan x k :
  is_nan x = false -> is_finite k = true -> is_zero k = false ->
  is_nan (x * k) = false.
Proof.
  rewrite !is_nan_spec, is_finite_spec, is_zero_spec, mul_spec.
  destruct (Prim2SF x) as [sx|sx| |sx mx ex], (Prim2SF k) as [sk|sk| |sk mk ek];
    cbn; try congruence. intros _ _ _.
  destruct (binary_round_aux_sign (xorb sx sk) (Zpos (mx * mk)) (ex + ek)
              loc_Exact ltac:(lia)) as [H _].
  now destruct (binary_round_aux _ _ _ _ _ _).
Qed.

Lemma div_not_nan x k :
  is_nan x = false -> is_finite k = true -> is_zero k = false ->
  is_nan (x / k) = false.
Proof.
  rewrite !is_nan_spec, is_finite_spec, is_zero_spec, div_spec.
  destruct (Prim2SF x) as [sx|sx| |sx mx ex], (Prim2SF k) as [sk|sk| |sk mk ek];
    cbn -[SFdiv_core_binary]; try congruence. intros _ _ _.
  pose proof (SFdiv_core_nonneg mx ex mk ek) as H0.
  destruct (SFdiv_core_binary prec emax (Zpos mx) ex (Zpos mk) ek)
    as [[mz ez] lz]. cbn [fst] in H0.
  destruct (binary_round_aux_sign (xorb sx sk) mz ez lz H0) as [H _].
  now destruct (binary_round_aux _ _ _ _ _ _).
Qed.

Lemma half_angle_not_nan d : is_nan d = false -> is_nan (half_angle d) = false.
Proof.
  intros H. unfold half_angle, math_radians.
  apply div_not_nan; try reflexivity. now apply mul_not_nan.
Qed.

End NotANumber.

Section SeriesLibmFacts.

Local Open Scope float_scope.

Lemma not_ltb_leb x y :
  is_nan x = false -> is_nan y = false -> (x <? y) = false ->
  (y <=? x) = true.
Proof.
  intros Hx Hy. rewrite ltb_units, leb_units by assumption.
  intros H. apply Z.ltb_ge in H. now apply Z.leb_le.
Qed.

Lemma clamp_between lo hi v :
  (lo <=? hi) = true ->
  (lo <=? SeriesLibm.clamp lo hi v) = true
  /\ (SeriesLibm.clamp lo hi v <=? hi) = true.
Proof.
  intros H. destruct (leb_true_not_nan _ _ H) as [Nlo Nhi].
  assert (Rlo : (lo <=? lo) = true)
    by (rewrite leb_units by assumption; apply Z.leb_refl).
  assert (Rhi : (hi <=? hi) = true)
    by (rewrite leb_units by assumption; apply Z.leb_refl).
  unfold SeriesLibm.clamp.
  destruct (is_nan v) eqn:Nv; [now split|].
  destruct (v <? lo) eqn:L1; [now split|].
  destruct (hi <? v) eqn:L2; [now split|].
  split; now apply not_ltb_leb.
Qed.

Lemma clamp_in_unit_interval v :
  in_unit_interval (SeriesLibm.clamp (-1) 1 v) = true.
Proof.
  unfold in_unit_interval.
  destruct (clamp_between (-1) 1 v eq_refl) as [-> ->]. reflexivity.
Qed.

Lemma in_unit_interval_opp x :
  in_unit_interval x = true -> in_unit_interval (- x) = true.
Proof.
  intros H. destruct (in_unit_interval_units x H) as [N U].
  apply units_in_unit_interval; [now rewrite is_nan_opp|].
  rewrite funits_opp. lia.
Qed.

Lemma zero_in_unit_interval x : is_zero x = true -> in_unit_interval x = true.
Proof.
  intros H. apply units_in_unit_interval.
  - rewrite is_zero_spec in H. rewrite is_nan_spec.
    now destruct (Prim2SF x).
  - rewrite (is_zero_funits x H). cbn. pose proof (pow2_pos 1074). lia.
Qed.

Lemma series_sin_in_range : sin_in_range SeriesLibm.libm.
Proof.
  intros x Hx. unfold c_sin.
  destruct (is_nan x || is_infinity x) eqn:E.
  - unfold is_finite in Hx. rewrite E in Hx. discriminate.
  - destruct (is_zero x) eqn:Z; [now apply zero_in_unit_interval|].
    cbn [libm_sin SeriesLibm.libm]. unfold SeriesLibm.sin, SeriesLibm.sin_nonneg.
    destruct (x <? 0);
      [apply in_unit_interval_opp|]; apply clamp_in_unit_interval.
Qed.

Lemma series_cos_in_range : cos_in_range SeriesLibm.libm.
Proof.
  intros x Hx. unfold c_cos.
  destruct (is_nan x || is_infinity x) eqn:E.
  - unfold is_finite in Hx. rewrite E in Hx. discriminate.
  - destruct (is_zero x) eqn:Z; [reflexivity|].
    cbn [libm_cos SeriesLibm.libm]. unfold SeriesLibm.cos, SeriesLibm.cos_nonneg.
    destruct (x <? 0); apply clamp_in_unit_interval.
Qed.

Lemma ltb_opp_zero x : is_nan x = false -> (- x <? 0) = (0 <? x).
Proof.
  intros H. rewrite !ltb_units by (rewrite ?is_nan_opp; assumption || reflexivity).
  rewrite funits_opp. change (funits 0) with 0%Z.
  destruct (Z.ltb_spec (- funits x) 0), (Z.ltb_spec 0 (funits x));
    try reflexivity; lia.
Qed.

Lemma series_sin_odd : sin_odd SeriesLibm.libm.
Proof.
  intros x. unfold c_sin.
  rewrite is_nan_opp, is_infinity_opp, is_zero_opp.
  destruct (is_nan x) eqn:Nx; [reflexivity|].
  destruct (is_infinity x) eqn:Ix; [reflexivity|]. cbn [orb].
  destruct (is_zero x) eqn:Zx; [reflexivity|].
  cbn [libm_sin SeriesLibm.libm]. unfold SeriesLibm.sin.
  rewrite (ltb_opp_zero x Nx).
  destruct (x <? 0) eqn:L.
  - rewrite (ltb_not_ltb _ _ L). now rewrite opp_involutive.
  - assert (P : (0 <? x) = true).
    { rewrite ltb_units in * by (assumption || reflexivity).
      change (funits 0) with 0%Z in *. apply Z.ltb_ge in L. apply Z.ltb_lt.
      destruct (Z.eq_dec (funits x) 0) as [E|NE]; [|lia].
      rewrite (funits_zero x Nx E) in Zx. discriminate. }
    rewrite P. now rewrite opp_involutive.
Qed.

Lemma series_atan2_in_quadrant : atan2_in_quadrant SeriesLibm.libm.
Proof.
  intros y x Fy Fx Hy Hx.
  cbn [libm_atan2 SeriesLibm.libm]. unfold SeriesLibm.atan2.
  rewrite (ltb_not_ltb _ _ Hy).
  assert (L : (x <? 0) = false).
  { destruct (leb_true_not_nan _ _ Hx) as [_ Nx].
    rewrite ltb_units by (assumption || reflexivity).
    apply le_units in Hx. apply Z.ltb_ge. exact Hx. }
  rewrite L. unfold SeriesLibm.atan2_quadrant1.
  change (0.5 * Py_MATH_PI) with SeriesLibm.half_pi.
  destruct (clamp_between 0 SeriesLibm.half_pi
              (if abs y <=? abs x
               then SeriesLibm.atan_unit (abs y / abs x)
               else SeriesLibm.half_pi - SeriesLibm.atan_unit (abs x / abs y))
              eq_refl) as [-> ->].
  reflexivity.
Qed.

End SeriesLibmFacts.

Section IntToFloat.

Local Open Scope float_scope.

Lemma round_int_spec n :
  Prim2SF (round_int n) = binary_normalize prec emax n 0 false.
Proof.
  unfold round_int. apply Prim2SF_SF2Prim.
  now destruct (binary_normalize_units n 0 ltac:(lia)) as (_ & H & _).
Qed.

Lemma round_int_units n :
  is_nan (round_int n) = false
  /\ get_sign (round_int n) = (n <? 0)%Z
  /\ funits (round_int n) = round_to 0 (n * 2 ^ 1074).
Proof.
  unfold funits. rewrite get_sign_sign_of, is_nan_spec, round_int_spec.
  destruct (binary_normalize_units n 0 ltac:(lia)) as (Hn & _ & Hs & Hu).
  repeat split; auto.
  now destruct (binary_normalize prec emax n 0 false).
Qed.

Lemma add_zero_r x :
  get_sign x = false \/ is_zero x = false -> x + 0 = x.
Proof.
  rewrite get_sign_sign_of, is_zero_spec. intros H.
  apply Prim2SF_inj. rewrite add_spec.
  change (Prim2SF 0) with (S754_zero false).
  destruct (Prim2SF x) as [[]|[]| |[] m e]; cbn in *; try reflexivity.
  destruct H; discriminate.
Qed.

Lemma round_int_add_zero n : round_int n + 0 = round_int n.
Proof.
  destruct (round_int_units n) as (Hn & Hs & Hu).
  apply add_zero_r. destruct (Z.ltb_spec n 0) as [L|G]; [right|now left].
  destruct (is_zero (round_int n)) eqn:Z; [exfalso|reflexivity].
  apply is_zero_funits in Z. rewrite Hu in Z. apply round_to_0_eq in Z.
  pose proof (pow2_pos 1074 ltac:(lia)). nia.
Qed.

Lemma round_int_limit :
  round_int (int_limit - 1) = 0x1.fffffffffffffp+1023
  /\ round_int int_limit = infinity.
Proof. split; vm_compute; reflexivity. Qed.

Lemma funits_max_float : (funits 0x1.fffffffffffffp+1023 < cap)%Z.
Proof.
  apply Z.ltb_lt.
  rewrite <- (Z.abs_eq (funits _)) by (vm_compute; discriminate).
  now rewrite <- is_finite_units.
Qed.

(** An int converts exactly when it is smaller in magnitude than
    [2^1024 - 2^970]. *)
Lemma float_of_int_fits n :
  (Z.abs n < int_limit)%Z -> float_of_int n = Return (round_int n).
Proof.
  intros H. unfold float_of_int.
  destruct (round_int_units n) as (Hn & _ & Hu).
  destruct (round_int_limit) as [Hmax _].
  destruct (round_int_units (int_limit - 1)) as (_ & _ & Hu').
  rewrite Hmax in Hu'. pose proof funits_max_float as Hlt.
  assert (F : is_finite (round_int n) = true).
  { rewrite is_finite_units by assumption. apply Z.ltb_lt.
    rewrite Hu, round_to_abs by lia.
    eapply Z.le_lt_trans; [|exact Hlt]. rewrite Hu'.
    apply round_to_mono; [lia|]. rewrite Z.abs_mul.
    pose proof (pow2_pos 1074 ltac:(lia)).
    rewrite (Z.abs_eq (2 ^ 1074)) by lia. nia. }
  unfold is_finite in F. rewrite negb_true_iff in F.
  apply orb_false_elim in F as [_ ->]. reflexivity.
Qed.

Lemma float_of_int_overflows n :
  (int_limit <= Z.abs n)%Z ->
  float_of_int n = Raise (OverflowError "int too large to convert to float").
Proof.
  intros H. unfold float_of_int.
  destruct (round_int_units n) as (Hn & _ & Hu).
  destruct (round_int_limit) as [_ Hinf].
  destruct (round_int_units int_limit) as (_ & _ & Hu').
  rewrite Hinf in Hu'. change (funits infinity) with cap in Hu'.
  assert (F : is_finite (round_int n) = false).
  { rewrite is_finite_units by assumption. apply Z.ltb_ge.
    rewrite Hu, round_to_abs by lia. rewrite Hu'.
    apply round_to_mono; [lia|]. rewrite Z.abs_mul.
    pose proof (pow2_pos 1074 ltac:(lia)).
    rewrite (Z.abs_eq (2 ^ 1074)) by lia. nia. }
  unfold is_finite in F. rewrite Hn, orb_false_l in F.
  apply negb_false_iff in F. cbv zeta. now rewrite F.
Qed.

Lemma coordinate_to_float_value (d m s : Z) (sign : bool) :
  (Z.abs d < int_limit)%Z -> (Z.abs m < int_limit)%Z ->
  (Z.abs s < int_limit)%Z ->
  coordinate_to_float (VInt d) (VInt m) (VInt s) (VBool sign)
  = let v := decimal_degrees (round_int d) (round_int m) (round_int s) in
    Return (if sign then v else - v).
Proof.
  intros Hd Hm Hs. unfold coordinate_to_float, raise_if, float_binop.
  cbn [type_is_not type_of pytype_eqb negb bind as_float].
  rewrite !float_of_int_fits by assumption. cbn [bind].
  rewrite round_int_add_zero. unfold decimal_degrees.
  now destruct sign.
Qed.

End IntToFloat.

Section NoOverflow.

Local Open Scope Z_scope.

Lemma iter_shr_1_m n : forall mrs,
  0 <= shr_m mrs ->
  shr_m (iter_pos shr_1 n mrs) = shr_m mrs / 2 ^ Zpos n.
Proof.
  assert (H1 : forall mrs, 0 <= shr_m mrs ->
                           shr_m (shr_1 mrs) = shr_m mrs / 2
                           /\ 0 <= shr_m (shr_1 mrs)).
  { intros [m r s]. cbn [shr_m]. intros Hm.
    rewrite shr_1_nonneg by assumption. cbn [shr_m].
    split; [reflexivity | apply Z.div_pos; lia]. }
  induction n as [n IH|n IH|]; intros mrs Hm; cbn [iter_pos].
  - destruct (H1 mrs Hm) as [E1 P1].
    rewrite IH by (apply iter_shr_1_nonneg; assumption).
    rewrite IH, E1 by assumption.
    rewrite !Z.div_div by (try apply pow2_pos; lia).
    f_equal. rewrite <- Z.pow_add_r, <- Z.pow_succ_r by lia. f_equal. lia.
  - rewrite IH by (apply iter_shr_1_nonneg; assumption).
    rewrite IH by assumption.
    rewrite !Z.div_div by (try apply pow2_pos; lia).
    f_equal. rewrite <- Z.pow_add_r by lia. f_equal. lia.
  - destruct (H1 mrs Hm) as [E1 _]. now rewrite E1.
Qed.

Lemma Zdigits2_bound m : 0 <= m -> m < 2 ^ Zdigits2 m.
Proof.
  intros Hm. destruct m as [|p|p]; [reflexivity| |lia].
  rewrite Zdigits2_log2. apply log2_pos_bounds.
Qed.

Lemma Zdigits2_le m k : 0 <= k -> 0 <= m < 2 ^ k -> Zdigits2 m <= k.
Proof.
  intros Hk Hm. destruct m as [|p|p]; [cbn; lia| |lia].
  rewrite Zdigits2_log2.
  assert (Z.log2 (Zpos p) < k) by (apply Z.log2_lt_pow2; lia). lia.
Qed.

Lemma Zdigits2_nonneg m : 0 <= Zdigits2 m.
Proof. destruct m; cbn; lia. Qed.

Lemma shr_fexp_facts m e l :
  0 <= m ->
  0 <= shr_m (fst (shr_fexp prec emax m e l))
  /\ snd (shr_fexp prec emax m e l) = Z.max e (fexp64 (Zdigits2 m + e))
  /\ shr_m (fst (shr_fexp prec emax m e l))
     * 2 ^ (snd (shr_fexp prec emax m e l) - e) <= m.
Proof.
  intros Hm. unfold shr_fexp, shr.
  assert (H0 : shr_m (shr_record_of_loc m l) = m) by (now destruct l as [|[]]).
  destruct (fexp64 (Zdigits2 m + e) - e) as [|n|n] eqn:E; cbn [fst snd].
  - rewrite H0, Z.sub_diag. split; [lia|]. split; lia.
  - rewrite iter_shr_1_m by lia. rewrite H0.
    replace (e + Zpos n - e) with (Zpos n) by lia.
    assert (H2 := pow2_pos (Zpos n) ltac:(lia)).
    split; [apply Z.div_pos; lia|]. split; [lia|].
    rewrite Z.mul_comm. apply Z.mul_div_le. lia.
  - rewrite H0, Z.sub_diag. split; [lia|]. split; lia.
Qed.

(** A number below [2^1023] at an exponent within the format does not round
    to an infinity. *)
Lemma binary_round_aux_fin s m e l :
  0 <= m -> e <= 971 -> Zdigits2 m + e <= 1023 ->
  fin (binary_round_aux prec emax s m e l).
Proof.
  intros Hm He Hd. unfold binary_round_aux.
  destruct (shr_fexp_facts m e l Hm) as (P1 & E1 & B1).
  destruct (shr_fexp prec emax m e l) as [mrs' e']. cbn [fst snd] in *.
  pose proof (Zdigits2_nonneg m) as Hd0.
  pose proof (Zdigits2_bound m Hm) as Hmd.
  assert (He' : e <= e' <= 971) by (rewrite fexp64_eq in E1; lia).
  set (m1 := round_nearest_even (shr_m mrs') (loc_of_shr_record mrs')).
  assert (Hm1 : 0 <= m1 <= shr_m mrs' + 1).
  { unfold m1, round_nearest_even.
    destruct (loc_of_shr_record mrs') as [|[]]; try lia.
    destruct (Z.even (shr_m mrs')); lia. }
  assert (Hd1 : Zdigits2 m1 + e' <= 1024).
  { assert (H2 := pow2_pos (e' - e) ltac:(lia)).
    destruct (Z_le_gt_dec (e' - e) (Zdigits2 m)) as [Hk|Hk].
    - assert (shr_m mrs' < 2 ^ (Zdigits2 m - (e' - e))).
      { apply Z.mul_lt_mono_pos_r with (2 ^ (e' - e)); [assumption|].
        rewrite <- Z.pow_add_r by lia.
        replace (Zdigits2 m - (e' - e) + (e' - e)) with (Zdigits2 m) by lia.
        lia. }
      assert (Zdigits2 m1 <= Zdigits2 m - (e' - e) + 1); [|lia].
      apply Zdigits2_le; [lia|].
      rewrite Z.pow_add_r, Z.pow_1_r by lia. lia.
    - assert (shr_m mrs' = 0).
      { assert (2 ^ Zdigits2 m < 2 ^ (e' - e)) by (apply pow2_lt; lia).
        nia. }
      assert (Zdigits2 m1 <= 1); [|lia].
      apply Zdigits2_le; [lia|]. change (2 ^ 1) with 2. lia. }
  destruct (shr_fexp_facts m1 e' loc_Exact ltac:(lia)) as (P2 & E2 & _).
  destruct (shr_fexp prec emax m1 e' loc_Exact) as [mrs'' e''].
  cbn [fst snd] in *.
  assert (He'' : e'' <= 971) by (rewrite fexp64_eq in E2; lia).
  destruct (shr_m mrs'') as [|q|q]; [exact I| |lia].
  destruct (Z.leb_spec e'' (emax - prec)) as [L|G];
    change (emax - prec) with 971 in *; [exact I | lia].
Qed.

Lemma SFsqrt_fin m e :
  bounded prec emax m e = true ->
  fin (SFsqrt prec emax (S754_finite false m e)).
Proof.
  intros Hb. apply bounded_inv in Hb as (He & Hm & _ & _).
  cbn [SFsqrt]. unfold SFsqrt_core_binary.
  rewrite Zdigits2_log2.
  assert (Hl : 0 <= Z.log2 (Zpos m) < 53)
    by (split; [apply Z.log2_nonneg | apply Z.log2_lt_pow2; lia]).
  set (d := Z.log2 (Zpos m) + 1) in *.
  assert (Hd : 1 <= d <= 53) by (unfold d; lia).
  rewrite !Z.div2_div.
  set (e' := Z.min (fexp64 ((d + e + 1) / 2)) (e / 2)).
  set (s := e - 2 * e').
  set (m' := match s with
             | Z0 => Zpos m
             | Zpos _ => Z.shiftl (Zpos m) s
             | Zneg _ => 0
             end).
  assert (Hm' : 0 <= m' /\ (0 <= s -> m' < 2 ^ (d + s)) /\ (s < 0 -> m' = 0)).
  { pose proof (log2_pos_bounds m) as Hp. fold d in Hp.
    unfold m'. destruct s as [|p|p] eqn:Es.
    - rewrite Z.add_0_r. repeat split; lia.
    - rewrite Z.shiftl_mul_pow2 by lia.
      assert (H2 := pow2_pos (Zpos p) ltac:(lia)).
      rewrite Z.pow_add_r by lia. repeat split; try lia; nia.
    - repeat split; lia. }
  destruct Hm' as (Hm0 & Hms & Hmn).
  pose proof (Z.sqrtrem_sqrt m') as Hq.
  pose proof (Z.sqrt_spec m' Hm0) as Hsq.
  pose proof (Z.sqrt_nonneg m') as Hq0.
  destruct (Z.sqrtrem m') as [q r]. cbn [fst] in Hq. subst q.
  set (q := Z.sqrt m') in *.
  assert (He' : e' <= 485).
  { unfold e'. etransitivity; [apply Z.le_min_r|].
    apply Z.lt_succ_r, Z.div_lt_upper_bound; lia. }
  apply binary_round_aux_fin; [assumption | lia |].
  assert (Es : s = e - 2 * e') by reflexivity.
  assert (Eq : q = Z.sqrt m') by reflexivity.
  cbv zeta in Hsq. clearbody q m' s e' d.
  destruct (Z_lt_le_dec s 0) as [Hs|Hs].
  - rewrite Eq, (Hmn Hs).
    change (Zdigits2 (Z.sqrt 0)) with 0. lia.
  - specialize (Hms Hs).
    set (K := (d + s + 1) / 2).
    assert (HK : d + s <= 2 * K /\ 2 * K <= d + s + 1).
    { unfold K.
      pose proof (Z.mul_succ_div_gt (d + s + 1) 2 ltac:(lia)).
      pose proof (Z.mul_div_le (d + s + 1) 2 ltac:(lia)). lia. }
    assert (Hqk : q < 2 ^ K).
    { destruct (Z_lt_le_dec q (2 ^ K)) as [|Hge]; [assumption|exfalso].
      assert (2 ^ (d + s) <= 2 ^ K * 2 ^ K)
        by (rewrite <- Z.pow_add_r by lia; apply pow2_le; lia).
      assert (H2 := pow2_pos K ltac:(lia)). nia. }
    assert (Zdigits2 q <= K) by (apply Zdigits2_le; lia).
    clearbody K. lia.
Qed.

Lemma SFdiv_two_fin s m e :
  bounded prec emax m e = true ->
  fin (SFdiv prec emax (S754_finite s m e)
         (S754_finite false 4503599627370496 (-51))).
Proof.
  intros Hb. apply bounded_inv in Hb as (He & Hm & _ & _).
  cbn [SFdiv]. unfold SFdiv_core_binary.
  rewrite Zdigits2_log2.
  change (Zdigits2 4503599627370496) with 53.
  assert (Hl : 0 <= Z.log2 (Zpos m) < 53)
    by (split; [apply Z.log2_nonneg | apply Z.log2_lt_pow2; lia]).
  set (d := Z.log2 (Zpos m) + 1) in *.
  assert (Hd : 1 <= d <= 53) by (unfold d; lia).
  set (e' := Z.min (fexp64 (d + e - (53 + -51))) (e - -51)).
  set (sh := e - -51 - e').
  set (m' := match sh with
             | Z0 => Zpos m
             | Zpos _ => Z.shiftl (Zpos m) sh
             | Zneg _ => 0
             end).
  assert (Hm' : 0 <= m' /\ (0 <= sh -> m' < 2 ^ (d + sh)) /\ (sh < 0 -> m' = 0)).
  { pose proof (log2_pos_bounds m) as Hp. fold d in Hp.
    unfold m'. destruct sh as [|p|p] eqn:Es.
    - rewrite Z.add_0_r. repeat split; lia.
    - rewrite Z.shiftl_mul_pow2 by lia.
      assert (H2 := pow2_pos (Zpos p) ltac:(lia)).
      rewrite Z.pow_add_r by lia. repeat split; try lia; nia.
    - repeat split; lia. }
  destruct Hm' as (Hm0 & Hms & Hmn).
  change 4503599627370496 with (2 ^ 52).
  pose proof (Z.div_eucl_eq m' (2 ^ 52) ltac:(lia)) as Eq.
  pose proof (Z.mod_pos_bound m' (2 ^ 52) ltac:(lia)) as Bq.
  unfold Z.modulo in Bq.
  destruct (Z.div_eucl m' (2 ^ 52)) as [q r].
  assert (Hq0 : 0 <= q) by nia.
  assert (He' : e' <= 969) by (unfold e'; rewrite fexp64_eq; lia).
  apply binary_round_aux_fin; [assumption | lia |].
  assert (Es : sh = e - -51 - e') by reflexivity.
  clearbody m' sh e' d.
  destruct (Z_lt_le_dec sh 0) as [Hs|Hs].
  - rewrite (Hmn Hs) in Eq. assert (q = 0) by nia. subst q.
    change (Zdigits2 0) with 0. lia.
  - specialize (Hms Hs).
    destruct (Z_le_gt_dec 52 (d + sh)) as [Hk|Hk].
    + assert (q < 2 ^ (d + sh - 52)).
      { apply Z.mul_lt_mono_pos_l with (2 ^ 52); [lia|].
        rewrite <- Z.pow_add_r by lia.
        replace (52 + (d + sh - 52)) with (d + sh) by lia. lia. }
      assert (Zdigits2 q <= d + sh - 52) by (apply Zdigits2_le; lia).
      lia.
    + assert (2 ^ (d + sh) < 2 ^ 52) by (apply pow2_lt; lia).
      assert (q = 0) by nia. subst q. change (Zdigits2 0) with 0. lia.
Qed.

Local Open Scope float_scope.

Lemma sqrt_finite a :
  is_finite a = true -> is_nan (sqrt a) = false -> is_finite (sqrt a) = true.
Proof.
  rewrite !is_finite_spec, is_nan_spec, sqrt_spec.
  pose proof (Prim2SF_valid a) as V. unfold SF64sqrt.
  destruct (Prim2SF a) as [s|s| |[] m e]; try discriminate; intros _.
  - reflexivity.
  - intros _. cbn [valid_binary] in V. pose proof (SFsqrt_fin m e V) as F.
    now destruct (SFsqrt prec emax _).
Qed.

Lemma div_two_finite x : is_finite x = true -> is_finite (x / 2) = true.
Proof.
  rewrite !is_finite_spec, div_spec.
  change (Prim2SF 2) with (S754_finite false 4503599627370496 (-51)).
  pose proof (Prim2SF_valid x) as V.
  destruct (Prim2SF x) as [s|s| |s m e]; try discriminate; intros _.
  - reflexivity.
  - cbn [valid_binary] in V. pose proof (SFdiv_two_fin s m e V) as F.
    unfold SF64div. now destruct (SFdiv prec emax _ _).
Qed.

End NoOverflow.

(** ** The monad *)

Lemma bind_Return {A B : Type} (a : A) (k : A -> result B) :
  bind (Return a) k = k a.
Proof. reflexivity. Qed.

Lemma bind_inv {A B : Type} (r : result A) (k : A -> result B) (b : B) :
  bind r k = Return b -> exists a, r = Return a /\ k a = Return b.
Proof. destruct r as [a|e]; simpl; [eauto | discriminate]. Qed.

(** ** The checks on the arguments *)

Section Validation.

Variable M : Libm.

Lemma is_point_inv (v : value) :
  is_point v = true -> exists lat lon, v = point lat lon.
Proof.
  destruct v as [ | | | | |[|x [|y [|z r]]]|]; simpl; try discriminate;
    destruct x; try discriminate; destruct y; try discriminate.
  intros _. unfold point. eauto.
Qed.

Lemma is_route_inv (v : value) :
  is_route v = true ->
  exists a1 a2 b1 b2, v = route (point a1 a2) (point b1 b2).
Proof.
  destruct v as [ | | | | |[|p [|q [|z r]]]|]; simpl; try discriminate.
  intros H. apply andb_prop in H as [Hp Hq].
  apply is_point_inv in Hp as (a1 & a2 & ->).
  apply is_point_inv in Hq as (b1 & b2 & ->). now exists a1, a2, b1, b2.
Qed.

(** On two well-formed points [dist] is the haversine computation. *)
Lemma dist_on_points (lat1 lon1 lat2 lon2 : float) :
  dist M (point lat1 lon1) (point lat2 lon2)
  = haversine M lat1 lon1 lat2 lon2.
Proof.
  unfold dist, haversine, point, raise_if. simpl.
  destruct (math_sin M (math_radians (lat2 - lat1) / 2)); simpl;
    [|reflexivity].
  destruct (math_cos M (math_radians lat1)); simpl; [|reflexivity].
  destruct (math_cos M (math_radians lat2)); simpl; [|reflexivity].
  destruct (math_sin M (math_radians (lon2 - lon1) / 2)); reflexivity.
Qed.

Lemma len_long (x y z : value) (r : list value) :
  (Z.of_nat (List.length (x :: y :: z :: r)) =? 2)%Z = false.
Proof. apply Z.eqb_neq. simpl List.length. lia. Qed.

(** [dist] turns down whatever is not a pair of well-formed points. *)
Lemma dist_rejects (v1 v2 : value) :
  is_point v1 && is_point v2 = false ->
  exists msg, dist M v1 v2 = Raise (TypeError msg).
Proof.
  intros H. unfold dist, raise_if.
  destruct v1 as [ | | | | |[|x1 [|y1 [|z1 r1]]]|];
    try (eexists; reflexivity).
  2:{ cbn -[len List.length Z.of_nat]. unfold len. cbn [bind].
      rewrite len_long. eexists; reflexivity. }
  destruct x1; try (eexists; reflexivity).
  destruct y1; try (eexists; reflexivity).
  destruct v2 as [ | | | | |[|x2 [|y2 [|z2 r2]]]|];
    try (eexists; reflexivity).
  2:{ cbn -[len List.length Z.of_nat]. unfold len. cbn [bind].
      rewrite len_long. eexists; reflexivity. }
  destruct x2; try (eexists; reflexivity).
  destruct y2; try (eexists; reflexivity).
  discriminate H.
Qed.

(** [coordinate_to_float] turns down whatever is not three ints and a
    bool. *)
Lemma coordinate_to_float_rejects (degrees minutes seconds sign : value) :
  type_is_not degrees Tint || type_is_not minutes Tint
  || type_is_not seconds Tint || type_is_not sign Tbool = true ->
  exists msg,
    coordinate_to_float degrees minutes seconds sign = Raise (TypeError msg).
Proof.
  intros H. unfold coordinate_to_float, raise_if.
  destruct degrees; try (eexists; reflexivity).
  destruct minutes; try (eexists; reflexivity).
  destruct seconds; try (eexists; reflexivity).
  destruct sign; try (eexists; reflexivity).
  discriminate H.
Qed.

(** On two well-formed routes [is_longer_trip] asks for six distances,
    in this order, and compares the two sums. *)
Lemma is_longer_trip_on_routes (a1 a2 b1 b2 c1 c2 d1 d2 : float) :
  let a := point a1 a2 in
  let b := point b1 b2 in
  let c := point c1 c2 in
  let d := point d1 d2 in
  is_longer_trip M (route a b) (route c d) =
  (dac <- dist M a c ;; dcd <- dist M c d ;; ddb <- dist M d b ;;
   dca <- dist M c a ;; dab <- dist M a b ;; dbd <- dist M b d ;;
   Return (0 + dca + dab + dbd <? 0 + dac + dcd + ddb)%float).
Proof.
  intros a b c d. unfold is_longer_trip, route, raise_if. simpl.
  destruct (dist M a c); simpl; [|reflexivity].
  destruct (dist M c d); simpl; [|reflexivity].
  destruct (dist M d b); simpl; [|reflexivity].
  destruct (dist M c a); simpl; [|reflexivity].
  destruct (dist M a b); simpl; [|reflexivity].
  destruct (dist M b d); simpl; [|reflexivity].
  now destruct (_ <? _)%float.
Qed.

End Validation.

(** ** The wrappers of the [math] module *)

Section MathWrappers.

Variable M : Libm.

Lemma math_1_inv (func : float -> float) (x r : float) :
  math_1 func x = Return r ->
  r = func x
  /\ (is_nan r = true -> is_nan x = true)
  /\ (is_finite x = true -> is_finite r = true).
Proof.
  unfold math_1. intros H.
  destruct (is_nan (func x)) eqn:Hn, (is_nan x) eqn:Hx; simpl in H;
    try discriminate;
    destruct (is_infinity (func x)) eqn:Hi, (is_finite x) eqn:Hf;
    simpl in H; try discriminate; injection H as <-;
    repeat split; try congruence; try discriminate;
    unfold is_finite in *; rewrite ?Hn, ?Hi, ?Hx in *;
    simpl in *; congruence.
Qed.

Lemma math_2_inv (func : float -> float -> float) (x y r : float) :
  math_2 func x y = Return r ->
  r = func x y
  /\ (is_nan x = false -> is_nan y = false -> is_nan r = false).
Proof.
  unfold math_2.
  destruct (is_nan (func x y)) eqn:Hn.
  - destruct (is_nan x), (is_nan y); simpl; try discriminate;
      intros [= <-]; split; congruence.
  - destruct (is_infinity (func x y));
      [destruct (is_finite x && is_finite y); try discriminate|];
      intros [= <-]; split; congruence.
Qed.

(** What [dist] returns, when it returns, is the formula over the C
    functions. *)
Lemma haversine_inv (lat1 lon1 lat2 lon2 d : float) :
  haversine M lat1 lon1 lat2 lon2 = Return d ->
  d = haversine_value M lat1 lon1 lat2 lon2.
Proof.
  unfold haversine, haversine_value, haversine_a. intros H.
  apply bind_inv in H as (s1 & H1 & H).
  apply bind_inv in H as (k1 & H2 & H).
  apply bind_inv in H as (k2 & H3 & H).
  apply bind_inv in H as (s2 & H4 & H).
  apply bind_inv in H as (q1 & H5 & H).
  apply bind_inv in H as (q2 & H6 & H).
  apply bind_inv in H as (t & H7 & H).
  apply math_1_inv in H1 as [-> _], H2 as [-> _], H3 as [-> _],
      H4 as [-> _], H5 as [-> _], H6 as [-> _].
  apply math_2_inv in H7 as [-> _].
  now injection H as <-.
Qed.

End MathWrappers.

Section SymmetryOfDist.

Local Open Scope float_scope.
Local Open Scope py_scope.

Variable M : Libm.

Lemma haversine_angles lat1 lon1 lat2 lon2 :
  haversine M lat1 lon1 lat2 lon2
  = haversine_of_angles M (half_angle (lat2 - lat1)) (math_radians lat1)
      (math_radians lat2) (half_angle (lon2 - lon1)).
Proof. reflexivity. Qed.

Lemma math_1_cases (f : float -> float) (x : float) :
  math_1 f x = Return (f x)
  \/ math_1 f x = Raise (ValueError "math domain error").
Proof.
  unfold math_1.
  destruct (is_nan (f x) && negb (is_nan x)); [now right|].
  destruct (is_infinity (f x) && is_finite x); [now right | now left].
Qed.

Lemma math_1_opp (f : float -> float) (x : float) :
  f (- x) = - f x ->
  math_1 f (- x)
  = match math_1 f x with
    | Return r => Return (- r)
    | Raise e => Raise e
    end.
Proof.
  intros H. unfold math_1.
  rewrite H, !is_nan_opp, is_infinity_opp, is_finite_opp.
  destruct (is_nan (f x) && negb (is_nan x)); [reflexivity|].
  now destruct (is_infinity (f x) && is_finite x).
Qed.

Lemma half_angle_opp d : half_angle (- d) = - half_angle d.
Proof. unfold half_angle, math_radians. now rewrite mul_opp_l, div_opp_l. Qed.

Lemma haversine_of_angles_swap u v1 v2 w :
  haversine_of_angles M u v1 v2 w = haversine_of_angles M u v2 v1 w.
Proof.
  unfold haversine_of_angles, math_sin, math_cos.
  destruct (math_1_cases (c_sin M) u) as [-> | ->]; [|reflexivity].
  destruct (math_1_cases (c_cos M) v1) as [-> | ->],
    (math_1_cases (c_cos M) v2) as [-> | ->]; cbn [bind]; try reflexivity.
  now rewrite (mul_comm (c_cos M v1)).
Qed.

Lemma haversine_of_angles_opp_l u v1 v2 w :
  sin_odd M ->
  haversine_of_angles M (- u) v1 v2 w = haversine_of_angles M u v1 v2 w.
Proof.
  intros Hodd. unfold haversine_of_angles, math_sin.
  rewrite (math_1_opp (c_sin M) u (Hodd u)).
  destruct (math_1 (c_sin M) u) as [s|e]; cbn [bind]; [|reflexivity].
  now rewrite mul_opp_opp.
Qed.

Lemma haversine_of_angles_opp_r u v1 v2 w :
  sin_odd M ->
  haversine_of_angles M u v1 v2 (- w) = haversine_of_angles M u v1 v2 w.
Proof.
  intros Hodd. unfold haversine_of_angles, math_sin.
  rewrite (math_1_opp (c_sin M) w (Hodd w)).
  destruct (math_1 (c_sin M) u) as [s|e]; cbn [bind]; [|reflexivity].
  destruct (math_cos M v1) as [c1|e]; cbn [bind]; [|reflexivity].
  destruct (math_cos M v2) as [c2|e]; cbn [bind]; [|reflexivity].
  destruct (math_1 (c_sin M) w) as [s'|e]; cbn [bind]; [|reflexivity].
  now rewrite mul_opp_r, mul_opp_r, mul_opp_l, opp_involutive.
Qed.

Lemma half_angle_sub_swap x y :
  half_angle (y - x) = - half_angle (x - y)
  \/ half_angle (y - x) = half_angle (x - y).
Proof.
  destruct (sub_antisym x y) as [-> | [-> ->]].
  - left. apply half_angle_opp.
  - now right.
Qed.

Lemma haversine_symmetric lat1 lon1 lat2 lon2 :
  sin_odd M ->
  haversine M lat1 lon1 lat2 lon2 = haversine M lat2 lon2 lat1 lon1.
Proof.
  intros Hodd. rewrite !haversine_angles.
  rewrite (haversine_of_angles_swap _ (math_radians lat2)).
  destruct (half_angle_sub_swap lat1 lat2) as [-> | ->],
    (half_angle_sub_swap lon1 lon2) as [-> | ->];
    now rewrite ?haversine_of_angles_opp_l, ?haversine_of_angles_opp_r.
Qed.

End SymmetryOfDist.

Section RangeOfDist.

Variable M : Libm.

Local Open Scope float_scope.

Lemma math_1_in_range (f : float -> float) (x s : float) :
  (forall y, is_finite y = true -> in_unit_interval (f y) = true) ->
  (is_infinity x = true -> is_nan (f x) = true) ->
  is_nan x = false -> math_1 f x = Return s -> in_unit_interval s = true.
Proof.
  intros Hf Hinf Hx H. apply math_1_inv in H as (-> & H1 & H2).
  destruct (is_infinity x) eqn:Ix.
  - specialize (H1 (Hinf eq_refl)). congruence.
  - apply Hf. unfold is_finite. now rewrite Hx, Ix.
Qed.

Lemma math_sin_in_range x s :
  sin_in_range M -> is_nan x = false -> math_sin M x = Return s ->
  in_unit_interval s = true.
Proof.
  intros HM. apply math_1_in_range; [exact HM|].
  intros H. unfold c_sin. now rewrite H, orb_true_r.
Qed.

Lemma math_cos_in_range x s :
  cos_in_range M -> is_nan x = false -> math_cos M x = Return s ->
  in_unit_interval s = true.
Proof.
  intros HM. apply math_1_in_range; [exact HM|].
  intros H. unfold c_cos. now rewrite H, orb_true_r.
Qed.

Lemma funits_two : funits 2 = (2 ^ 1075)%Z.
Proof.
  unfold funits.
  change (Prim2SF 2) with (S754_finite false 4503599627370496 (-51)).
  cbn [units cond_Zopp]. change 4503599627370496%Z with (2 ^ 52)%Z.
  rewrite <- Z.pow_add_r by lia. reflexivity.
Qed.

Lemma add_in_unit_interval x y :
  in_unit_interval x = true -> in_unit_interval y = true ->
  is_finite (x + y) = true.
Proof.
  intros Hx Hy.
  destruct (in_unit_interval_units x Hx) as [_ Ux].
  destruct (in_unit_interval_units y Hy) as [_ Uy].
  destruct (add_units x y) as (Hn & Hu & _);
    auto using in_unit_interval_finite.
  rewrite is_finite_units by assumption. apply Z.ltb_lt.
  rewrite Hu, round_to_abs by lia.
  apply Z.le_lt_trans with (round_to 0 (funits 2 * 2 ^ 0)).
  - apply round_to_mono; [lia|]. rewrite funits_two, Z.mul_1_r.
    change (2 ^ 1075)%Z with (2 * 2 ^ 1074)%Z. lia.
  - rewrite round_to_units_exact by (lia || reflexivity).
    rewrite funits_two. unfold cap. apply pow2_lt. lia.
Qed.

(** The end of the computation, from [a] on. *)
Lemma angle_bounds (a q1 q2 : float) :
  atan2_in_quadrant M -> is_finite a = true ->
  math_sqrt a = Return q1 -> math_sqrt (1 - a) = Return q2 ->
  (0 <=? m_atan2 M q1 q2) = true
  /\ (m_atan2 M q1 q2 <=? 0.5 * Py_MATH_PI) = true.
Proof.
  intros HM Fa H1 H2.
  pose proof (is_finite_not_nan a Fa) as Na.
  apply math_1_inv in H1 as (-> & N1 & _).
  apply math_1_inv in H2 as (-> & N2 & _).
  assert (Nq1 : is_nan (sqrt a) = false).
  { destruct (is_nan (sqrt a)); [|reflexivity]. rewrite N1 in Na; auto. }
  destruct (sub_units 1 a eq_refl Fa) as (Nb & Ub & Sb).
  assert (Nq2 : is_nan (sqrt (1 - a)) = false).
  { destruct (is_nan (sqrt (1 - a))); [|reflexivity]. rewrite N2 in Nb; auto. }
  destruct (sqrt_sign (1 - a) Nq2) as [S2 Z2].
  assert (Sq2 : get_sign (sqrt (1 - a)) = false).
  { rewrite S2. destruct (get_sign (1 - a)) eqn:Sg; [exfalso|reflexivity].
    specialize (Z2 eq_refl). apply is_zero_funits in Z2.
    rewrite Ub in Z2. apply round_to_0_eq in Z2.
    assert (Hlt : true = (funits 1 - funits a <? 0)%Z).
    { apply Sb. left. rewrite funits_one.
      pose proof (pow2_pos 1074 ltac:(lia)). lia. }
    symmetry in Hlt. apply Z.ltb_lt in Hlt. lia. }
  apply m_atan2_quadrant; auto using sqrt_nonneg.
Qed.

(** An angle within [0, pi/2] passes the checks of [math_2]. *)
Lemma math_atan2_returns (q1 q2 : float) :
  (0 <=? m_atan2 M q1 q2) = true ->
  (m_atan2 M q1 q2 <=? 0.5 * Py_MATH_PI) = true ->
  math_atan2 M q1 q2 = Return (m_atan2 M q1 q2).
Proof.
  intros H0 H1. unfold math_atan2, math_2.
  assert (F : is_finite (m_atan2 M q1 q2) = true)
    by (eapply finite_between; eauto; reflexivity).
  unfold is_finite in F. rewrite negb_true_iff in F.
  apply orb_false_elim in F as [-> ->]. reflexivity.
Qed.

Lemma angle_in_range (a q1 q2 t : float) :
  atan2_in_quadrant M -> is_finite a = true ->
  math_sqrt a = Return q1 -> math_sqrt (1 - a) = Return q2 ->
  math_atan2 M q1 q2 = Return t ->
  (0 <=? t) = true /\ (t <=? 0.5 * Py_MATH_PI) = true.
Proof.
  intros HM Fa H1 H2 H3. apply math_2_inv in H3 as (-> & _).
  now apply (angle_bounds a).
Qed.

Lemma distance_of_angle_in_range (t : float) :
  (0 <=? t) = true -> (t <=? 0.5 * Py_MATH_PI) = true ->
  (0 <=? 6371.0 * (2 * t)) = true
  /\ (6371.0 * (2 * t) <=? Py_MATH_PI * 6371.0) = true.
Proof.
  intros H0 H1.
  assert (Hc0 : (0 <=? 2 * t) = true)
    by (apply (mul_le_mono 2 2 0 t); try reflexivity;
        [assumption | eapply finite_between; eauto; reflexivity]).
  assert (Hc1 : (2 * t <=? Py_MATH_PI) = true)
    by (apply (mul_le_mono 2 2 t (0.5 * Py_MATH_PI)); auto; reflexivity).
  split.
  - apply (mul_le_mono 6371.0 6371.0 0 (2 * t)); try reflexivity;
      [assumption | eapply finite_between; eauto; reflexivity].
  - apply (mul_le_mono 6371.0 6371.0 (2 * t) Py_MATH_PI); auto; reflexivity.
Qed.

Lemma sub_not_nan x y :
  is_finite x = true -> is_finite y = true -> is_nan (x - y) = false.
Proof. intros Hx Hy. now destruct (sub_units x y Hx Hy). Qed.

Lemma haversine_in_range lat1 lon1 lat2 lon2 d :
  sin_in_range M -> cos_in_range M -> atan2_in_quadrant M ->
  is_finite lat1 = true -> is_finite lon1 = true ->
  is_finite lat2 = true -> is_finite lon2 = true ->
  haversine M lat1 lon1 lat2 lon2 = Return d ->
  (0 <=? d) = true /\ (d <=? Py_MATH_PI * 6371.0) = true.
Proof.
  intros Hsin Hcos Hatan F1 G1 F2 G2 H.
  unfold haversine in H.
  apply bind_inv in H as (s1 & H1 & H).
  apply bind_inv in H as (k1 & H2 & H).
  apply bind_inv in H as (k2 & H3 & H).
  apply bind_inv in H as (s2 & H4 & H).
  apply bind_inv in H as (q1 & H5 & H).
  apply bind_inv in H as (q2 & H6 & H).
  apply bind_inv in H as (t & H7 & H).
  injection H as <-.
  apply math_sin_in_range in H1;
    [| assumption | apply half_angle_not_nan, sub_not_nan; assumption].
  apply math_sin_in_range in H4;
    [| assumption | apply half_angle_not_nan, sub_not_nan; assumption].
  apply math_cos_in_range in H2;
    [| assumption
     | apply mul_not_nan; auto using is_finite_not_nan; reflexivity].
  apply math_cos_in_range in H3;
    [| assumption
     | apply mul_not_nan; auto using is_finite_not_nan; reflexivity].
  assert (Fa : is_finite (s1 * s1 + k1 * k2 * s2 * s2) = true)
    by (apply add_in_unit_interval; auto using mul_in_unit_interval).
  destruct (angle_in_range _ _ _ _ Hatan Fa H5 H6 H7) as [T0 T1].
  now apply distance_of_angle_in_range.
Qed.

End RangeOfDist.

Section IdentityOfDist.

Variable M : Libm.

Local Open Scope float_scope.

Lemma math_1_returns (f : float -> float) (x : float) :
  is_finite (f x) = true -> math_1 f x = Return (f x).
Proof.
  unfold math_1, is_finite. intros H. rewrite negb_true_iff in H.
  apply orb_false_elim in H as [-> ->]. reflexivity.
Qed.

Lemma math_cos_returns x :
  cos_in_range M -> is_finite x = true ->
  math_cos M x = Return (c_cos M x)
  /\ in_unit_interval (c_cos M x) = true.
Proof.
  intros HM Hx. split; [|now apply HM].
  apply math_1_returns, in_unit_interval_finite, HM, Hx.
Qed.

Lemma math_sin_returns x :
  sin_in_range M -> is_finite x = true ->
  math_sin M x = Return (c_sin M x)
  /\ in_unit_interval (c_sin M x) = true.
Proof.
  intros HM Hx. split; [|now apply HM].
  apply math_1_returns, in_unit_interval_finite, HM, Hx.
Qed.

Lemma math_radians_finite x :
  is_finite x = true -> is_finite (math_radians x) = true.
Proof. intros H. now apply mul_finite_unit_factor. Qed.

Lemma mul_zero_r x : is_finite x = true -> is_zero (x * 0) = true.
Proof.
  intros H. destruct (mul_units x 0 H eq_refl) as (Hn & _ & Hu).
  apply funits_zero; [assumption|].
  rewrite Hu. change (funits 0) with 0%Z. now rewrite Z.mul_0_r.
Qed.

Lemma is_zero_finite x : is_zero x = true -> is_finite x = true.
Proof. rewrite is_zero_spec, is_finite_spec. now destruct (Prim2SF x). Qed.

Lemma add_zero_zero z : is_zero z = true -> 0 + z = 0.
Proof.
  rewrite is_zero_spec. intros H. apply Prim2SF_inj. rewrite add_spec.
  change (Prim2SF 0) with (S754_zero false).
  destruct (Prim2SF z) as [[]| | |]; try discriminate; reflexivity.
Qed.

Lemma haversine_same_point lat lon :
  cos_in_range M -> is_finite lat = true -> is_finite lon = true ->
  haversine M lat lon lat lon = Return 0.
Proof.
  intros HM Flat Flon. unfold haversine.
  rewrite !sub_diag by assumption.
  change (math_radians 0 / 2) with 0.
  change (math_sin M 0) with (@Return float 0). cbn [bind].
  destruct (math_cos_returns (math_radians lat) HM
              (math_radians_finite lat Flat)) as [-> Hc].
  cbn [bind].
  set (c := c_cos M (math_radians lat)) in *.
  assert (Ha : 0 * 0 + c * c * 0 * 0 = 0).
  { change (0 * 0) with 0. apply add_zero_zero.
    apply mul_zero_r, is_zero_finite, mul_zero_r.
    apply in_unit_interval_finite. now apply mul_in_unit_interval. }
  rewrite Ha. reflexivity.
Qed.

End IdentityOfDist.

Section ReturnOfDist.

Variable M : Libm.

Local Open Scope float_scope.

Lemma half_angle_finite d :
  is_finite d = true -> is_finite (half_angle d) = true.
Proof. intros H. apply div_two_finite, math_radians_finite, H. Qed.

Lemma sqrt_not_nan a : (0 <=? a) = true -> is_nan (sqrt a) = false.
Proof.
  intros H. destruct (leb_true_not_nan _ _ H) as [_ Na].
  apply le_units in H. change (funits 0) with 0%Z in H. unfold funits in H.
  rewrite is_nan_spec in *. rewrite sqrt_spec. unfold SF64sqrt.
  pose proof cap_pos. pose proof (Prim2SF_valid a) as V.
  destruct (Prim2SF a) as [s|[]| |[] m e]; cbn [units cond_Zopp] in H;
    try discriminate; try reflexivity; try lia; cbn [valid_binary] in V.
  - pose proof (finite_units_bounds m e V). lia.
  - pose proof (SFsqrt_fin m e V) as F.
    now destruct (SFsqrt prec emax _).
Qed.

Lemma math_sqrt_returns a :
  (0 <=? a) = true -> is_finite a = true ->
  math_sqrt a = Return (sqrt a).
Proof.
  intros H F. apply math_1_returns, sqrt_finite; [assumption|].
  now apply sqrt_not_nan.
Qed.

(** [1 - a] for [a] between 0 and 1 *)
Lemma one_minus_in_range a :
  (0 <=? a) = true -> (a <=? 1) = true ->
  (0 <=? 1 - a) = true /\ is_finite (1 - a) = true.
Proof.
  intros H0 H1.
  assert (Fa : is_finite a = true)
    by (eapply finite_between; eauto; reflexivity).
  destruct (sub_units 1 a eq_refl Fa) as (N & U & _).
  apply le_units in H0, H1. change (funits 0) with 0%Z in H0.
  assert (B : (0 <= funits (1 - a) <= funits 1)%Z).
  { rewrite U. split.
    - rewrite <- (round_to_0 0) at 1. apply round_to_mono; lia.
    - rewrite <- (round_to_units_exact 0 1) at 2 by (lia || reflexivity).
      apply round_to_mono; lia. }
  split.
  - rewrite leb_units by (assumption || reflexivity). apply Z.leb_le.
    change (funits 0) with 0%Z. lia.
  - rewrite is_finite_units by assumption. apply Z.ltb_lt.
    rewrite funits_one in B. unfold cap.
    assert (2 ^ 1074 < 2 ^ 2098)%Z by (apply pow2_lt; lia). lia.
Qed.

(** The computation goes through when the four angles are finite and [a]
    comes out between 0 and 1. *)
Lemma haversine_returns lat1 lon1 lat2 lon2 :
  sin_in_range M -> cos_in_range M -> atan2_in_quadrant M ->
  is_finite lat1 = true -> is_finite lat2 = true ->
  is_finite (lat2 - lat1) = true -> is_finite (lon2 - lon1) = true ->
  (0 <=? haversine_a M lat1 lon1 lat2 lon2) = true ->
  (haversine_a M lat1 lon1 lat2 lon2 <=? 1) = true ->
  haversine M lat1 lon1 lat2 lon2
  = Return (haversine_value M lat1 lon1 lat2 lon2).
Proof.
  intros Hsin Hcos Hatan F1 F2 Dlat Dlon A0 A1.
  unfold haversine_value. unfold haversine, haversine_a in *.
  fold (half_angle (lat2 - lat1)) in *. fold (half_angle (lon2 - lon1)) in *.
  destruct (math_sin_returns M _ Hsin (half_angle_finite _ Dlat)) as [-> _].
  destruct (math_cos_returns M _ Hcos (math_radians_finite _ F1)) as [-> _].
  destruct (math_cos_returns M _ Hcos (math_radians_finite _ F2)) as [-> _].
  destruct (math_sin_returns M _ Hsin (half_angle_finite _ Dlon)) as [-> _].
  cbn [bind].
  set (a := c_sin M (half_angle (lat2 - lat1)) * c_sin M (half_angle (lat2 - lat1))
            + c_cos M (math_radians lat1) * c_cos M (math_radians lat2)
              * c_sin M (half_angle (lon2 - lon1))
              * c_sin M (half_angle (lon2 - lon1))) in *.
  assert (Fa : is_finite a = true)
    by (eapply finite_between; eauto; reflexivity).
  destruct (one_minus_in_range a A0 A1) as [B0 FB].
  pose proof (math_sqrt_returns a A0 Fa) as R1.
  pose proof (math_sqrt_returns (1 - a) B0 FB) as R2.
  destruct (angle_bounds M a _ _ Hatan Fa R1 R2) as [T0 T1].
  rewrite R1, R2. cbn [bind].
  rewrite (math_atan2_returns M _ _ T0 T1). reflexivity.
Qed.

(** Failure modes: with the C library as assumed, what [dist] raises on
    finite coordinates is the [ValueError] of the [math] module. *)
Lemma haversine_failure lat1 lon1 lat2 lon2 :
  sin_in_range M -> cos_in_range M -> atan2_in_quadrant M ->
  is_finite lat1 = true -> is_finite lon1 = true ->
  is_finite lat2 = true -> is_finite lon2 = true ->
  (exists d, haversine M lat1 lon1 lat2 lon2 = Return d)
  \/ haversine M lat1 lon1 lat2 lon2
     = Raise (ValueError "math domain error").
Proof.
  intros Hsin Hcos Hatan F1 G1 F2 G2. unfold haversine.
  fold (half_angle (lat2 - lat1)). fold (half_angle (lon2 - lon1)).
  pose proof (half_angle_not_nan _ (sub_not_nan _ _ F2 F1)) as N1.
  pose proof (half_angle_not_nan _ (sub_not_nan _ _ G2 G1)) as N2.
  destruct (math_sin M (half_angle (lat2 - lat1))) as [s1|e1] eqn:E1.
  2:{ destruct (math_1_cases (c_sin M) (half_angle (lat2 - lat1))) as [E|E];
        unfold math_sin in E1; rewrite E in E1; [discriminate|].
      injection E1 as <-. now right. }
  cbn [bind].
  destruct (math_cos_returns M _ Hcos (math_radians_finite _ F1)) as [-> C1].
  destruct (math_cos_returns M _ Hcos (math_radians_finite _ F2)) as [-> C2].
  cbn [bind].
  destruct (math_sin M (half_angle (lon2 - lon1))) as [s2|e2] eqn:E2.
  2:{ destruct (math_1_cases (c_sin M) (half_angle (lon2 - lon1))) as [E|E];
        unfold math_sin in E2; rewrite E in E2; [discriminate|].
      injection E2 as <-. now right. }
  cbn [bind].
  apply math_sin_in_range in E1; [| assumption | assumption].
  apply math_sin_in_range in E2; [| assumption | assumption].
  set (a := s1 * s1 + c_cos M (math_radians lat1) * c_cos M (math_radians lat2)
                      * s2 * s2).
  assert (Fa : is_finite a = true)
    by (apply add_in_unit_interval; auto using mul_in_unit_interval).
  destruct (math_sqrt a) as [q1|e] eqn:R1.
  2:{ destruct (math_1_cases sqrt a) as [E|E];
        unfold math_sqrt in R1; rewrite E in R1; [discriminate|].
      injection R1 as <-. now right. }
  cbn [bind].
  destruct (math_sqrt (1 - a)) as [q2|e] eqn:R2.
  2:{ destruct (math_1_cases sqrt (1 - a)) as [E|E];
        unfold math_sqrt in R2; rewrite E in R2; [discriminate|].
      injection R2 as <-. now right. }
  cbn [bind].
  destruct (angle_bounds M a _ _ Hatan Fa R1 R2) as [T0 T1].
  rewrite (math_atan2_returns M _ _ T0 T1). cbn [bind]. left. eauto.
Qed.

End ReturnOfDist.

(** ** The claims *)

Section Claims.

Variable M : Libm.

Local Open Scope float_scope.

(** C1: on two well-formed routes x = (a, b) and y = (c, d),
    [is_longer_trip] computes xtrip = dist(a,c) + dist(c,d) + dist(d,b)
    and ytrip = dist(c,a) + dist(a,b) + dist(b,d), in this order, and
    returns whether xtrip > ytrip; when the two sums are equal it returns
    false. *)
Theorem is_longer_trip_compares_trips (a1 a2 b1 b2 c1 c2 d1 d2 : float) :
  let a := point a1 a2 in
  let b := point b1 b2 in
  let c := point c1 c2 in
  let d := point d1 d2 in
  is_longer_trip M (route a b) (route c d) =
    (dac <- dist M a c ;; dcd <- dist M c d ;; ddb <- dist M d b ;;
     dca <- dist M c a ;; dab <- dist M a b ;; dbd <- dist M b d ;;
     let xtrip := trip dac dcd ddb in
     let ytrip := trip dca dab dbd in
     Return (ytrip <? xtrip))%py
  /\ (forall dac dcd ddb dca dab dbd : float,
        dist M a c = Return dac -> dist M c d = Return dcd ->
        dist M d b = Return ddb -> dist M c a = Return dca ->
        dist M a b = Return dab -> dist M b d = Return dbd ->
        (trip dac dcd ddb =? trip dca dab dbd) = true ->
        is_longer_trip M (route a b) (route c d) = Return false).
Proof.
  intros a b c d.
  assert (E : is_longer_trip M (route a b) (route c d) =
    (dac <- dist M a c ;; dcd <- dist M c d ;; ddb <- dist M d b ;;
     dca <- dist M c a ;; dab <- dist M a b ;; dbd <- dist M b d ;;
     Return (trip dca dab dbd <? trip dac dcd ddb))%py).
  { unfold a, b, c, d. rewrite is_longer_trip_on_routes.
    fold a b c d. unfold trip.
    destruct (dist M a c); simpl; [|reflexivity].
    destruct (dist M c d); simpl; [|reflexivity].
    destruct (dist M d b); simpl; [|reflexivity].
    destruct (dist M c a); simpl; [|reflexivity].
    destruct (dist M a b); simpl; [|reflexivity].
    destruct (dist M b d); simpl; [|reflexivity].
    now rewrite ltb_sum_from_zero. }
  split; [exact E|].
  intros dac dcd ddb dca dab dbd H1 H2 H3 H4 H5 H6 Heq.
  rewrite E, H1, H2, H3, H4, H5, H6. simpl.
  now rewrite (eqb_not_ltb _ _ Heq).
Qed.

(** C2: on two well-formed points [dist] is the haversine computation of
    the specification: a = sin^2(dphi/2) + cos(phi1) cos(phi2)
    sin^2(dlambda/2), c = 2 atan2(sqrt a, sqrt (1 - a)), distance
    = 6371.0 c, the angles being the radians of the latitudes and of the
    differences v2 minus v1. *)
Theorem dist_is_haversine (lat1 lon1 lat2 lon2 : float) :
  dist M (point lat1 lon1) (point lat2 lon2)
  = haversine M lat1 lon1 lat2 lon2
  /\ (forall d : float,
        dist M (point lat1 lon1) (point lat2 lon2) = Return d ->
        d = haversine_value M lat1 lon1 lat2 lon2).
Proof.
  split; [apply dist_on_points|].
  intros d. rewrite dist_on_points. apply haversine_inv.
Qed.

(** C3, where the code departs from it: a second route whose destination
    is a tuple of the wrong size is not turned down by the checks of
    [is_longer_trip].  An empty or one-item destination raises
    [IndexError]; a three-item destination passes the checks, a first
    distance is computed, and the [TypeError] comes from [dist]. *)
Theorem is_longer_trip_misses_destination_size :
  let o := point 0 0 in
  is_longer_trip M (route o o) (route o (VTuple []))
  = Raise (IndexError "tuple index out of range")
  /\ is_longer_trip M (route o o) (route o (VTuple [VFloat 0]))
     = Raise (IndexError "tuple index out of range")
  /\ dist M o o = Return 0
  /\ is_longer_trip M (route o o)
       (route o (VTuple [VFloat 0; VFloat 0; VFloat 0]))
     = Raise (TypeError
                "Invalid input to dist! Incorrect tuple size in arg[1]").
Proof. repeat split; vm_compute; reflexivity. Qed.

(** C10: a well-formed route compared with itself is never the longer
    one: [is_longer_trip(x, x)] is false as soon as its three distinct
    distances are computed. *)
Theorem is_longer_trip_same_route (a1 a2 b1 b2 : float) :
  let a := point a1 a2 in
  let b := point b1 b2 in
  is_longer_trip M (route a b) (route a b) =
    (daa <- dist M a a ;; dab <- dist M a b ;; dbb <- dist M b b ;;
     Return false)%py
  /\ (forall daa dab dbb : float,
        dist M a a = Return daa -> dist M a b = Return dab ->
        dist M b b = Return dbb ->
        is_longer_trip M (route a b) (route a b) = Return false).
Proof.
  intros a b.
  assert (E : is_longer_trip M (route a b) (route a b) =
    (daa <- dist M a a ;; dab <- dist M a b ;; dbb <- dist M b b ;;
     Return false)%py).
  { unfold a, b. rewrite is_longer_trip_on_routes. fold a b.
    destruct (dist M a a); simpl; [|reflexivity].
    destruct (dist M a b); simpl; [|reflexivity].
    destruct (dist M b b); simpl; [|reflexivity].
    now rewrite ltb_irrefl. }
  split; [exact E|].
  intros daa dab dbb Haa Hab Hbb. rewrite E, Haa, Hab, Hbb. reflexivity.
Qed.

End Claims.

(** C9: [coordinate_to_float(40, 45, 6, True)] is within a tenth of a
    percent of 40.7517, as the test harness measures it. *)
Theorem coordinate_to_float_new_york :
  exists v : float,
    coordinate_to_float (VInt 40) (VInt 45) (VInt 6) (VBool true) = Return v
    /\ within_tolerance v 40.7517 = true.
Proof. eexists. split; vm_compute; reflexivity. Qed.


(** ** The claims that rest on the C library *)

Section ClaimsOnLibm.

Variable M : Libm.

Local Open Scope float_scope.

(** C4, as amended: on well-formed points with finite coordinates the only
    failure of [dist] is the [ValueError] of the [math] module, which it
    raises for instance when a difference of coordinates overflows; it
    returns the haversine value whenever both differences are finite and
    the half chord length squared comes out between 0 and 1. *)
Theorem dist_returns_or_domain_error (lat1 lon1 lat2 lon2 : float) :
  sin_in_range M -> cos_in_range M -> atan2_in_quadrant M ->
  is_finite lat1 = true -> is_finite lon1 = true ->
  is_finite lat2 = true -> is_finite lon2 = true ->
  ((exists d, dist M (point lat1 lon1) (point lat2 lon2) = Return d)
   \/ dist M (point lat1 lon1) (point lat2 lon2)
      = Raise (ValueError "math domain error"))
  /\ (is_finite (lat2 - lat1) = true -> is_finite (lon2 - lon1) = true ->
      (0 <=? haversine_a M lat1 lon1 lat2 lon2) = true ->
      (haversine_a M lat1 lon1 lat2 lon2 <=? 1) = true ->
      dist M (point lat1 lon1) (point lat2 lon2)
      = Return (haversine_value M lat1 lon1 lat2 lon2)).
Proof.
  intros Hsin Hcos Hatan F1 G1 F2 G2. rewrite dist_on_points. split.
  - now apply haversine_failure.
  - intros. now apply haversine_returns.
Qed.

(** C5: the distance [dist] returns between two points with finite
    coordinates is at least 0 and at most pi * 6371.0. *)
Theorem dist_in_range (lat1 lon1 lat2 lon2 d : float) :
  sin_in_range M -> cos_in_range M -> atan2_in_quadrant M ->
  is_finite lat1 = true -> is_finite lon1 = true ->
  is_finite lat2 = true -> is_finite lon2 = true ->
  dist M (point lat1 lon1) (point lat2 lon2) = Return d ->
  (0 <=? d) = true /\ (d <=? Py_MATH_PI * 6371.0) = true.
Proof.
  intros Hsin Hcos Hatan F1 G1 F2 G2. rewrite dist_on_points.
  now apply haversine_in_range.
Qed.

(** C6: [dist] is symmetric.  With a sine that is odd the two calls yield
    the very same float (or the same exception), which is within any
    tolerance. *)
Theorem dist_symmetric (lat1 lon1 lat2 lon2 : float) :
  sin_odd M ->
  dist M (point lat1 lon1) (point lat2 lon2)
  = dist M (point lat2 lon2) (point lat1 lon1).
Proof. intros H. rewrite !dist_on_points. now apply haversine_symmetric. Qed.

(** C7: the distance of a point with finite coordinates to itself is
    exactly 0. *)
Theorem dist_same_point (lat lon : float) :
  cos_in_range M -> is_finite lat = true -> is_finite lon = true ->
  dist M (point lat lon) (point lat lon) = Return 0.
Proof. intros. rewrite dist_on_points. now apply haversine_same_point. Qed.

End ClaimsOnLibm.

(** C4, as stated, fails: the two latitudes are finite, their difference is
    not, and the sine of an infinite angle is a domain error whatever the C
    library. *)
Lemma dist_raises_on_overflow :
  is_finite (-0x1p+1023) = true /\ is_finite 0x1p+1023 = true
  /\ is_finite 0 = true
  /\ forall M : Libm,
       dist M (point (-0x1p+1023) 0) (point 0x1p+1023 0)
       = Raise (ValueError "math domain error").
Proof.
  split; [reflexivity|]. split; [reflexivity|]. split; [reflexivity|].
  intros M. vm_compute. reflexivity.
Qed.

Lemma dist_returns_or_domain_error_witness :
  is_finite (40.7517 - 37.7775) = true
  /\ is_finite (73.9942 - 122.4111) = true
  /\ (0 <=? haversine_a SeriesLibm.libm 37.7775 122.4111 40.7517 73.9942)%float
     = true
  /\ (haversine_a SeriesLibm.libm 37.7775 122.4111 40.7517 73.9942 <=? 1)%float
     = true
  /\ dist SeriesLibm.libm (point 37.7775 122.4111) (point 40.7517 73.9942)
     = Return (haversine_value SeriesLibm.libm
                 37.7775 122.4111 40.7517 73.9942).
Proof.
  split; [reflexivity|]. split; [reflexivity|].
  split; [vm_compute; reflexivity|]. split; [vm_compute; reflexivity|].
  apply (proj2 (dist_returns_or_domain_error SeriesLibm.libm
                  37.7775 122.4111 40.7517 73.9942
                  series_sin_in_range series_cos_in_range
                  series_atan2_in_quadrant
                  eq_refl eq_refl eq_refl eq_refl));
    vm_compute; reflexivity.
Defined.

Lemma dist_in_range_witness :
  exists d : float,
    dist SeriesLibm.libm (point 37.7775 122.4111) (point 40.7517 73.9942)
    = Return d
    /\ (0 <=? d)%float = true /\ (d <=? Py_MATH_PI * 6371.0)%float = true.
Proof.
  eexists. split; [vm_compute; reflexivity|].
  apply (dist_in_range SeriesLibm.libm 37.7775 122.4111 40.7517 73.9942 _
           series_sin_in_range series_cos_in_range series_atan2_in_quadrant);
    vm_compute; reflexivity.
Defined.

Lemma dist_symmetric_witness :
  dist SeriesLibm.libm (point 37.7775 122.4111) (point 40.7517 73.9942)
  = dist SeriesLibm.libm (point 40.7517 73.9942) (point 37.7775 122.4111).
Proof.
  exact (dist_symmetric SeriesLibm.libm 37.7775 122.4111 40.7517 73.9942
           series_sin_odd).
Defined.

Lemma dist_same_point_witness :
  dist SeriesLibm.libm (point 40.7517 73.9942) (point 40.7517 73.9942)
  = Return 0%float.
Proof.
  apply (dist_same_point SeriesLibm.libm 40.7517 73.9942
           series_cos_in_range); reflexivity.
Defined.

(** C8, as amended: for ints that convert to a float, that is of magnitude
    below [2^1024 - 2^970], [coordinate_to_float] returns degrees
    + minutes/60 + seconds/3600 in binary64 arithmetic when the sign is
    true, and the negation of that value when it is false. *)
Theorem coordinate_to_float_decimal_degrees (d m s : Z) (sign : bool) :
  (Z.abs d < int_limit)%Z -> (Z.abs m < int_limit)%Z ->
  (Z.abs s < int_limit)%Z ->
  coordinate_to_float (VInt d) (VInt m) (VInt s) (VBool sign)
  = let v := decimal_degrees (round_int d) (round_int m) (round_int s) in
    Return (if sign then v else (- v)%float).
Proof. apply coordinate_to_float_value. Qed.

(** C8, as stated, fails: an int beyond the range of the floats is an int
    all the same, and the conversion raises. *)
Lemma coordinate_to_float_overflows :
  coordinate_to_float (VInt (2 ^ 1024)) (VInt 0) (VInt 0) (VBool true)
  = Raise (OverflowError "int too large to convert to float").
Proof. vm_compute. reflexivity. Qed.

Lemma coordinate_to_float_decimal_degrees_witness :
  coordinate_to_float (VInt 22) (VInt 53) (VInt 43) (VBool false)
  = let v := decimal_degrees (round_int 22) (round_int 53) (round_int 43) in
    Return (if false then v else (- v)%float).
Proof.
  apply (coordinate_to_float_decimal_degrees 22 53 43 false); reflexivity.
Defined.
(** ** More on the arithmetic of the floats *)

Section MoreArithmetic.

Local Open Scope float_scope.

Lemma SFadd_comm x y : SFadd prec emax x y = SFadd prec emax y x.
Proof.
  destruct x as [sx|sx| |sx mx ex], y as [sy|sy| |sy my ey];
    cbn [SFadd]; try reflexivity; try (now destruct sx, sy).
  now rewrite (Z.min_comm ey ex), Z.add_comm.
Qed.

Lemma add_comm x y : x + y = y + x.
Proof. apply Prim2SF_inj. rewrite !add_spec. apply SFadd_comm. Qed.

Lemma sub_opp_opp x y : (- y) - (- x) = x - y.
Proof. now rewrite !sub_add_opp, opp_involutive, add_comm. Qed.

(** Not-a-number operands *)

Lemma mul_nan_l x y : is_nan x = true -> is_nan (x * y) = true.
Proof.
  rewrite !is_nan_spec, mul_spec. unfold SF64mul.
  now destruct (Prim2SF x), (Prim2SF y).
Qed.

Lemma mul_nan_r x y : is_nan y = true -> is_nan (x * y) = true.
Proof. rewrite mul_comm. apply mul_nan_l. Qed.

Lemma add_nan_l x y : is_nan x = true -> is_nan (x + y) = true.
Proof.
  rewrite !is_nan_spec, add_spec. unfold SF64add.
  now destruct (Prim2SF x), (Prim2SF y).
Qed.

Lemma add_nan_r x y : is_nan y = true -> is_nan (x + y) = true.
Proof. rewrite add_comm. apply add_nan_l. Qed.

Lemma sub_nan_l x y : is_nan x = true -> is_nan (x - y) = true.
Proof. rewrite sub_add_opp. apply add_nan_l. Qed.

Lemma sub_nan_r x y : is_nan y = true -> is_nan (x - y) = true.
Proof. rewrite sub_add_opp. intros H. apply add_nan_r. now rewrite is_nan_opp. Qed.

Lemma div_nan_l x y : is_nan x = true -> is_nan (x / y) = true.
Proof.
  rewrite !is_nan_spec, div_spec. unfold SF64div.
  now destruct (Prim2SF x), (Prim2SF y).
Qed.

Lemma sqrt_nan x : is_nan x = true -> is_nan (sqrt x) = true.
Proof.
  rewrite !is_nan_spec, sqrt_spec. unfold SF64sqrt.
  now destruct (Prim2SF x).
Qed.

Lemma is_nan_eq x : is_nan x = true -> x = nan.
Proof.
  intros H. apply Prim2SF_inj. rewrite is_nan_spec in H.
  now destruct (Prim2SF x).
Qed.

(** Infinite operands *)

Lemma mul_infinity_l x k :
  is_infinity x = true -> is_finite k = true -> is_zero k = false ->
  is_infinity (x * k) = true.
Proof.
  rewrite !is_infinity_spec, is_finite_spec, is_zero_spec, mul_spec.
  unfold SF64mul. now destruct (Prim2SF x), (Prim2SF k).
Qed.

Lemma div_infinity_l x k :
  is_infinity x = true -> is_finite k = true ->
  is_infinity (x / k) = true.
Proof.
  rewrite !is_infinity_spec, is_finite_spec, div_spec.
  unfold SF64div. now destruct (Prim2SF x), (Prim2SF k).
Qed.

Lemma half_angle_infinity d :
  is_infinity d = true -> is_infinity (half_angle d) = true.
Proof.
  intros H. unfold half_angle, math_radians.
  apply div_infinity_l; [|reflexivity]. now apply mul_infinity_l.
Qed.

Lemma math_radians_infinity d :
  is_infinity d = true -> is_infinity (math_radians d) = true.
Proof. intros H. unfold math_radians. now apply mul_infinity_l. Qed.

Lemma half_angle_nan d : is_nan d = true -> is_nan (half_angle d) = true.
Proof.
  intros H. unfold half_angle, math_radians. now apply div_nan_l, mul_nan_l.
Qed.

Lemma math_radians_nan d : is_nan d = true -> is_nan (math_radians d) = true.
Proof. intros H. unfold math_radians. now apply mul_nan_l. Qed.

Lemma nan_or_infinity_or_finite x :
  is_nan x = true \/ is_infinity x = true \/ is_finite x = true.
Proof.
  unfold is_finite. destruct (is_nan x); [now left|].
  destruct (is_infinity x); [right; now left | right; now right].
Qed.

Lemma infinity_not_nan x : is_infinity x = true -> is_nan x = false.
Proof.
  rewrite is_infinity_spec, is_nan_spec. now destruct (Prim2SF x).
Qed.

Lemma sub_infinity_l x y :
  is_infinity x = true ->
  is_infinity (y - x) = true \/ is_nan (y - x) = true.
Proof.
  rewrite !is_infinity_spec, is_nan_spec, sub_spec. unfold SF64sub.
  destruct (Prim2SF x) as [sx|sx| |sx mx ex], (Prim2SF y) as [sy|sy| |sy my ey];
    try discriminate; cbn; auto.
  destruct sx, sy; cbn; auto.
Qed.

Lemma sub_infinity_r x y :
  is_infinity y = true ->
  is_infinity (y - x) = true \/ is_nan (y - x) = true.
Proof.
  rewrite !is_infinity_spec, is_nan_spec, sub_spec. unfold SF64sub.
  destruct (Prim2SF x) as [sx|sx| |sx mx ex], (Prim2SF y) as [sy|sy| |sy my ey];
    try discriminate; cbn; auto.
  destruct sx, sy; cbn; auto.
Qed.

End MoreArithmetic.

Section Monotone.

Local Open Scope float_scope.

Lemma funits_bounds x : (- cap <= funits x <= cap)%Z.
Proof.
  unfold funits. pose proof (Prim2SF_valid x) as V. pose proof cap_pos.
  destruct (Prim2SF x) as [s|s| |s m e]; cbn [units]; try lia.
  - destruct s; cbn [cond_Zopp]; lia.
  - pose proof (finite_units_bounds m e V). destruct s; cbn [cond_Zopp]; lia.
Qed.

Lemma infinite_units x :
  is_nan x = false -> is_finite x = false -> (Z.abs (funits x) = cap)%Z.
Proof.
  intros N F. rewrite (is_finite_units x N) in F. apply Z.ltb_ge in F.
  pose proof (funits_bounds x). lia.
Qed.

Lemma add_infinity_l x y :
  is_infinity x = true -> is_nan (x + y) = false -> x + y = x.
Proof.
  rewrite is_infinity_spec, is_nan_spec, add_spec. unfold SF64add.
  intros Hx Hn.
  assert (E : SFadd prec emax (Prim2SF x) (Prim2SF y) = Prim2SF x).
  { revert Hx Hn.
    destruct (Prim2SF x) as [sx|sx| |sx mx ex]; try discriminate.
    destruct (Prim2SF y) as [sy|sy| |sy my ey]; cbn [SFadd];
      try reflexivity; try discriminate.
    now destruct sx, sy. }
  apply Prim2SF_inj. now rewrite add_spec.
Qed.

Lemma add_infinity_r x y :
  is_infinity y = true -> is_nan (x + y) = false -> x + y = y.
Proof. rewrite add_comm. apply add_infinity_l. Qed.

Lemma not_finite_infinity x :
  is_nan x = false -> is_finite x = false -> is_infinity x = true.
Proof.
  unfold is_finite. intros -> H. now apply negb_false_iff in H.
Qed.

Lemma leb_refl x : is_nan x = false -> (x <=? x) = true.
Proof. intros H. rewrite leb_units by assumption. apply Z.leb_refl. Qed.

Lemma add_nan_inv x y :
  is_nan (x + y) = false -> is_nan x = false /\ is_nan y = false.
Proof.
  intros H. split.
  - destruct (is_nan x) eqn:E; [|reflexivity].
    now rewrite (add_nan_l x y E) in H.
  - destruct (is_nan y) eqn:E; [|reflexivity].
    now rewrite (add_nan_r x y E) in H.
Qed.

(** Adding the same float to both sides keeps the order. *)
Lemma add_le_mono_l z x y :
  (x <=? y) = true ->
  is_nan (z + x) = false -> is_nan (z + y) = false ->
  (z + x <=? z + y) = true.
Proof.
  intros L Nx Ny.
  destruct (leb_true_not_nan _ _ L) as [Hx Hy].
  destruct (add_nan_inv _ _ Nx) as [Hz _].
  apply le_units in L.
  destruct (is_finite z) eqn:Fz.
  2:{ pose proof (not_finite_infinity z Hz Fz) as Iz.
      rewrite (add_infinity_l z x Iz Nx), (add_infinity_l z y Iz Ny).
      now apply leb_refl. }
  rewrite leb_units by assumption. apply Z.leb_le.
  pose proof (funits_bounds (z + x)). pose proof (funits_bounds (z + y)).
  destruct (is_finite x) eqn:Fx, (is_finite y) eqn:Fy.
  - destruct (add_units z x Fz Fx) as (_ & -> & _).
    destruct (add_units z y Fz Fy) as (_ & -> & _).
    apply round_to_mono; lia.
  - pose proof (not_finite_infinity y Hy Fy) as Iy.
    rewrite (add_infinity_r z y Iy Ny).
    pose proof (infinite_units y Hy Fy).
    rewrite (is_finite_units x Hx) in Fx. apply Z.ltb_lt in Fx. lia.
  - pose proof (not_finite_infinity x Hx Fx) as Ix.
    rewrite (add_infinity_r z x Ix Nx).
    pose proof (infinite_units x Hx Fx).
    rewrite (is_finite_units y Hy) in Fy. apply Z.ltb_lt in Fy. lia.
  - pose proof (not_finite_infinity x Hx Fx) as Ix.
    pose proof (not_finite_infinity y Hy Fy) as Iy.
    now rewrite (add_infinity_r z x Ix Nx), (add_infinity_r z y Iy Ny).
Qed.

Lemma add_le_mono_r z x y :
  (x <=? y) = true ->
  is_nan (x + z) = false -> is_nan (y + z) = false ->
  (x + z <=? y + z) = true.
Proof. rewrite (add_comm x z), (add_comm y z). apply add_le_mono_l. Qed.

(** Of two trips that differ in their middle leg only, the one with the
    shorter middle leg is not the longer one. *)
Lemma trip_mono p q s r :
  (s <? q) = false -> (trip p s r <? trip p q r) = false.
Proof.
  intros H. unfold trip.
  destruct (p + s + r <? p + q + r) eqn:E; [|reflexivity].
  destruct (ltb_true_not_nan _ _ E) as [NY NX].
  destruct (add_nan_inv _ _ NY) as [NY1 _].
  destruct (add_nan_inv _ _ NX) as [NX1 _].
  destruct (add_nan_inv _ _ NY1) as [_ Ns].
  destruct (add_nan_inv _ _ NX1) as [_ Nq].
  pose proof (not_ltb_leb s q Ns Nq H) as L.
  pose proof (add_le_mono_l p q s L NX1 NY1) as L1.
  pose proof (add_le_mono_r r _ _ L1 NX NY) as L2.
  apply le_units in L2. apply lt_units in E. lia.
Qed.

End Monotone.

(** ** Coordinates that are not finite, and mirrored ones *)

Section NonFiniteCoordinates.

Variable M : Libm.

Local Open Scope float_scope.

Lemma math_sin_infinity x :
  is_infinity x = true ->
  math_sin M x = Raise (ValueError "math domain error").
Proof.
  intros H. unfold math_sin, math_1, c_sin.
  rewrite H, (infinity_not_nan x H). reflexivity.
Qed.

Lemma math_cos_infinity x :
  is_infinity x = true ->
  math_cos M x = Raise (ValueError "math domain error").
Proof.
  intros H. unfold math_cos, math_1, c_cos.
  rewrite H, (infinity_not_nan x H). reflexivity.
Qed.

Lemma haversine_infinite lat1 lon1 lat2 lon2 :
  is_infinity lat1 = true \/ is_infinity lat2 = true
  \/ is_infinity (lat2 - lat1) = true \/ is_infinity (lon2 - lon1) = true ->
  haversine M lat1 lon1 lat2 lon2 = Raise (ValueError "math domain error").
Proof.
  intros H. rewrite haversine_angles. unfold haversine_of_angles.
  destruct (is_infinity (lat2 - lat1)) eqn:I0.
  { now rewrite (math_sin_infinity _ (half_angle_infinity _ I0)). }
  unfold math_sin at 1.
  destruct (math_1_cases (c_sin M) (half_angle (lat2 - lat1))) as [-> | ->];
    cbn [bind]; [|reflexivity].
  destruct (is_infinity lat1) eqn:I1.
  { now rewrite (math_cos_infinity _ (math_radians_infinity _ I1)). }
  unfold math_cos at 1.
  destruct (math_1_cases (c_cos M) (math_radians lat1)) as [-> | ->];
    cbn [bind]; [|reflexivity].
  destruct (is_infinity lat2) eqn:I2.
  { now rewrite (math_cos_infinity _ (math_radians_infinity _ I2)). }
  unfold math_cos at 1.
  destruct (math_1_cases (c_cos M) (math_radians lat2)) as [-> | ->];
    cbn [bind]; [|reflexivity].
  destruct H as [H | [H | [H | H]]]; try discriminate.
  now rewrite (math_sin_infinity _ (half_angle_infinity _ H)).
Qed.

Lemma math_1_nan (f : float -> float) (x : float) :
  is_nan x = true -> is_nan (f x) = true -> math_1 f x = Return (f x).
Proof.
  intros Hx Hf. unfold math_1.
  assert (I : is_infinity (f x) = false).
  { rewrite is_infinity_spec. rewrite is_nan_spec in Hf.
    now destruct (Prim2SF (f x)). }
  now rewrite Hx, Hf, I.
Qed.

Lemma c_sin_nan x : is_nan x = true -> c_sin M x = nan.
Proof. intros H. unfold c_sin. now rewrite H. Qed.

Lemma c_cos_nan x : is_nan x = true -> c_cos M x = nan.
Proof. intros H. unfold c_cos. now rewrite H. Qed.

Lemma math_sin_no_infinity x :
  sin_in_range M -> is_infinity x = false ->
  math_sin M x = Return (c_sin M x).
Proof.
  intros HM H. destruct (nan_or_infinity_or_finite x) as [N | [I | F]].
  - apply math_1_nan; [assumption|]. now rewrite c_sin_nan.
  - congruence.
  - now apply math_sin_returns.
Qed.

Lemma math_cos_no_infinity x :
  cos_in_range M -> is_infinity x = false ->
  math_cos M x = Return (c_cos M x).
Proof.
  intros HM H. destruct (nan_or_infinity_or_finite x) as [N | [I | F]].
  - apply math_1_nan; [assumption|]. now rewrite c_cos_nan.
  - congruence.
  - now apply math_cos_returns.
Qed.

Lemma finite_not_infinity x : is_finite x = true -> is_infinity x = false.
Proof.
  unfold is_finite. intros H. apply negb_true_iff, orb_false_elim in H.
  tauto.
Qed.

Lemma nan_not_infinity x : is_nan x = true -> is_infinity x = false.
Proof. rewrite is_infinity_spec, is_nan_spec. now destruct (Prim2SF x). Qed.

Lemma half_angle_no_infinity d :
  is_infinity d = false -> is_infinity (half_angle d) = false.
Proof.
  intros H. destruct (nan_or_infinity_or_finite d) as [N | [I | F]].
  - apply nan_not_infinity, half_angle_nan, N.
  - congruence.
  - apply finite_not_infinity, div_two_finite, math_radians_finite, F.
Qed.

Lemma math_radians_no_infinity d :
  is_infinity d = false -> is_infinity (math_radians d) = false.
Proof.
  intros H. destruct (nan_or_infinity_or_finite d) as [N | [I | F]].
  - apply nan_not_infinity, math_radians_nan, N.
  - congruence.
  - apply finite_not_infinity, math_radians_finite, F.
Qed.

Lemma haversine_nan lat1 lon1 lat2 lon2 :
  sin_in_range M -> cos_in_range M ->
  is_infinity lat1 = false -> is_infinity lat2 = false ->
  is_infinity (lat2 - lat1) = false -> is_infinity (lon2 - lon1) = false ->
  is_nan lat1 = true \/ is_nan lat2 = true
  \/ is_nan lon1 = true \/ is_nan lon2 = true ->
  haversine M lat1 lon1 lat2 lon2 = Return nan.
Proof.
  intros Hsin Hcos I1 I2 I3 I4 H.
  rewrite haversine_angles. unfold haversine_of_angles.
  rewrite (math_sin_no_infinity _ Hsin (half_angle_no_infinity _ I3)).
  rewrite (math_cos_no_infinity _ Hcos (math_radians_no_infinity _ I1)).
  rewrite (math_cos_no_infinity _ Hcos (math_radians_no_infinity _ I2)).
  rewrite (math_sin_no_infinity _ Hsin (half_angle_no_infinity _ I4)).
  cbn [bind].
  set (a := c_sin M (half_angle (lat2 - lat1)) * _ + _).
  assert (A : a = nan).
  { apply is_nan_eq. unfold a.
    assert (N : is_nan (lat2 - lat1) = true \/ is_nan (lon2 - lon1) = true).
    { destruct H as [H | [H | [H | H]]].
      - left. now apply sub_nan_r.
      - left. now apply sub_nan_l.
      - right. now apply sub_nan_r.
      - right. now apply sub_nan_l. }
    destruct N as [N | N].
    - apply add_nan_l, mul_nan_l.
      now rewrite (c_sin_nan _ (half_angle_nan _ N)).
    - apply add_nan_r, mul_nan_r.
      now rewrite (c_sin_nan _ (half_angle_nan _ N)). }
  rewrite A. reflexivity.
Qed.

End NonFiniteCoordinates.

Section Mirror.

Variable M : Libm.

Local Open Scope float_scope.

Lemma math_cos_opp x : cos_even M -> math_cos M (- x) = math_cos M x.
Proof.
  intros H. unfold math_cos, math_1.
  now rewrite H, is_nan_opp, is_finite_opp.
Qed.

Lemma math_radians_opp x : math_radians (- x) = - math_radians x.
Proof. unfold math_radians. apply mul_opp_l. Qed.

Lemma haversine_mirror_longitudes lat1 lon1 lat2 lon2 :
  sin_odd M ->
  haversine M lat1 (- lon1) lat2 (- lon2) = haversine M lat1 lon1 lat2 lon2.
Proof.
  intros Hodd. rewrite !haversine_angles, sub_opp_opp.
  destruct (half_angle_sub_swap lon2 lon1) as [-> | ->];
    now rewrite ?haversine_of_angles_opp_r.
Qed.

Lemma haversine_mirror_latitudes lat1 lon1 lat2 lon2 :
  sin_odd M -> cos_even M ->
  haversine M (- lat1) lon1 (- lat2) lon2 = haversine M lat1 lon1 lat2 lon2.
Proof.
  intros Hodd Heven. rewrite !haversine_angles, sub_opp_opp.
  rewrite !math_radians_opp.
  assert (E : forall u v1 v2 w,
             haversine_of_angles M u (- v1) (- v2) w
             = haversine_of_angles M u v1 v2 w).
  { intros u v1 v2 w. unfold haversine_of_angles.
    now rewrite !math_cos_opp. }
  rewrite E.
  destruct (half_angle_sub_swap lat2 lat1) as [-> | ->];
    now rewrite ?haversine_of_angles_opp_l.
Qed.

End Mirror.

Lemma series_cos_even : cos_even SeriesLibm.libm.
Proof.
  intros x. unfold c_cos.
  rewrite is_nan_opp, is_infinity_opp, is_zero_opp.
  destruct (is_nan x) eqn:Nx; [reflexivity|].
  destruct (is_infinity x) eqn:Ix; [reflexivity|]. cbn [orb].
  destruct (is_zero x) eqn:Zx; [reflexivity|].
  cbn [libm_cos SeriesLibm.libm]. unfold SeriesLibm.cos.
  rewrite (ltb_opp_zero x Nx).
  destruct (x <? 0)%float eqn:L.
  - rewrite (ltb_not_ltb _ _ L). reflexivity.
  - assert (P : (0 <? x)%float = true).
    { rewrite ltb_units in * by (assumption || reflexivity).
      change (funits 0) with 0%Z in *. apply Z.ltb_ge in L. apply Z.ltb_lt.
      destruct (Z.eq_dec (funits x) 0) as [E|NE]; [|lia].
      rewrite (funits_zero x Nx E) in Zx. discriminate. }
    rewrite P. now rewrite opp_involutive.
Qed.

(** ** The checks of [is_longer_trip] *)

Section MoreValidation.

Variable M : Libm.

Local Open Scope string_scope.

Ltac turned_down :=
  first
    [ eexists; reflexivity
    | cbn -[len List.length Z.of_nat String.append];
      unfold len; cbn [bind]; rewrite len_long; eexists; reflexivity ].

Lemma is_longer_trip_rejects_first (x y : value) :
  is_route x = false ->
  exists msg,
    is_longer_trip M x y
    = Raise (TypeError ("Invalid input to is_longer_trip! " ++ msg)).
Proof.
  intros H. unfold is_longer_trip, raise_if.
  destruct x as [ | | | | |[|x0 [|x1 [|x2 r]]]|]; try turned_down.
  destruct x0 as [ | | | | |[|e0 [|e1 [|e2 r0]]]|]; try turned_down.
  destruct e0; try turned_down.
  destruct e1; try turned_down.
  destruct x1 as [ | | | | |[|g0 [|g1 [|g2 r1]]]|]; try turned_down.
  destruct g0; try turned_down.
  destruct g1; try turned_down.
  discriminate H.
Qed.

Lemma bind_Raise {A B : Type} (e : exn) (k : A -> result B) :
  bind (Raise e) k = Raise e.
Proof. reflexivity. Qed.

Lemma is_longer_trip_rejects_second (a1 a2 b1 b2 : float) (y : value) :
  is_route y = false ->
  exists e,
    is_longer_trip M (route (point a1 a2) (point b1 b2)) y = Raise e.
Proof.
  intros H. unfold is_longer_trip, raise_if, route, point.
  destruct y as [ | | | | |[|y0 [|y1 [|y2 r]]]|]; try turned_down.
  destruct y0 as [ | | | | |[|e0 [|e1 [|e2 r0]]]|]; try turned_down.
  destruct e0 as [ | | |c1| | | ]; try turned_down.
  destruct e1 as [ | | |c2| | | ]; try turned_down.
  destruct y1 as [ | | | | |[|g0 [|g1 [|g2 r1]]]|]; try turned_down.
  - destruct g0; turned_down.
  - destruct g0; try turned_down.
    destruct g1; try turned_down.
    discriminate H.
  - destruct g0 as [ | | |d1| | | ]; try turned_down.
    destruct g1 as [ | | |d2| | | ]; try turned_down.
    set (a := VTuple [VFloat a1; VFloat a2]).
    set (b := VTuple [VFloat b1; VFloat b2]).
    set (c := VTuple [VFloat c1; VFloat c2]).
    set (d := VTuple (VFloat d1 :: VFloat d2 :: g2 :: r1)).
    simpl.
    destruct (dist M a c); cbn [bind]; [|eexists; reflexivity].
    destruct (dist_rejects M c d eq_refl) as [msg ->].
    eexists; reflexivity.
Qed.

End MoreValidation.

(** ** Failures and comparisons of trips *)

Section Failures.

Variable M : Libm.

Local Open Scope float_scope.

Lemma math_2_cases (f : float -> float -> float) (x y : float) :
  math_2 f x y = Return (f x y)
  \/ math_2 f x y = Raise (ValueError "math domain error")
  \/ math_2 f x y = Raise (OverflowError "math range error").
Proof.
  unfold math_2.
  destruct (is_nan (f x y)).
  - destruct (negb (is_nan x) && negb (is_nan y)); auto.
  - destruct (is_infinity (f x y)); auto.
    destruct (is_finite x && is_finite y); auto.
Qed.

Lemma haversine_raises lat1 lon1 lat2 lon2 e :
  haversine M lat1 lon1 lat2 lon2 = Raise e ->
  e = ValueError "math domain error"
  \/ e = OverflowError "math range error".
Proof.
  unfold haversine, math_sin, math_cos, math_sqrt, math_atan2.
  destruct (math_1_cases (c_sin M) (math_radians (lat2 - lat1) / 2))
    as [-> | ->]; cbn [bind]; [|intros [= <-]; now left].
  destruct (math_1_cases (c_cos M) (math_radians lat1))
    as [-> | ->]; cbn [bind]; [|intros [= <-]; now left].
  destruct (math_1_cases (c_cos M) (math_radians lat2))
    as [-> | ->]; cbn [bind]; [|intros [= <-]; now left].
  destruct (math_1_cases (c_sin M) (math_radians (lon2 - lon1) / 2))
    as [-> | ->]; cbn [bind]; [|intros [= <-]; now left].
  match goal with
  | |- context [math_1 sqrt ?a] =>
      destruct (math_1_cases sqrt a) as [-> | ->]; cbn [bind];
      [|intros [= <-]; now left]
  end.
  match goal with
  | |- context [math_1 sqrt ?a] =>
      destruct (math_1_cases sqrt a) as [-> | ->]; cbn [bind];
      [|intros [= <-]; now left]
  end.
  match goal with
  | |- context [math_2 (m_atan2 M) ?a ?b] =>
      destruct (math_2_cases (m_atan2 M) a b) as [-> | [-> | ->]];
      cbn [bind]; [discriminate | |]; intros [= <-]; auto
  end.
Qed.

Lemma is_longer_trip_raises (a1 a2 b1 b2 c1 c2 d1 d2 : float) (e : exn) :
  is_longer_trip M (route (point a1 a2) (point b1 b2))
    (route (point c1 c2) (point d1 d2)) = Raise e ->
  e = ValueError "math domain error"
  \/ e = OverflowError "math range error".
Proof.
  rewrite is_longer_trip_on_routes. cbv zeta. rewrite !dist_on_points.
  repeat match goal with
  | |- context [bind (haversine M ?p ?q ?r ?s)] =>
      destruct (haversine M p q r s) eqn:?; cbn [bind];
      [|intros [= <-]; eapply haversine_raises; eassumption]
  end.
  discriminate.
Qed.

Lemma is_longer_trip_returns_routes (x y : value) (r : bool) :
  is_longer_trip M x y = Return r ->
  is_route x = true /\ is_route y = true.
Proof.
  intros H.
  destruct (is_route x) eqn:Rx.
  2:{ destruct (is_longer_trip_rejects_first M x y Rx) as [msg E].
      congruence. }
  destruct (is_route y) eqn:Ry; [now split|].
  apply is_route_inv in Rx as (a1 & a2 & b1 & b2 & ->).
  destruct (is_longer_trip_rejects_second M a1 a2 b1 b2 y Ry) as [e E].
  congruence.
Qed.

Lemma is_longer_trip_asymmetric_on_routes (a1 a2 b1 b2 c1 c2 d1 d2 : float) :
  is_longer_trip M (route (point a1 a2) (point b1 b2))
    (route (point c1 c2) (point d1 d2)) = Return true ->
  is_longer_trip M (route (point c1 c2) (point d1 d2))
    (route (point a1 a2) (point b1 b2)) = Return false.
Proof.
  rewrite !is_longer_trip_on_routes. cbv zeta. intros H.
  apply bind_inv in H as (dac & E1 & H).
  apply bind_inv in H as (dcd & E2 & H).
  apply bind_inv in H as (ddb & E3 & H).
  apply bind_inv in H as (dca & E4 & H).
  apply bind_inv in H as (dab & E5 & H).
  apply bind_inv in H as (dbd & E6 & H).
  rewrite E1, E2, E3, E4, E5, E6. cbn [bind].
  injection H as H. now rewrite (ltb_not_ltb _ _ H).
Qed.

Lemma is_longer_trip_asymmetric_on_values (x y : value) :
  is_longer_trip M x y = Return true ->
  is_longer_trip M y x = Return false.
Proof.
  intros H. destruct (is_longer_trip_returns_routes x y true H) as [Rx Ry].
  apply is_route_inv in Rx as (a1 & a2 & b1 & b2 & ->).
  apply is_route_inv in Ry as (c1 & c2 & d1 & d2 & ->).
  now apply is_longer_trip_asymmetric_on_routes.
Qed.

Lemma is_longer_trip_direct (a1 a2 b1 b2 c1 c2 d1 d2 : float) :
  sin_odd M ->
  is_longer_trip M (route (point a1 a2) (point b1 b2))
    (route (point c1 c2) (point d1 d2)) = Return true ->
  exists dab dcd : float,
    dist M (point a1 a2) (point b1 b2) = Return dab
    /\ dist M (point c1 c2) (point d1 d2) = Return dcd
    /\ (dab <? dcd) = true.
Proof.
  intros Hodd. rewrite is_longer_trip_on_routes. cbv zeta.
  rewrite !dist_on_points.
  rewrite (haversine_symmetric M c1 c2 a1 a2 Hodd).
  rewrite (haversine_symmetric M b1 b2 d1 d2 Hodd).
  intros H.
  apply bind_inv in H as (p & E1 & H).
  apply bind_inv in H as (q & E2 & H).
  apply bind_inv in H as (r & E3 & H).
  apply bind_inv in H as (p' & E4 & H).
  apply bind_inv in H as (s & E5 & H).
  apply bind_inv in H as (r' & E6 & H).
  assert (p' = p) as -> by congruence.
  assert (r' = r) as -> by congruence.
  exists s, q. repeat split; try assumption.
  injection H as H. rewrite ltb_sum_from_zero in H.
  destruct (s <? q) eqn:L; [reflexivity|].
  pose proof (trip_mono p q s r L) as T. unfold trip in T. congruence.
Qed.

End Failures.

(** ** The tolerance of the tests and the sign of a coordinate *)

Section Tolerance.

Local Open Scope float_scope.

Lemma sub_mul_infinity t :
  is_infinity t = true -> is_nan (t - t * 0.001) = true.
Proof.
  rewrite is_infinity_spec, is_nan_spec, sub_spec, mul_spec.
  unfold SF64sub, SF64mul.
  assert (K : exists m e, Prim2SF 0.001 = S754_finite false m e)
    by (vm_compute; eauto).
  destruct K as (m & e & ->).
  destruct (Prim2SF t) as [s|s| |s mt et]; try discriminate.
  now destruct s.
Qed.

Lemma within_tolerance_bounds value target :
  within_tolerance value target = true ->
  (target - target * 0.001 <? value) = true
  /\ (value <? target + target * 0.001) = true.
Proof.
  unfold within_tolerance.
  destruct (target - target * 0.001 <? value); [|discriminate].
  destruct (value <? target + target * 0.001); [|discriminate].
  now split.
Qed.

Lemma within_tolerance_sign value target :
  within_tolerance value target = true ->
  (0 <? target) = true /\ (0 <? value) = true.
Proof.
  intros H. apply within_tolerance_bounds in H as [B T].
  destruct (ltb_true_not_nan _ _ B) as [Nb Nv].
  destruct (ltb_true_not_nan _ _ T) as [_ Nt].
  apply lt_units in B, T.
  destruct (nan_or_infinity_or_finite target) as [N | [I | F]].
  - now rewrite (sub_nan_l target (target * 0.001) N) in Nb.
  - now rewrite (sub_mul_infinity target I) in Nb.
  - assert (K : in_unit_interval 0.001 = true) by reflexivity.
    assert (Kf : is_finite 0.001 = true) by reflexivity.
    assert (Kp : (0 < funits 0.001)%Z) by (vm_compute; reflexivity).
    destruct (mul_units target 0.001 F Kf) as (Np & _ & Up).
    destruct (mul_unit_factor target 0.001 F K) as (_ & Ap).
    pose proof (mul_finite_unit_factor target 0.001 F K) as Fp.
    destruct (sub_units target _ F Fp) as (_ & Ub & _).
    destruct (add_units target _ F Fp) as (_ & Ut & _).
    set (ft := funits target) in *. set (fp := funits (target * 0.001)) in *.
    assert (P : (0 < fp)%Z).
    { destruct (Z.lt_ge_cases 0 fp) as [P|P]; [exact P|].
      assert (round_to 0 (ft + fp) <= round_to 0 (ft - fp))%Z
        by (apply round_to_mono; lia).
      lia. }
    assert (Pt : (0 < ft)%Z).
    { destruct (Z.lt_ge_cases 0 ft) as [Q|Q]; [exact Q|].
      assert (round_to 1074 (ft * funits 0.001) <= round_to 1074 0)%Z
        by (apply round_to_mono; [lia | apply Z.mul_nonpos_nonneg; lia]).
      rewrite round_to_0 in *. lia. }
    assert (Pb : (0 <= round_to 0 (ft - fp))%Z).
    { pose proof (round_to_mono 0 0 (ft - fp)) as R.
      rewrite round_to_0 in R. apply R; lia. }
    split.
    + rewrite ltb_units by (try reflexivity; now apply is_finite_not_nan).
      apply Z.ltb_lt. exact Pt.
    + rewrite ltb_units by (reflexivity || assumption).
      apply Z.ltb_lt. change (funits 0) with 0%Z. lia.
Qed.

End Tolerance.

Section CoordinateSign.

Local Open Scope float_scope.

Lemma SFadd_nonneg x y :
  valid_binary x = true -> valid_binary y = true ->
  x <> S754_nan -> y <> S754_nan ->
  sign_of x = false -> sign_of y = false ->
  SFadd prec emax x y <> S754_nan /\ sign_of (SFadd prec emax x y) = false.
Proof.
  intros Vx Vy Nx Ny Sx Sy.
  destruct x as [sx|sx| |sx mx ex], y as [sy|sy| |sy my ey];
    cbn [sign_of] in Sx, Sy; subst; try congruence;
    cbn [SFadd Bool.eqb sign_of]; try (split; [discriminate | reflexivity]).
  destruct (bounded_inv mx ex Vx) as (Bx & _).
  destruct (bounded_inv my ey Vy) as (By & _).
  cbn [cond_Zopp].
  match goal with
  | |- context [binary_normalize _ _ ?z ?e false] =>
      destruct (binary_normalize_units z e ltac:(lia)) as (N & _ & S & _)
  end.
  split; [exact N|]. rewrite S. apply Z.ltb_ge. lia.
Qed.

Lemma add_nonneg x y :
  is_nan x = false -> get_sign x = false ->
  is_nan y = false -> get_sign y = false ->
  is_nan (x + y) = false /\ get_sign (x + y) = false.
Proof.
  intros Nx Sx Ny Sy. rewrite get_sign_sign_of in *.
  destruct (SFadd_nonneg (Prim2SF x) (Prim2SF y) (Prim2SF_valid x)
              (Prim2SF_valid y) (not_nan_SF x Nx) (not_nan_SF y Ny) Sx Sy)
    as [N S].
  rewrite <- add_spec in N, S. split; [now apply SF_not_nan | exact S].
Qed.

Lemma div_nonneg x k :
  is_nan x = false -> get_sign x = false ->
  is_finite k = true -> is_zero k = false -> get_sign k = false ->
  is_nan (x / k) = false /\ get_sign (x / k) = false.
Proof.
  intros Nx Sx Fk Zk Sk. split; [now apply div_not_nan|].
  revert Nx Sx Fk Zk Sk.
  rewrite !get_sign_sign_of, is_nan_spec, is_finite_spec, is_zero_spec,
    div_spec.
  destruct (Prim2SF x) as [sx|sx| |sx mx ex], (Prim2SF k) as [sk|sk| |sk mk ek];
    cbn -[SFdiv_core_binary]; try congruence; intros _ -> _ _ ->;
    try reflexivity.
  pose proof (SFdiv_core_nonneg mx ex mk ek) as H0.
  destruct (SFdiv_core_binary prec emax (Zpos mx) ex (Zpos mk) ek)
    as [[mz ez] lz]. cbn [fst] in H0.
  now destruct (binary_round_aux_sign (xorb false false) mz ez lz H0) as [_ H].
Qed.

Lemma decimal_degrees_nonneg (d m s : Z) :
  (0 <= d)%Z -> (0 <= m)%Z -> (0 <= s)%Z ->
  let v := decimal_degrees (round_int d) (round_int m) (round_int s) in
  is_nan v = false /\ get_sign v = false.
Proof.
  intros Hd Hm Hs.
  destruct (round_int_units d) as (Nd & Sd & _).
  destruct (round_int_units m) as (Nm & Sm & _).
  destruct (round_int_units s) as (Ns & Ss & _).
  assert (Z.ltb d 0 = false) as Ed by (apply Z.ltb_ge; lia).
  assert (Z.ltb m 0 = false) as Em by (apply Z.ltb_ge; lia).
  assert (Z.ltb s 0 = false) as Es by (apply Z.ltb_ge; lia).
  rewrite Ed in Sd. rewrite Em in Sm. rewrite Es in Ss.
  destruct (div_nonneg (round_int m) 60 Nm Sm eq_refl eq_refl eq_refl)
    as [N1 S1].
  destruct (div_nonneg (round_int s) 3600 Ns Ss eq_refl eq_refl eq_refl)
    as [N2 S2].
  destruct (add_nonneg _ _ Nd Sd N1 S1) as [N3 S3].
  exact (add_nonneg _ _ N3 S3 N2 S2).
Qed.

Lemma coordinate_to_float_sign (d m s : Z) (sign : bool) :
  (0 <= d < int_limit)%Z -> (0 <= m < int_limit)%Z ->
  (0 <= s < int_limit)%Z ->
  exists v : float,
    coordinate_to_float (VInt d) (VInt m) (VInt s) (VBool sign) = Return v
    /\ (if sign then 0 <=? v else v <=? 0) = true.
Proof.
  intros Hd Hm Hs.
  rewrite coordinate_to_float_value by lia. cbv zeta.
  destruct (decimal_degrees_nonneg d m s) as [N S]; try lia.
  eexists. split; [reflexivity|].
  pose proof (nonneg_of_sign _ N S) as P.
  destruct sign; [exact P|].
  rewrite leb_units by (rewrite ?is_nan_opp; assumption || reflexivity).
  rewrite funits_opp. apply nonneg_units in P.
  change (funits 0) with 0%Z. apply Z.leb_le. lia.
Qed.

Lemma coordinate_to_float_overflow (d m s : Z) (sign : bool) :
  (int_limit <= Z.abs d)%Z \/ (int_limit <= Z.abs m)%Z
  \/ (int_limit <= Z.abs s)%Z ->
  coordinate_to_float (VInt d) (VInt m) (VInt s) (VBool sign)
  = Raise (OverflowError "int too large to convert to float").
Proof.
  intros H. unfold coordinate_to_float, raise_if, float_binop.
  cbn [type_is_not type_of pytype_eqb negb bind as_float].
  destruct (Z.lt_ge_cases (Z.abs d) int_limit) as [Hd|Hd].
  2:{ now rewrite (float_of_int_overflows d Hd). }
  rewrite (float_of_int_fits d Hd). cbn [bind].
  destruct (Z.lt_ge_cases (Z.abs m) int_limit) as [Hm|Hm].
  2:{ now rewrite (float_of_int_overflows m Hm). }
  rewrite (float_of_int_fits m Hm). cbn [bind].
  destruct (Z.lt_ge_cases (Z.abs s) int_limit) as [Hs|Hs].
  2:{ now rewrite (float_of_int_overflows s Hs). }
  lia.
Qed.

End CoordinateSign.

Section ToleranceOfItself.

Local Open Scope Z_scope.

Lemma round_up_to_multiple k n :
  0 < k -> 0 <= n -> Z.log2 k = 52 ->
  round_up_to 0 (k * 2 ^ n) = k * 2 ^ n.
Proof.
  intros Hk Hn Hl. unfold round_up_to, grid.
  rewrite Z.log2_mul_pow2 by lia. rewrite Hl.
  replace (Z.max (n + 52 - 52) 0) with n by lia.
  rewrite rne_exact by lia. f_equal. f_equal. lia.
Qed.

Lemma log2_52 k : 2 ^ 52 <= k < 2 ^ 53 -> Z.log2 k = 52.
Proof. intros H. apply Z.log2_unique; lia. Qed.

(** The neighbours of a normal number on its grid. *)
Lemma round_up_to_neighbours m n :
  2 ^ 52 <= m < 2 ^ 53 -> 1 <= n ->
  round_up_to 0 ((m + 1) * 2 ^ n) = (m + 1) * 2 ^ n
  /\ round_up_to 0 ((m - 1) * 2 ^ n) = (m - 1) * 2 ^ n.
Proof.
  intros Hm Hn. split.
  - destruct (Z.eq_dec (m + 1) (2 ^ 53)) as [E|NE].
    + rewrite E.
      replace (2 ^ 53 * 2 ^ n) with (2 ^ 52 * 2 ^ (n + 1))
        by (rewrite (Z.pow_add_r 2 n 1) by lia;
            change (2 ^ 53) with (2 ^ 52 * 2); change (2 ^ 1) with 2; ring).
      apply round_up_to_multiple; [lia | lia | reflexivity].
    + apply round_up_to_multiple; [lia | lia | apply log2_52; lia].
  - destruct (Z.eq_dec m (2 ^ 52)) as [E|NE].
    + rewrite E.
      replace ((2 ^ 52 - 1) * 2 ^ n) with ((2 ^ 53 - 2) * 2 ^ (n - 1)).
      * apply round_up_to_multiple; [lia | lia | reflexivity].
      * replace n with (n - 1 + 1) at 2 by lia.
        rewrite (Z.pow_add_r 2 (n - 1) 1) by lia.
        change (2 ^ 53) with (2 ^ 52 * 2). change (2 ^ 1) with 2. ring.
    + apply round_up_to_multiple; [lia | lia | apply log2_52; lia].
Qed.

Lemma round_to_pow2 L :
  1074 <= L -> L - 1074 < 2098 ->
  round_to 1074 (2 ^ L) = 2 ^ (L - 1074).
Proof.
  intros HL Hc. assert (P := pow2_pos L ltac:(lia)).
  unfold round_to. rewrite Z.sgn_pos, Z.abs_eq by lia.
  unfold round_up_to.
  rewrite (round_up_to_pow2 1074 (2 ^ L) L) by
    (try lia; unfold grid; rewrite Z.log2_pow2 by lia; lia).
  assert (2 ^ (L - 1074) < cap) by (apply pow2_lt; lia).
  lia.
Qed.

End ToleranceOfItself.

Section ToleranceOfItselfFloat.

Local Open Scope float_scope.

Lemma within_tolerance_self v :
  is_finite v = true -> (1 <=? v) = true -> within_tolerance v v = true.
Proof.
  intros F L.
  assert (K : in_unit_interval 0.001 = true) by reflexivity.
  assert (Kf : is_finite 0.001 = true) by reflexivity.
  assert (Kp : (2 ^ 1064 <= funits 0.001)%Z) by (vm_compute; discriminate).
  pose proof (is_finite_not_nan v F) as Nv.
  destruct (mul_units v 0.001 F Kf) as (Np & _ & Up).
  pose proof (mul_finite_unit_factor v 0.001 F K) as Fp.
  destruct (sub_units v _ F Fp) as (Nb & Ub & _).
  destruct (add_units v _ F Fp) as (Nt & Ut & _).
  apply le_units in L. rewrite funits_one in L.
  (* the mantissa and the exponent of [v] *)
  assert (R : exists m n : Z,
             (2 ^ 52 <= m < 2 ^ 53)%Z /\ (1 <= n)%Z /\ (n <= 2045)%Z
             /\ funits v = (m * 2 ^ n)%Z).
  { unfold funits in *. pose proof (Prim2SF_valid v) as V.
    rewrite is_finite_spec in F.
    destruct (Prim2SF v) as [s|s| |s m e]; cbn [units] in L;
      try discriminate; try (pose proof (pow2_pos 1074); lia).
    cbn [valid_binary] in V.
    destruct (bounded_inv m e V) as (He & Hm & Hn & _).
    pose proof (finite_units_bounds m e V) as HB.
    destruct s; cbn [cond_Zopp units] in *;
      [pose proof (pow2_pos 1074); lia|].
    assert (E : (-1074 < e)%Z).
    { destruct (Z.eq_dec e (-1074)) as [->|]; [|lia].
      change (2 ^ (-1074 + 1074))%Z with 1%Z in L.
      assert (2 ^ 53 < 2 ^ 1074)%Z by (apply pow2_lt; lia). lia. }
    exists (Zpos m), (e + 1074)%Z. repeat split; lia. }
  destruct R as (m & n & Hm & Hn & Hn' & Uv).
  set (w := (2 ^ n)%Z). assert (Hw : (0 < w)%Z) by (apply pow2_pos; lia).
  destruct (round_up_to_neighbours m n Hm Hn) as [Rs Rp]. fold w in Rs, Rp.
  assert (Hcap : (funits v < cap)%Z).
  { rewrite (is_finite_units v Nv) in F. apply Z.ltb_lt in F. lia. }
  (* the tolerance is one step of the grid at least *)
  assert (P : (w <= funits (v * 0.001))%Z).
  { rewrite Up, Uv.
    replace w with (round_to 1074 (2 ^ (n + 1074)))
      by (rewrite round_to_pow2 by lia; unfold w; f_equal; lia).
    apply round_to_mono; [lia|].
    rewrite Z.pow_add_r by lia. fold w.
    assert (2 ^ 1074 <= m * funits 0.001)%Z.
    { change (2 ^ 1074)%Z with (2 ^ 10 * 2 ^ 1064)%Z.
      apply Z.mul_le_mono_nonneg; lia. }
    nia. }
  destruct (mul_unit_factor v 0.001 F K) as (_ & Ap).
  unfold within_tolerance.
  rewrite !ltb_units by assumption. rewrite Ub, Ut, Uv in *.
  set (fp := funits (v * 0.001)) in *.
  assert (B : (round_to 0 (m * w - fp) < m * w)%Z).
  { assert (round_to 0 (m * w - fp) <= round_to 0 ((m - 1) * w))%Z
      by (apply round_to_mono; lia).
    assert (E : round_to 0 ((m - 1) * w) = ((m - 1) * w)%Z).
    { unfold round_to. rewrite Z.sgn_pos, Z.abs_eq by nia.
      rewrite Rp. lia. }
    lia. }
  assert (T : (m * w < round_to 0 (m * w + fp))%Z).
  { assert (round_to 0 ((m + 1) * w) <= round_to 0 (m * w + fp))%Z
      by (apply round_to_mono; lia).
    assert (E : round_to 0 ((m + 1) * w) = Z.min ((m + 1) * w) cap).
    { unfold round_to. rewrite Z.sgn_pos, Z.abs_eq by nia.
      rewrite Rs. lia. }
    lia. }
  apply Z.ltb_lt in B, T. fold w. now rewrite B, T.
Qed.

End ToleranceOfItselfFloat.

(** ** Further properties of the three methods and of the test harness *)

Section Further.

Variable M : Libm.

Local Open Scope float_scope.
Local Open Scope string_scope.

(** X1: [dist] turns down, with a [TypeError] that says so, whatever is
    not a pair of tuples of exactly two floats each; an int is no float. *)
Theorem dist_turns_down_malformed (v1 v2 : value) :
  is_point v1 && is_point v2 = false ->
  exists msg,
    dist M v1 v2 = Raise (TypeError ("Invalid input to dist! " ++ msg)).
Proof.
  intros H. unfold dist, raise_if.
  destruct v1 as [ | | | | |[|x1 [|y1 [|z1 r1]]]|];
    try (eexists; reflexivity).
  2:{ cbn -[len List.length Z.of_nat String.append]. unfold len.
      cbn [bind]. rewrite len_long. eexists; reflexivity. }
  destruct x1; try (eexists; reflexivity).
  destruct y1; try (eexists; reflexivity).
  destruct v2 as [ | | | | |[|x2 [|y2 [|z2 r2]]]|];
    try (eexists; reflexivity).
  2:{ cbn -[len List.length Z.of_nat String.append]. unfold len.
      cbn [bind]. rewrite len_long. eexists; reflexivity. }
  destruct x2; try (eexists; reflexivity).
  destruct y2; try (eexists; reflexivity).
  discriminate H.
Qed.

(** X2: on two well-formed points [dist] never raises a [TypeError] or an
    [IndexError]: an exception it raises comes from the [math] module,
    whatever the C library and whatever the floats, finite or not. *)
Theorem dist_fails_only_in_math (lat1 lon1 lat2 lon2 : float) (e : exn) :
  dist M (point lat1 lon1) (point lat2 lon2) = Raise e ->
  e = ValueError "math domain error"
  \/ e = OverflowError "math range error".
Proof. rewrite dist_on_points. apply haversine_raises. Qed.

(** X3: the floats are not checked for being finite.  When a latitude is
    an infinity, or when a difference of latitudes or of longitudes is one
    (two finite coordinates can overflow), [dist] raises the [ValueError]
    of [math.sin] or [math.cos], whatever the C library. *)
Theorem dist_infinite_coordinate (lat1 lon1 lat2 lon2 : float) :
  is_infinity lat1 = true \/ is_infinity lat2 = true
  \/ is_infinity (lat2 - lat1) = true \/ is_infinity (lon2 - lon1) = true ->
  dist M (point lat1 lon1) (point lat2 lon2)
  = Raise (ValueError "math domain error").
Proof. rewrite dist_on_points. apply haversine_infinite. Qed.

(** X4: a NaN coordinate is not turned down either: when no latitude and
    no difference of coordinates is infinite, [dist] returns NaN. *)
Theorem dist_nan_coordinate (lat1 lon1 lat2 lon2 : float) :
  sin_in_range M -> cos_in_range M ->
  is_infinity lat1 = false -> is_infinity lat2 = false ->
  is_infinity (lat2 - lat1) = false -> is_infinity (lon2 - lon1) = false ->
  is_nan lat1 = true \/ is_nan lat2 = true
  \/ is_nan lon1 = true \/ is_nan lon2 = true ->
  dist M (point lat1 lon1) (point lat2 lon2) = Return nan.
Proof. rewrite dist_on_points. apply haversine_nan. Qed.

(** X5: the distance does not depend on which of East and West counts as
    positive: with an odd sine, negating both longitudes changes neither
    the float returned nor the exception raised. *)
Theorem dist_mirror_longitudes (lat1 lon1 lat2 lon2 : float) :
  sin_odd M ->
  dist M (point lat1 (- lon1)) (point lat2 (- lon2))
  = dist M (point lat1 lon1) (point lat2 lon2).
Proof. rewrite !dist_on_points. apply haversine_mirror_longitudes. Qed.

(** X6: nor on which of North and South counts as positive: with an odd
    sine and an even cosine, negating both latitudes changes nothing. *)
Theorem dist_mirror_latitudes (lat1 lon1 lat2 lon2 : float) :
  sin_odd M -> cos_even M ->
  dist M (point (- lat1) lon1) (point (- lat2) lon2)
  = dist M (point lat1 lon1) (point lat2 lon2).
Proof. rewrite !dist_on_points. apply haversine_mirror_latitudes. Qed.

(** X7: a first route that is not a tuple of two tuples of two floats each
    is turned down by [is_longer_trip] with its own [TypeError], before
    the second route is looked at. *)
Theorem is_longer_trip_turns_down_first (x y : value) :
  is_route x = false ->
  exists msg,
    is_longer_trip M x y
    = Raise (TypeError ("Invalid input to is_longer_trip! " ++ msg)).
Proof. apply is_longer_trip_rejects_first. Qed.

(** X8: [is_longer_trip] returns no answer for a malformed argument: when
    one of the two routes is not well formed the call raises, be it not
    always the [TypeError] of its own checks. *)
Theorem is_longer_trip_no_answer_when_malformed (x y : value) :
  is_route x && is_route y = false ->
  exists e, is_longer_trip M x y = Raise e.
Proof.
  intros H. destruct (is_route x) eqn:Rx.
  - apply is_route_inv in Rx as (a1 & a2 & b1 & b2 & ->).
    now apply is_longer_trip_rejects_second.
  - destruct (is_longer_trip_rejects_first M x y Rx) as [msg E].
    eexists; exact E.
Qed.

(** X9: on two well-formed routes [is_longer_trip] raises nothing but what
    the [math] module raises in one of its six distances. *)
Theorem is_longer_trip_fails_only_in_math
  (a1 a2 b1 b2 c1 c2 d1 d2 : float) (e : exn) :
  is_longer_trip M (route (point a1 a2) (point b1 b2))
    (route (point c1 c2) (point d1 d2)) = Raise e ->
  e = ValueError "math domain error"
  \/ e = OverflowError "math range error".
Proof. apply is_longer_trip_raises. Qed.

(** X10: [is_longer_trip] is asymmetric: when it answers True for (x, y)
    it answers False for (y, x), whatever the arguments. *)
Theorem is_longer_trip_asymmetric (x y : value) :
  is_longer_trip M x y = Return true ->
  is_longer_trip M y x = Return false.
Proof.
  intros H. destruct (is_longer_trip_returns_routes M x y true H) as [Rx Ry].
  apply is_route_inv in Rx as (a1 & a2 & b1 & b2 & ->).
  apply is_route_inv in Ry as (c1 & c2 & d1 & d2 & ->).
  now apply is_longer_trip_asymmetric_on_routes.
Qed.

(** X11: the two detours cancel.  With an odd sine, [is_longer_trip]
    answers True for x = (a, b) and y = (c, d) only if the second route is
    by itself strictly longer than the first: dist(a, b) < dist(c, d). *)
Theorem is_longer_trip_means_longer_second_route
  (a1 a2 b1 b2 c1 c2 d1 d2 : float) :
  sin_odd M ->
  is_longer_trip M (route (point a1 a2) (point b1 b2))
    (route (point c1 c2) (point d1 d2)) = Return true ->
  exists dab dcd : float,
    dist M (point a1 a2) (point b1 b2) = Return dab
    /\ dist M (point c1 c2) (point d1 d2) = Return dcd
    /\ (dab <? dcd)%float = true.
Proof. apply is_longer_trip_direct. Qed.

End Further.

Local Open Scope string_scope.

(** X12: [coordinate_to_float] turns down, with a [TypeError] that says
    so, degrees, minutes or seconds that are not ints (a bool and a float
    are no ints) and a sign that is not a bool. *)
Theorem coordinate_to_float_turns_down (degrees minutes seconds sign : value) :
  type_is_not degrees Tint || type_is_not minutes Tint
  || type_is_not seconds Tint || type_is_not sign Tbool = true ->
  exists msg,
    coordinate_to_float degrees minutes seconds sign
    = Raise (TypeError ("Invalid input to coordinate_to_float! " ++ msg)).
Proof.
  intros H. unfold coordinate_to_float, raise_if.
  destruct degrees; try (eexists; reflexivity).
  destruct minutes; try (eexists; reflexivity).
  destruct seconds; try (eexists; reflexivity).
  destruct sign; try (eexists; reflexivity).
  discriminate H.
Qed.

(** X13: an int of magnitude [2^1024 - 2^970] or more, as degrees, minutes
    or seconds, makes [coordinate_to_float] raise [OverflowError]. *)
Theorem coordinate_to_float_too_large (d m s : Z) (sign : bool) :
  (int_limit <= Z.abs d)%Z \/ (int_limit <= Z.abs m)%Z
  \/ (int_limit <= Z.abs s)%Z ->
  coordinate_to_float (VInt d) (VInt m) (VInt s) (VBool sign)
  = Raise (OverflowError "int too large to convert to float").
Proof. apply coordinate_to_float_overflow. Qed.

(** X14: for degrees, minutes and seconds that are not negative the sign
    flag decides the sign of the result: it is at least 0 when the flag is
    True and at most 0 when it is False. *)
Theorem coordinate_to_float_hemisphere (d m s : Z) (sign : bool) :
  (0 <= d < int_limit)%Z -> (0 <= m < int_limit)%Z ->
  (0 <= s < int_limit)%Z ->
  exists v : float,
    coordinate_to_float (VInt d) (VInt m) (VInt s) (VBool sign) = Return v
    /\ (if sign then 0 <=? v else v <=? 0)%float = true.
Proof. apply coordinate_to_float_sign. Qed.

(** X15: [within_tolerance] accepts positive values against positive
    targets only: against a target that is zero, negative or NaN it is
    False for every value. *)
Theorem within_tolerance_positive (value target : float) :
  within_tolerance value target = true ->
  (0 <? target)%float = true /\ (0 <? value)%float = true.
Proof. apply within_tolerance_sign. Qed.

(** X16: every finite float from 1.0 on is within tolerance of itself, so
    that a test of a distance against itself cannot fail. *)
Theorem within_tolerance_of_itself (v : float) :
  is_finite v = true -> (1 <=? v)%float = true ->
  within_tolerance v v = true.
Proof. apply within_tolerance_self. Qed.

(** *** The properties at work *)

Lemma dist_turns_down_malformed_witness :
  exists msg,
    dist SeriesLibm.libm (VTuple [VInt 40; VFloat 73.9942]) (point 0 0)
    = Raise (TypeError ("Invalid input to dist! " ++ msg)).
Proof.
  apply (dist_turns_down_malformed SeriesLibm.libm
           (VTuple [VInt 40; VFloat 73.9942]) (point 0 0)).
  reflexivity.
Defined.

Lemma dist_fails_only_in_math_witness :
  ValueError "math domain error" = ValueError "math domain error"
  \/ ValueError "math domain error" = OverflowError "math range error".
Proof.
  apply (dist_fails_only_in_math SeriesLibm.libm
           (-0x1p+1023) 0 0x1p+1023 0 (ValueError "math domain error")).
  vm_compute. reflexivity.
Defined.

Lemma dist_infinite_coordinate_witness :
  dist SeriesLibm.libm (point 40.7517 73.9942) (point infinity 0)
  = Raise (ValueError "math domain error").
Proof.
  apply (dist_infinite_coordinate SeriesLibm.libm 40.7517 73.9942 infinity 0).
  right. left. reflexivity.
Defined.

Lemma dist_nan_coordinate_witness :
  dist SeriesLibm.libm (point nan 73.9942) (point 37.7775 122.4111)
  = Return nan.
Proof.
  apply (dist_nan_coordinate SeriesLibm.libm nan 73.9942 37.7775 122.4111
           series_sin_in_range series_cos_in_range);
    try reflexivity.
  left. reflexivity.
Defined.

Lemma dist_mirror_longitudes_witness :
  dist SeriesLibm.libm (point 40.7517 (- 73.9942)) (point 37.7775 (- 122.4111))
  = dist SeriesLibm.libm (point 40.7517 73.9942) (point 37.7775 122.4111).
Proof.
  exact (dist_mirror_longitudes SeriesLibm.libm 40.7517 73.9942
           37.7775 122.4111 series_sin_odd).
Defined.

Lemma dist_mirror_latitudes_witness :
  dist SeriesLibm.libm (point (- 40.7517) 73.9942) (point (- 37.7775) 122.4111)
  = dist SeriesLibm.libm (point 40.7517 73.9942) (point 37.7775 122.4111).
Proof.
  exact (dist_mirror_latitudes SeriesLibm.libm 40.7517 73.9942
           37.7775 122.4111 series_sin_odd series_cos_even).
Defined.

Lemma is_longer_trip_turns_down_first_witness :
  exists msg,
    is_longer_trip SeriesLibm.libm
      (route (point 0 0) (VTuple [VFloat 48.8667; VInt 2]))
      (route (point 0 0) (point 0 0))
    = Raise (TypeError ("Invalid input to is_longer_trip! " ++ msg)).
Proof.
  apply (is_longer_trip_turns_down_first SeriesLibm.libm
           (route (point 0 0) (VTuple [VFloat 48.8667; VInt 2]))
           (route (point 0 0) (point 0 0))).
  reflexivity.
Defined.

Lemma is_longer_trip_no_answer_when_malformed_witness :
  exists e,
    is_longer_trip SeriesLibm.libm
      (route (point 0 0) (point 48.8667 2.3333))
      (route (point 22.8953 43.2228)
         (VTuple [VFloat 48.8667; VFloat 2.3333; VFloat 0]))
    = Raise e.
Proof.
  apply (is_longer_trip_no_answer_when_malformed SeriesLibm.libm
           (route (point 0 0) (point 48.8667 2.3333))
           (route (point 22.8953 43.2228)
              (VTuple [VFloat 48.8667; VFloat 2.3333; VFloat 0]))).
  reflexivity.
Defined.

Lemma is_longer_trip_fails_only_in_math_witness :
  ValueError "math domain error" = ValueError "math domain error"
  \/ ValueError "math domain error" = OverflowError "math range error".
Proof.
  apply (is_longer_trip_fails_only_in_math SeriesLibm.libm
           (-0x1p+1023) 0 0 0 0x1p+1023 0 0 0
           (ValueError "math domain error")).
  vm_compute. reflexivity.
Defined.

Lemma is_longer_trip_asymmetric_witness :
  is_longer_trip SeriesLibm.libm
    (route (point (-22.8953) 43.2228) (point 48.8667 (-2.3333)))
    (route (point 0 0) (point 48.8667 (-2.3333)))
  = Return false.
Proof.
  apply (is_longer_trip_asymmetric SeriesLibm.libm
           (route (point 0 0) (point 48.8667 (-2.3333)))
           (route (point (-22.8953) 43.2228) (point 48.8667 (-2.3333)))).
  vm_compute. reflexivity.
Defined.

Lemma is_longer_trip_means_longer_second_route_witness :
  exists dab dcd : float,
    dist SeriesLibm.libm (point 0 0) (point 48.8667 (-2.3333)) = Return dab
    /\ dist SeriesLibm.libm (point (-22.8953) 43.2228)
         (point 48.8667 (-2.3333)) = Return dcd
    /\ (dab <? dcd)%float = true.
Proof.
  apply (is_longer_trip_means_longer_second_route SeriesLibm.libm
           0 0 48.8667 (-2.3333) (-22.8953) 43.2228 48.8667 (-2.3333)
           series_sin_odd).
  vm_compute. reflexivity.
Defined.

Lemma coordinate_to_float_turns_down_witness :
  exists msg,
    coordinate_to_float (VInt 40) (VFloat 45.0) (VInt 6) (VBool true)
    = Raise (TypeError ("Invalid input to coordinate_to_float! " ++ msg)).
Proof.
  apply (coordinate_to_float_turns_down
           (VInt 40) (VFloat 45.0) (VInt 6) (VBool true)).
  reflexivity.
Defined.

Lemma coordinate_to_float_too_large_witness :
  coordinate_to_float (VInt 40) (VInt (- 2 ^ 1024)) (VInt 6) (VBool true)
  = Raise (OverflowError "int too large to convert to float").
Proof.
  apply (coordinate_to_float_too_large 40 (- 2 ^ 1024) 6 true).
  right. left. vm_compute. discriminate.
Defined.

Lemma coordinate_to_float_hemisphere_witness :
  exists v : float,
    coordinate_to_float (VInt 22) (VInt 53) (VInt 43) (VBool false) = Return v
    /\ (v <=? 0)%float = true.
Proof.
  apply (coordinate_to_float_hemisphere 22 53 43 false);
    split; vm_compute; (discriminate || reflexivity).
Defined.

Lemma within_tolerance_positive_witness :
  (0 <? 4125.62483398)%float = true /\ (0 <? 4128.4)%float = true.
Proof.
  apply (within_tolerance_positive 4128.4 4125.62483398). reflexivity.
Defined.

Lemma within_tolerance_of_itself_witness :
  within_tolerance 11642.40739436 11642.40739436 = true.
Proof.
  apply (within_tolerance_of_itself 11642.40739436); reflexivity.
Defined.

